(** * Paper-trading bot: position lifecycle and signal generation

    A shallow embedding of [PaperTradingBotRealPrice]
    (bots/nanba_paper_trading_real_price.py) and the properties of its
    position state machine and of its signal generator.

    Modelling conventions.

    - Numbers.  The bot computes with Python floats.  The development reads
      them in two ways.  For the properties of the state machine and of the
      signal generator, which turn on the branch that is taken and on what is
      stored where, a float is an exact rational ([Qc], the canonical
      rationals, so that equality of states is Leibniz equality) and every
      operator of the source is the exact operator.  For the properties that
      depend on the values the bot computes (the balance, the P&L and the
      close decision taken on it) a float is an IEEE 754 binary64 value
      ([PrimFloat.float], in module [Float64]) and every operator is the
      correctly rounded one, applied in the order of the source expression;
      NaN and the infinities are values like the others.  A float division
      whose divisor can be zero is [py_div], which raises
      [ZeroDivisionError] as Python does.
    - Dictionaries.  [self.positions], the quote map [prices] and the local
      [trader_activity] are Python dicts.  They are modelled as insertion
      ordered association lists ([Dict.t]), because [update_positions]
      iterates over [list(self.positions.items())] in insertion order.
    - Exceptions.  Code that can raise returns a [result]; an exception that
      [run] does not catch ends the process, so no state is returned with it.
    - The clock.  [datetime.now().isoformat()] is an input: [open_position]
      and [close_position] take the reading as an argument, and the loops take
      an oracle indexed by the number of readings made so far.
    - The outside world.  Logging, the Telegram notifications and the state
      file written by [save_state] are outputs that no method reads back
      during a run; they are left out.  [init] is the constructor when no
      state file exists.
    - Strings are byte strings; [upper] is [str.upper] on the strings of
      ASCII characters ([is_ascii]). *)

From Stdlib Require Import Floats.
From Stdlib Require Import List String Ascii Bool Arith ZArith QArith Qcanon.
From Stdlib Require Import Lia DecimalString DecimalNat Permutation.
Import ListNotations.

Open Scope string_scope.
Open Scope list_scope.
Open Scope Qc_scope.

Set Warnings "-inexact-float".

(* ------------------------------------------------------------------ *)
(** ** Python numbers *)

Module PyNum.

(** A Python float, idealised as an exact rational. *)
Abbreviation float := Qc (only parsing).

(** A decimal literal of the source, e.g. [fl 0.6]. *)
Definition fl (x : Q) : float := Q2Qc x.

(** [x <= y], [x < y] and [x == y] as Python evaluates them. *)
Definition leb (x y : float) : bool := Qle_bool x y.
Definition ltb (x y : float) : bool := negb (Qle_bool y x).
Definition eqb (x y : float) : bool := Qeq_bool x y.

(** Python's [min(a, b, c)]: the first argument is the candidate and a later
    one replaces it only when it is strictly smaller. *)
Definition min2 (m x : float) : float := if ltb x m then x else m.
Definition min3 (a b c : float) : float := min2 (min2 a b) c.

End PyNum.
Import PyNum.

Infix "<=?" := leb (at level 70) : Qc_scope.
Infix "<?" := ltb (at level 70) : Qc_scope.

(* ------------------------------------------------------------------ *)
(** ** Exceptions *)

Inductive exn : Type :=
| ZeroDivisionError
| KeyError.

Inductive result (A : Type) : Type :=
| Ok (a : A)
| Raise (e : exn).
Arguments Ok {A} a.
Arguments Raise {A} e.

Definition bind {A B : Type} (r : result A) (k : A -> result B) : result B :=
  match r with
  | Ok a => k a
  | Raise e => Raise e
  end.

Notation "x <- r ;; k" := (bind r (fun x => k))
  (at level 61, r at next level, right associativity).

(** Float division [x / y]. *)
Definition py_div (x y : float) : result float :=
  if eqb y 0 then Raise ZeroDivisionError else Ok (x / y).

(** A [for] loop whose body may raise: the first exception ends the loop. *)
Fixpoint for_each {A S : Type} (body : S -> A -> result S) (items : list A)
    (s : S) : result S :=
  match items with
  | [] => Ok s
  | x :: rest => s' <- body s x ;; for_each body rest s'
  end.

(* ------------------------------------------------------------------ *)
(** ** Python dicts with string keys *)

Module Dict.

Definition t (V : Type) : Type := list (string * V).

Definition empty {V : Type} : t V := [].

(** [d.get(k)] *)
Fixpoint get {V : Type} (k : string) (d : t V) : option V :=
  match d with
  | [] => None
  | (k', v) :: rest => if String.eqb k k' then Some v else get k rest
  end.

(** [k in d] *)
Definition mem {V : Type} (k : string) (d : t V) : bool :=
  match get k d with Some _ => true | None => false end.

(** [d[k] = v]: an existing key keeps its place, a new key goes last. *)
Fixpoint set {V : Type} (k : string) (v : V) (d : t V) : t V :=
  match d with
  | [] => [(k, v)]
  | (k', v') :: rest =>
      if String.eqb k k' then (k, v) :: rest else (k', v') :: set k v rest
  end.

(** [del d[k]], for a key that is present. *)
Fixpoint del {V : Type} (k : string) (d : t V) : t V :=
  match d with
  | [] => []
  | (k', v') :: rest =>
      if String.eqb k k' then rest else (k', v') :: del k rest
  end.

(** [list(d.items())] *)
Definition items {V : Type} (d : t V) : list (string * V) := d.

Definition keys {V : Type} (d : t V) : list string := map fst d.

Definition values {V : Type} (d : t V) : list V := map snd d.

End Dict.

(* ------------------------------------------------------------------ *)
(** ** Strings *)

Definition upper_ascii (c : ascii) : ascii :=
  let n := nat_of_ascii c in
  if (97 <=? n)%nat && (n <=? 122)%nat then ascii_of_nat (n - 32) else c.

(** [s.upper()] *)
Fixpoint upper (s : string) : string :=
  match s with
  | EmptyString => EmptyString
  | String c rest => String (upper_ascii c) (upper rest)
  end.

(** The strings of ASCII characters. *)
Fixpoint is_ascii (s : string) : bool :=
  match s with
  | EmptyString => true
  | String c rest => (nat_of_ascii c <? 128)%nat && is_ascii rest
  end.

(** [s in t] for strings: [s] occurs in [t]. *)
Fixpoint str_in (s t : string) : bool :=
  String.prefix s t ||
  match t with
  | EmptyString => false
  | String _ rest => str_in s rest
  end.

(** [s[:n]] *)
Definition str_take (n : nat) (s : string) : string := String.substring 0 n s.

(** [f"{n:04d}"] for a natural number: decimal digits, padded with zeros on
    the left to four characters. *)
Fixpoint zeros (n : nat) (digits : string) : string :=
  match n with
  | O => digits
  | S m => String "0" (zeros m digits)
  end.

Definition format_04d (n : nat) : string :=
  let digits := NilEmpty.string_of_uint (Nat.to_uint n) in
  zeros (4 - String.length digits)%nat digits.

(* ------------------------------------------------------------------ *)
(** ** Data *)

(** A reading of [datetime.now().isoformat()]. *)
Definition Timestamp : Type := string.

(** The dict returned by [get_hyperliquid_price]. *)
Record PriceQuote : Type := {
  q_symbol : string;
  bid : float;
  ask : float;
  mid : float;
  spread : float
}.

(** An element of the list returned by [fetch_moondev_sweeps]: a JSON object
    in which any key may be missing.  A numeric field holds the value that
    [float(...)] gives for it. *)
Record Sweep : Type := {
  sw_trader : option string;
  sw_usd_amount : option float;
  sw_size : option float;
  sw_side : option string;
  sw_market : option string
}.

(** [sweep.get(key, default)] *)
Definition get_or {A : Type} (field : option A) (default : A) : A :=
  match field with
  | Some v => v
  | None => default
  end.

(** The ['reason'] of a signal is an f-string; the model keeps the values it
    is formatted from:
    [f'Large liquidation: ${usd_amount:,.0f}'] and
    [f'Whale {trader[:10]}... active ({len(trader_trades)} trades)']. *)
Inductive Reason : Type :=
| LargeLiquidation (usd_amount : float)
| WhaleActive (trader_prefix : string) (n_trades : nat).

Record Signal : Type := {
  sig_symbol : string;
  sig_side : string;
  sig_reason : Reason;
  sig_confidence : float;
  sig_size : float;
  sig_price : float
}.

Record Position : Type := {
  pos_id : string;
  pos_symbol : string;
  pos_side : string;
  pos_entry_price : float;
  pos_size : float;
  pos_tp_price : float;
  pos_sl_price : float;
  pos_confidence : float;
  pos_reason : Reason;
  pos_opened_at : Timestamp
}.

Record Trade : Type := {
  tr_id : string;
  tr_symbol : string;
  tr_side : string;
  tr_entry_price : float;
  tr_exit_price : float;
  tr_size : float;
  tr_pnl_pct : float;
  tr_pnl_amount : float;
  tr_reason : string;
  tr_opened_at : Timestamp;
  tr_closed_at : Timestamp
}.

(** The attributes of a [PaperTradingBotRealPrice] instance. *)
Record Bot : Type := {
  balance : float;
  initial_balance : float;
  positions : Dict.t Position;
  trades : list Trade;
  trade_counter : nat;
  symbols : list string;
  max_position_size : float;
  tp_percent : float;
  sl_percent : float;
  min_confidence : float
}.

(* ------------------------------------------------------------------ *)
(** ** The methods of [PaperTradingBotRealPrice] *)

(** [__init__], when [load_state] finds no state file. *)
Definition init (initial_balance : float) : Bot := {|
  balance := initial_balance;
  initial_balance := initial_balance;
  positions := Dict.empty;
  trades := [];
  trade_counter := 0;
  symbols := ["BTC"; "ETH"; "SOL"];
  max_position_size := fl 150;
  tp_percent := fl 0.6;
  sl_percent := fl 3.0;
  min_confidence := fl 60
|}.

(** [get_hyperliquid_price].  [book] is what the request gave: the best bid
    and the best ask, or [None] when the request or the parsing raised.  The
    spread divides by the mid price; the [ZeroDivisionError] is caught by the
    method's [except] like every other exception, and [None] is returned. *)
Definition get_hyperliquid_price (symbol : string)
    (book : option (float * float)) : option PriceQuote :=
  match book with
  | None => None
  | Some (best_bid, best_ask) =>
      let mid_price := (best_bid + best_ask) / fl 2 in
      match py_div (best_ask - best_bid) mid_price with
      | Raise _ => None
      | Ok r =>
          Some {| q_symbol := symbol; bid := best_bid; ask := best_ask;
                  mid := mid_price; spread := r * fl 100 |}
      end
  end.

(** [get_all_prices]; [fetch] is the order book the exchange returns for
    each symbol. *)
Definition get_all_prices (st : Bot)
    (fetch : string -> option (float * float)) : Dict.t PriceQuote :=
  fold_left
    (fun prices symbol =>
       match get_hyperliquid_price symbol (fetch symbol) with
       | Some price_data => Dict.set symbol price_data prices
       | None => prices
       end)
    (symbols st) Dict.empty.

(** The first loop of [generate_signals]: sweeps grouped by trader. *)
Definition group_by_trader (sweeps : list Sweep) : Dict.t (list Sweep) :=
  fold_left
    (fun trader_activity sweep =>
       let trader := get_or (sw_trader sweep) "unknown" in
       let trader_activity :=
         if Dict.mem trader trader_activity then trader_activity
         else Dict.set trader [] trader_activity in
       Dict.set trader
         (get_or (Dict.get trader trader_activity) [] ++ [sweep])
         trader_activity)
    sweeps Dict.empty.

(** The symbol extracted from a market name: the first tracked symbol that
    occurs in the upper-cased name. *)
Definition extract_symbol (st : Bot) (market : string) : option string :=
  find (fun s => str_in s (upper market)) (symbols st).

(** Signal 1 of [generate_signals]. *)
Definition liquidation_signal (st : Bot) (symbol side : string)
    (usd_amount : float) (quote : PriceQuote) : Signal :=
  let confidence := min2 (usd_amount / fl 100000) (fl 0.9) * fl 100 in
  {| sig_symbol := symbol;
     sig_side := if String.eqb side "SELL" then "BUY" else "SELL";
     sig_reason := LargeLiquidation usd_amount;
     sig_confidence := confidence;
     sig_size := min3 (usd_amount * fl 0.01) (balance st * fl 0.15)
                   (max_position_size st);
     sig_price := mid quote |}.

(** Signal 2 of [generate_signals]. *)
Definition whale_signal (st : Bot) (symbol side trader : string)
    (usd_amount : float) (trader_trades : list Sweep) (quote : PriceQuote)
    : Signal :=
  let confidence := fl 75 in
  {| sig_symbol := symbol;
     sig_side := side;
     sig_reason := WhaleActive (str_take 10 trader) (List.length trader_trades);
     sig_confidence := confidence;
     sig_size := min3 (usd_amount * fl 0.1) (balance st * fl 0.15)
                   (max_position_size st);
     sig_price := mid quote |}.

(** The trades of a trader that count for whale detection. *)
Definition large_trades (trades_of_trader : list Sweep) : list Sweep :=
  filter (fun t => fl 10000 <=? get_or (sw_usd_amount t) 0) trades_of_trader.

(** One iteration of the second loop of [generate_signals]: the signals
    appended for [sweep], in order. *)
Definition signals_of_sweep (st : Bot) (trader_activity : Dict.t (list Sweep))
    (prices : Dict.t PriceQuote) (sweep : Sweep) : list Signal :=
  let usd_amount := get_or (sw_usd_amount sweep) 0 in
  let size := get_or (sw_size sweep) 0 in
  let side := get_or (sw_side sweep) "BUY" in
  let market := get_or (sw_market sweep) "" in
  match extract_symbol st market with
  | None => []
  | Some symbol =>
      if String.eqb symbol "" then [] else
      match Dict.get symbol prices with
      | None => []
      | Some quote =>
          (if (fl 50000 <=? usd_amount) && (fl 1000 <? size)
           then [liquidation_signal st symbol side usd_amount quote]
           else [])
          ++
          (let trader := get_or (sw_trader sweep) "" in
           match Dict.get trader trader_activity with
           | None => []
           | Some trades_of_trader =>
               let trader_trades := large_trades trades_of_trader in
               if (2 <=? List.length trader_trades)%nat
               then [whale_signal st symbol side trader usd_amount
                       trader_trades quote]
               else []
           end)
      end
  end.

Definition generate_signals (st : Bot) (sweeps : list Sweep)
    (prices : Dict.t PriceQuote) : list Signal :=
  let trader_activity := group_by_trader sweeps in
  flat_map (signals_of_sweep st trader_activity prices) sweeps.

(** The position that [open_position] builds for a signal. *)
Definition new_position (st : Bot) (signal : Signal) (now : Timestamp)
    : Position :=
  let entry_price := sig_price signal in
  let tp_price :=
    if String.eqb (sig_side signal) "BUY"
    then entry_price * (1 + tp_percent st / fl 100)
    else entry_price * (1 - tp_percent st / fl 100) in
  let sl_price :=
    if String.eqb (sig_side signal) "BUY"
    then entry_price * (1 - sl_percent st / fl 100)
    else entry_price * (1 + sl_percent st / fl 100) in
  {| pos_id := ("POS_" ++ format_04d (trade_counter st))%string;
     pos_symbol := sig_symbol signal;
     pos_side := sig_side signal;
     pos_entry_price := entry_price;
     pos_size := sig_size signal;
     pos_tp_price := tp_price;
     pos_sl_price := sl_price;
     pos_confidence := sig_confidence signal;
     pos_reason := sig_reason signal;
     pos_opened_at := now |}.

Definition open_position (st : Bot) (signal : Signal) (now : Timestamp)
    : Bot :=
  let symbol := sig_symbol signal in
  if Dict.mem symbol (positions st) then st else
  let size := sig_size signal in
  if balance st <? size then st else
  let position := new_position st signal now in
  {| balance := balance st - size;
     initial_balance := initial_balance st;
     positions := Dict.set symbol position (positions st);
     trades := trades st;
     trade_counter := S (trade_counter st);
     symbols := symbols st;
     max_position_size := max_position_size st;
     tp_percent := tp_percent st;
     sl_percent := sl_percent st;
     min_confidence := min_confidence st |}.

(** The trade record that [close_position] appends. *)
Definition new_trade (position : Position) (exit_price : float)
    (reason : string) (pnl_pct : float) (now : Timestamp) : Trade :=
  let size := pos_size position in
  let pnl_amount := size * (pnl_pct / fl 100) in
  {| tr_id := pos_id position;
     tr_symbol := pos_symbol position;
     tr_side := pos_side position;
     tr_entry_price := pos_entry_price position;
     tr_exit_price := exit_price;
     tr_size := size;
     tr_pnl_pct := pnl_pct;
     tr_pnl_amount := pnl_amount;
     tr_reason := reason;
     tr_opened_at := pos_opened_at position;
     tr_closed_at := now |}.

(** [close_position]; [del self.positions[symbol]] raises [KeyError] when the
    position's symbol is not a key. *)
Definition close_position (st : Bot) (position : Position)
    (exit_price : float) (reason : string) (pnl_pct : float)
    (now : Timestamp) : result Bot :=
  let symbol := pos_symbol position in
  let size := pos_size position in
  let pnl_amount := size * (pnl_pct / fl 100) in
  let trade := new_trade position exit_price reason pnl_pct now in
  if Dict.mem symbol (positions st) then
    Ok {| balance := balance st + (size + pnl_amount);
          initial_balance := initial_balance st;
          positions := Dict.del symbol (positions st);
          trades := trades st ++ [trade];
          trade_counter := trade_counter st;
          symbols := symbols st;
          max_position_size := max_position_size st;
          tp_percent := tp_percent st;
          sl_percent := sl_percent st;
          min_confidence := min_confidence st |}
  else Raise KeyError.

(** The percentage P&L that [update_positions] and [print_summary] compute
    for a position at a current price. *)
Definition pnl_pct_of (position : Position) (current_price : float)
    : result float :=
  let entry_price := pos_entry_price position in
  if String.eqb (pos_side position) "BUY"
  then r <- py_div (current_price - entry_price) entry_price ;;
       Ok (r * fl 100)
  else r <- py_div (entry_price - current_price) entry_price ;;
       Ok (r * fl 100).

(** How many times the clock has been read: once per opened position and
    once per closed one. *)
Definition clock_reads (st : Bot) : nat :=
  (trade_counter st + List.length (trades st))%nat.

(** One iteration of the loop of [update_positions]. *)
Definition check_position (prices : Dict.t PriceQuote)
    (clock : nat -> Timestamp) (st : Bot) (item : string * Position)
    : result Bot :=
  let (symbol, position) := item in
  match Dict.get symbol prices with
  | None => Ok st
  | Some quote =>
      let current_price := mid quote in
      pnl_pct <- pnl_pct_of position current_price ;;
      if tp_percent st <=? pnl_pct then
        close_position st position current_price "TAKE_PROFIT" pnl_pct
          (clock (clock_reads st))
      else if pnl_pct <=? - sl_percent st then
        close_position st position current_price "STOP_LOSS" pnl_pct
          (clock (clock_reads st))
      else Ok st
  end.

(** [update_positions]: the loop runs over a copy of the items taken before
    the first iteration. *)
Definition update_positions (st : Bot) (prices : Dict.t PriceQuote)
    (clock : nat -> Timestamp) : result Bot :=
  for_each (check_position prices clock) (Dict.items (positions st)) st.

(** [print_summary] prints only; what matters to the caller is whether one
    of its divisions raises. *)
Definition print_summary (st : Bot) (prices : Dict.t PriceQuote)
    : result unit :=
  let total_pnl := balance st - initial_balance st in
  _ <- py_div total_pnl (initial_balance st) ;;
  for_each
    (fun (_ : unit) (item : string * Position) =>
       let (symbol, pos) := item in
       match Dict.get symbol prices with
       | None => Ok tt
       | Some quote => _ <- pnl_pct_of pos (mid quote) ;; Ok tt
       end)
    (Dict.items (positions st)) tt.

(** Step 4 of [run] for one signal: the confidence gate, then
    [open_position]. *)
Definition admit_signal (st : Bot) (signal : Signal) (now : Timestamp)
    : Bot :=
  if min_confidence st <=? sig_confidence signal
  then open_position st signal now
  else st.

(** Step 4 of [run]. *)
Definition admit_signals (st : Bot) (signals : list Signal)
    (clock : nat -> Timestamp) : Bot :=
  fold_left (fun s signal => admit_signal s signal (clock (clock_reads s)))
    signals st.

(** One iteration of the loop of [run], given what the two fetches return. *)
Definition run_cycle (st : Bot) (prices : Dict.t PriceQuote)
    (sweeps : list Sweep) (clock : nat -> Timestamp) : result Bot :=
  match prices with
  | [] => Ok st
  | _ :: _ =>
      let signals := generate_signals st sweeps prices in
      let st := admit_signals st signals clock in
      st <- update_positions st prices clock ;;
      _ <- print_summary st prices ;;
      Ok st
  end.

(* ------------------------------------------------------------------ *)
(** ** What the properties are stated with *)

(** The transition NONE -> OPEN of a symbol between two states. *)
Definition opens (st st' : Bot) (symbol : string) : bool :=
  negb (Dict.mem symbol (positions st)) && Dict.mem symbol (positions st').

(** A signal is admitted when step 4 of [run] opens a position for it. *)
Definition admitted (st : Bot) (signal : Signal) (now : Timestamp) : bool :=
  opens st (admit_signal st signal now) (sig_symbol signal).

(** The open positions whose symbol is [symbol]. *)
Definition open_positions_of (st : Bot) (symbol : string) : list Position :=
  filter (fun p => String.eqb (pos_symbol p) symbol)
    (Dict.values (positions st)).

Definition sum (xs : list float) : float := fold_right Qcplus 0 xs.

(** Every position is stored under its own symbol, and no key occurs twice. *)
Definition positions_wf (d : Dict.t Position) : Prop :=
  NoDup (Dict.keys d) /\ Forall (fun item => pos_symbol (snd item) = fst item) d.

(** The states of an account that starts without positions and trades, with
    balance [b0], after any sequence of signal admissions and position
    closes. *)
Inductive reachable (b0 : float) : Bot -> Prop :=
| reach_init : reachable b0 (init b0)
| reach_admit (st : Bot) (signal : Signal) (now : Timestamp) :
    reachable b0 st -> reachable b0 (admit_signal st signal now)
| reach_close (st st' : Bot) (symbol : string) (position : Position)
    (exit_price : float) (reason : string) (pnl_pct : float)
    (now : Timestamp) :
    reachable b0 st ->
    In (symbol, position) (Dict.items (positions st)) ->
    close_position st position exit_price reason pnl_pct now = Ok st' ->
    reachable b0 st'.

(** The state [open_position] returns when it passes both checks. *)
Definition opened_state (st : Bot) (signal : Signal) (now : Timestamp)
    : Bot :=
  {| balance := balance st - sig_size signal;
     initial_balance := initial_balance st;
     positions := Dict.set (sig_symbol signal)
                    (new_position st signal now) (positions st);
     trades := trades st;
     trade_counter := S (trade_counter st);
     symbols := symbols st;
     max_position_size := max_position_size st;
     tp_percent := tp_percent st;
     sl_percent := sl_percent st;
     min_confidence := min_confidence st |}.

(** The three checks between a signal and a position: the confidence gate
    of [run], and the duplicate and balance checks of [open_position]. *)
Definition passes_checks (st : Bot) (signal : Signal) : bool :=
  (min_confidence st <=? sig_confidence signal)
  && negb (Dict.mem (sig_symbol signal) (positions st))
  && negb (balance st <? sig_size signal).

(** The trading parameters never change. *)
Definition same_parameters (st st' : Bot) : Prop :=
  initial_balance st' = initial_balance st
  /\ symbols st' = symbols st
  /\ max_position_size st' = max_position_size st
  /\ tp_percent st' = tp_percent st
  /\ sl_percent st' = sl_percent st
  /\ min_confidence st' = min_confidence st.

Definition is_liquidation (signal : Signal) : bool :=
  match sig_reason signal with
  | LargeLiquidation _ => true
  | WhaleActive _ _ => false
  end.

Definition is_whale (signal : Signal) : bool :=
  match sig_reason signal with
  | LargeLiquidation _ => false
  | WhaleActive _ _ => true
  end.


(** The two sides of the specification's data model. *)
Inductive Side : Type := BUY | SELL.

Definition side_of_string (s : string) : option Side :=
  if String.eqb s "BUY" then Some BUY
  else if String.eqb s "SELL" then Some SELL
  else None.

(** Take-profit and stop-loss prices in the words of the specification. *)
Definition spec_tp_price (side : Side) (entry tp_pct : float) : float :=
  match side with
  | BUY => entry * (1 + tp_pct / fl 100)
  | SELL => entry * (1 - tp_pct / fl 100)
  end.

Definition spec_sl_price (side : Side) (entry sl_pct : float) : float :=
  match side with
  | BUY => entry * (1 - sl_pct / fl 100)
  | SELL => entry * (1 + sl_pct / fl 100)
  end.





(* ------------------------------------------------------------------ *)
(** ** Concrete accounts, signals and quotes *)

(** A BUY signal for BTC at 50000, size 100, confidence 70. *)
Definition btc_buy_signal : Signal :=
  {| sig_symbol := "BTC";
     sig_side := "BUY";
     sig_reason := WhaleActive "T1" 2;
     sig_confidence := fl 70;
     sig_size := fl 100;
     sig_price := fl 50000 |}.

Definition quote_at (symbol : string) (price : float) : PriceQuote :=
  {| q_symbol := symbol; bid := price; ask := price; mid := price;
     spread := 0 |}.

(** The same signal with size 5. *)
Definition small_btc_signal : Signal :=
  {| sig_symbol := "BTC";
     sig_side := "BUY";
     sig_reason := WhaleActive "T1" 2;
     sig_confidence := fl 70;
     sig_size := fl 5;
     sig_price := fl 50000 |}.

(** A liquidation signal of size 0, as generated when the balance is 0. *)
Definition zero_size_signal : Signal :=
  liquidation_signal (init 0) "ETH" "SELL" (fl 60000)
    (quote_at "ETH" (fl 3000)).

(** An account of 1000 after the BTC signal was admitted. *)
Definition account_with_btc : Bot :=
  admit_signal (init (fl 1000)) btc_buy_signal "2026-01-01T00:00:00".

(** The position of [account_with_btc]. *)
Definition btc_position : Position :=
  new_position (init (fl 1000)) btc_buy_signal "2026-01-01T00:00:00".

(** Quote maps: BTC at 50310, and ETH alone. *)
Definition btc_up_prices : Dict.t PriceQuote :=
  [("BTC", quote_at "BTC" (fl 50310))].

Definition eth_only_prices : Dict.t PriceQuote :=
  [("ETH", quote_at "ETH" (fl 3000))].

Definition fixed_clock : nat -> Timestamp :=
  fun _ => "2026-01-01T00:00:30".


(** Scenario D: a sweep of 12,000 USD by trader T1 on a market. *)
Definition t1_sweep (market : string) : Sweep :=
  {| sw_trader := Some "T1";
     sw_usd_amount := Some (fl 12000);
     sw_size := Some (fl 5);
     sw_side := Some "BUY";
     sw_market := Some market |}.


(** Two large sweeps of T1 on a BTC market. *)
Definition btc_batch : list Sweep :=
  [t1_sweep "btc-usd"; t1_sweep "btc-usd"].

(* ------------------------------------------------------------------ *)
(** ** The state file, and what the further properties are stated with *)

(** The JSON document of the state file.  [load_state] reads every key with
    [state.get(key, default)], so any key may be missing. *)
Record StateFile : Type := {
  sf_balance : option float;
  sf_positions : option (Dict.t Position);
  sf_trades : option (list Trade);
  sf_trade_counter : option nat;
  sf_timestamp : option Timestamp
}.

(** What [load_state] finds at the path of the state file: nothing, a file
    that [json.load] cannot read (the exception is caught and logged before
    any attribute is assigned), or a document. *)
Inductive Disk : Type :=
| NoFile
| Unreadable
| Stored (doc : StateFile).

(** The document that [save_state] writes. *)
Definition save_state (st : Bot) (now : Timestamp) : StateFile :=
  {| sf_balance := Some (balance st);
     sf_positions := Some (positions st);
     sf_trades := Some (trades st);
     sf_trade_counter := Some (trade_counter st);
     sf_timestamp := Some now |}.

Definition load_state (st : Bot) (disk : Disk) : Bot :=
  match disk with
  | NoFile => st
  | Unreadable => st
  | Stored state =>
      {| balance := get_or (sf_balance state) (balance st);
         initial_balance := initial_balance st;
         positions := get_or (sf_positions state) Dict.empty;
         trades := get_or (sf_trades state) [];
         trade_counter := get_or (sf_trade_counter state) 0%nat;
         symbols := symbols st;
         max_position_size := max_position_size st;
         tp_percent := tp_percent st;
         sl_percent := sl_percent st;
         min_confidence := min_confidence st |}
  end.

(** [__init__]: the attributes are set, then [load_state] runs. *)
Definition construct (initial_balance : float) (disk : Disk) : Bot :=
  load_state (init initial_balance) disk.

(** [s] occurs in [t]. *)
Definition occurs (s t : string) : Prop :=
  exists before after, t = (before ++ s ++ after)%string.

(** No open position has entry price zero; no quote has mid price zero. *)
Definition entries_nonzero (st : Bot) : Prop :=
  Forall (fun item => pos_entry_price (snd item) <> 0) (positions st).

Definition quotes_nonzero (prices : Dict.t PriceQuote) : Prop :=
  Forall (fun item => mid (snd item) <> 0) prices.

(** A run of the loop of [update_positions] from state [s] over the items
    still to visit, with its result: every visited item is then an open
    position of a reachable state. *)
Inductive loop_run (b0 : float) (prices : Dict.t PriceQuote)
    (clock : nat -> Timestamp)
    : Bot -> list (string * Position) -> result Bot -> Prop :=
| loop_done (s : Bot) : loop_run b0 prices clock s [] (Ok s)
| loop_step (s s1 : Bot) (k : string) (p : Position)
    (rest : list (string * Position)) (r : result Bot) :
    reachable b0 s ->
    In (k, p) (Dict.items (positions s)) ->
    ~ In k (map fst rest) ->
    check_position prices clock s (k, p) = Ok s1 ->
    loop_run b0 prices clock s1 rest r ->
    loop_run b0 prices clock s ((k, p) :: rest) r
| loop_raise (s : Bot) (k : string) (p : Position)
    (rest : list (string * Position)) (e : exn) :
    reachable b0 s ->
    In (k, p) (Dict.items (positions s)) ->
    check_position prices clock s (k, p) = Raise e ->
    loop_run b0 prices clock s ((k, p) :: rest) (Raise e).

(** The identifiers of the open positions and of the closed trades. *)
Definition all_ids (st : Bot) : list string :=
  map pos_id (Dict.values (positions st)) ++ map tr_id (trades st).

(** The number that an identifier [POS_dddd] is written from. *)
Definition id_number (id : string) : option nat :=
  match id with
  | String "P" (String "O" (String "S" (String "_" digits))) =>
      option_map Nat.of_uint (NilEmpty.uint_of_string digits)
  | _ => None
  end.

(** The identifiers in use are written from numbers below the counter. *)
Definition ids_below (n : nat) (ids : list string) : Prop :=
  Forall (fun id => exists m, (m < n)%nat /\ id_number id = Some m) ids.

(** A signal with price zero, which [open_position] accepts, and the account
    that holds its position.  ([generate_signals] gives no such signal from
    the quotes of [get_all_prices].) *)
Definition zero_entry_signal : Signal :=
  {| sig_symbol := "BTC";
     sig_side := "BUY";
     sig_reason := WhaleActive "T1" 2;
     sig_confidence := fl 70;
     sig_size := fl 100;
     sig_price := 0 |}.

Definition account_with_zero_entry : Bot :=
  admit_signal (init (fl 1000)) zero_entry_signal "2026-01-01T00:00:00".

(** A state file that is a JSON object without any of the keys. *)
Definition empty_document : StateFile :=
  {| sf_balance := None;
     sf_positions := None;
     sf_trades := None;
     sf_trade_counter := None;
     sf_timestamp := None |}.

(** The states that the loop of [run] goes through when the bot starts
    without state file: each iteration fetches the quotes with
    [get_all_prices] and the sweeps, and returns. *)
Inductive running (b0 : float) : Bot -> Prop :=
| running_start : running b0 (init b0)
| running_cycle (st st' : Bot) (fetch : string -> option (float * float))
    (sweeps : list Sweep) (clock : nat -> Timestamp) :
    running b0 st ->
    run_cycle st (get_all_prices st fetch) sweeps clock = Ok st' ->
    running b0 st'.

(** An order book for every symbol: bid 50309, ask 50311. *)
Definition steady_book (symbol : string) : option (float * float) :=
  Some (fl 50309, fl 50311).


(* ------------------------------------------------------------------ *)
(** ** The position ledger in binary64 arithmetic *)

(** The second reading of the source's numbers: a Python float is an IEEE 754
    binary64 value, [PrimFloat.float], and every operator of the source is
    the correctly rounded operator, in the order in which the source's
    expression applies it.  The integer constants of the source that meet a
    float ([100], [150], [60], [1]) are the floats of the same value, as
    Python converts them.  Comparisons are those of IEEE 754: each of them is
    false when an operand is NaN.  The methods below are the ones that move
    money: [open_position], [close_position] and [update_positions], with
    the confidence gate of [run]. *)
Module Float64.

Local Open Scope float_scope.

Abbreviation f64 := PrimFloat.float (only parsing).

(** Float division [x / y]: Python raises when the divisor is a zero of
    either sign. *)
Definition py_div (x y : f64) : result f64 :=
  if y =? 0 then Raise ZeroDivisionError else Ok (x / y).

Inductive Reason : Type :=
| LargeLiquidation (usd_amount : f64)
| WhaleActive (trader_prefix : string) (n_trades : nat).

Record PriceQuote : Type := {
  q_symbol : string;
  bid : f64;
  ask : f64;
  mid : f64;
  spread : f64
}.

Record Signal : Type := {
  sig_symbol : string;
  sig_side : string;
  sig_reason : Reason;
  sig_confidence : f64;
  sig_size : f64;
  sig_price : f64
}.

Record Position : Type := {
  pos_id : string;
  pos_symbol : string;
  pos_side : string;
  pos_entry_price : f64;
  pos_size : f64;
  pos_tp_price : f64;
  pos_sl_price : f64;
  pos_confidence : f64;
  pos_reason : Reason;
  pos_opened_at : Timestamp
}.

Record Trade : Type := {
  tr_id : string;
  tr_symbol : string;
  tr_side : string;
  tr_entry_price : f64;
  tr_exit_price : f64;
  tr_size : f64;
  tr_pnl_pct : f64;
  tr_pnl_amount : f64;
  tr_reason : string;
  tr_opened_at : Timestamp;
  tr_closed_at : Timestamp
}.

Record Bot : Type := {
  balance : f64;
  initial_balance : f64;
  positions : Dict.t Position;
  trades : list Trade;
  trade_counter : nat;
  symbols : list string;
  max_position_size : f64;
  tp_percent : f64;
  sl_percent : f64;
  min_confidence : f64
}.

(** [__init__], when [load_state] finds no state file. *)
Definition init (initial_balance : f64) : Bot := {|
  balance := initial_balance;
  initial_balance := initial_balance;
  positions := Dict.empty;
  trades := [];
  trade_counter := 0;
  symbols := ["BTC"; "ETH"; "SOL"];
  max_position_size := 150;
  tp_percent := 0.6;
  sl_percent := 3.0;
  min_confidence := 60
|}.

(** The position that [open_position] builds for a signal. *)
Definition new_position (st : Bot) (signal : Signal) (now : Timestamp)
    : Position :=
  let entry_price := sig_price signal in
  let tp_price :=
    if String.eqb (sig_side signal) "BUY"
    then entry_price * (1 + tp_percent st / 100)
    else entry_price * (1 - tp_percent st / 100) in
  let sl_price :=
    if String.eqb (sig_side signal) "BUY"
    then entry_price * (1 - sl_percent st / 100)
    else entry_price * (1 + sl_percent st / 100) in
  {| pos_id := ("POS_" ++ format_04d (trade_counter st))%string;
     pos_symbol := sig_symbol signal;
     pos_side := sig_side signal;
     pos_entry_price := entry_price;
     pos_size := sig_size signal;
     pos_tp_price := tp_price;
     pos_sl_price := sl_price;
     pos_confidence := sig_confidence signal;
     pos_reason := sig_reason signal;
     pos_opened_at := now |}.

(** [open_position]; [size > self.balance] is [balance < size]. *)
Definition open_position (st : Bot) (signal : Signal) (now : Timestamp)
    : Bot :=
  let symbol := sig_symbol signal in
  if Dict.mem symbol (positions st) then st else
  let size := sig_size signal in
  if balance st <? size then st else
  let position := new_position st signal now in
  {| balance := balance st - size;
     initial_balance := initial_balance st;
     positions := Dict.set symbol position (positions st);
     trades := trades st;
     trade_counter := S (trade_counter st);
     symbols := symbols st;
     max_position_size := max_position_size st;
     tp_percent := tp_percent st;
     sl_percent := sl_percent st;
     min_confidence := min_confidence st |}.

(** Step 4 of [run] for one signal: the confidence gate
    [signal['confidence'] >= self.min_confidence], then [open_position]. *)
Definition admit_signal (st : Bot) (signal : Signal) (now : Timestamp)
    : Bot :=
  if min_confidence st <=? sig_confidence signal
  then open_position st signal now
  else st.

(** The trade record that [close_position] appends. *)
Definition new_trade (position : Position) (exit_price : f64)
    (reason : string) (pnl_pct : f64) (now : Timestamp) : Trade :=
  let size := pos_size position in
  let pnl_amount := size * (pnl_pct / 100) in
  {| tr_id := pos_id position;
     tr_symbol := pos_symbol position;
     tr_side := pos_side position;
     tr_entry_price := pos_entry_price position;
     tr_exit_price := exit_price;
     tr_size := size;
     tr_pnl_pct := pnl_pct;
     tr_pnl_amount := pnl_amount;
     tr_reason := reason;
     tr_opened_at := pos_opened_at position;
     tr_closed_at := now |}.

(** [close_position]: [pnl_amount = size * (pnl_pct / 100)], then
    [self.balance += size + pnl_amount]. *)
Definition close_position (st : Bot) (position : Position)
    (exit_price : f64) (reason : string) (pnl_pct : f64)
    (now : Timestamp) : result Bot :=
  let symbol := pos_symbol position in
  let size := pos_size position in
  let pnl_amount := size * (pnl_pct / 100) in
  let trade := new_trade position exit_price reason pnl_pct now in
  if Dict.mem symbol (positions st) then
    Ok {| balance := balance st + (size + pnl_amount);
          initial_balance := initial_balance st;
          positions := Dict.del symbol (positions st);
          trades := trades st ++ [trade];
          trade_counter := trade_counter st;
          symbols := symbols st;
          max_position_size := max_position_size st;
          tp_percent := tp_percent st;
          sl_percent := sl_percent st;
          min_confidence := min_confidence st |}
  else Raise KeyError.

(** The percentage P&L that [update_positions] computes:
    [((current_price - entry_price) / entry_price) * 100] for ['BUY'] and
    [((entry_price - current_price) / entry_price) * 100] otherwise. *)
Definition pnl_pct_of (position : Position) (current_price : f64)
    : result f64 :=
  let entry_price := pos_entry_price position in
  if String.eqb (pos_side position) "BUY"
  then r <- py_div (current_price - entry_price) entry_price ;;
       Ok (r * 100)
  else r <- py_div (entry_price - current_price) entry_price ;;
       Ok (r * 100).

Definition clock_reads (st : Bot) : nat :=
  (trade_counter st + List.length (trades st))%nat.

(** One iteration of the loop of [update_positions]:
    [pnl_pct >= self.tp_percent], then [pnl_pct <= -self.sl_percent]. *)
Definition check_position (prices : Dict.t PriceQuote)
    (clock : nat -> Timestamp) (st : Bot) (item : string * Position)
    : result Bot :=
  let (symbol, position) := item in
  match Dict.get symbol prices with
  | None => Ok st
  | Some quote =>
      let current_price := mid quote in
      pnl_pct <- pnl_pct_of position current_price ;;
      if tp_percent st <=? pnl_pct then
        close_position st position current_price "TAKE_PROFIT" pnl_pct
          (clock (clock_reads st))
      else if pnl_pct <=? - sl_percent st then
        close_position st position current_price "STOP_LOSS" pnl_pct
          (clock (clock_reads st))
      else Ok st
  end.

(** [update_positions]: the loop runs over a copy of the items taken before
    the first iteration. *)
Definition update_positions (st : Bot) (prices : Dict.t PriceQuote)
    (clock : nat -> Timestamp) : result Bot :=
  for_each (check_position prices clock) (Dict.items (positions st)) st.

(** *** What the properties are stated with *)

(** A signal is admitted when step 4 of [run] opens a position for it. *)
Definition admitted (st : Bot) (signal : Signal) (now : Timestamp) : bool :=
  negb (Dict.mem (sig_symbol signal) (positions st))
  && Dict.mem (sig_symbol signal) (positions (admit_signal st signal now)).

(** Every position is stored under its own symbol, and no key occurs twice. *)
Definition positions_wf (d : Dict.t Position) : Prop :=
  NoDup (Dict.keys d) /\ Forall (fun item => pos_symbol (snd item) = fst item) d.

(** The states of an account that starts without positions and trades, with
    balance [b0], after any sequence of signal admissions and position
    closes. *)
Inductive reachable (b0 : f64) : Bot -> Prop :=
| reach_init : reachable b0 (init b0)
| reach_admit (st : Bot) (signal : Signal) (now : Timestamp) :
    reachable b0 st -> reachable b0 (admit_signal st signal now)
| reach_close (st st' : Bot) (symbol : string) (position : Position)
    (exit_price : f64) (reason : string) (pnl_pct : f64)
    (now : Timestamp) :
    reachable b0 st ->
    In (symbol, position) (Dict.items (positions st)) ->
    close_position st position exit_price reason pnl_pct now = Ok st' ->
    reachable b0 st'.

(** The specification's formulas, operator by operator as they are written:
    [(current - entry) / entry * 100] and its mirror image. *)
Definition spec_pnl_pct (side : Side) (entry current : f64) : f64 :=
  match side with
  | BUY => (current - entry) / entry * 100
  | SELL => (entry - current) / entry * 100
  end.

(** [pnlUsd = sizeUsd * pnlPct / 100], read as Python reads it: the product
    first, then the division. *)
Definition spec_pnl_usd (size pnl_pct : f64) : f64 := size * pnl_pct / 100.

(** [balance_before_close + position.sizeUsd + pnlUsd], from left to
    right. *)
Definition spec_balance_after_close (balance size pnl_pct : f64) : f64 :=
  balance + size + spec_pnl_usd size pnl_pct.

(** The close decision in the words of the specification: TAKE_PROFIT when
    the P&L is at least [tp]; otherwise STOP_LOSS when it is at most
    [- sl]; otherwise the position stays open. *)
Inductive Verdict : Type := TakeProfit | StopLoss | Hold.

Definition decision (tp sl pnl_pct : f64) : Verdict :=
  if tp <=? pnl_pct then TakeProfit
  else if pnl_pct <=? - sl then StopLoss
  else Hold.

Definition reason_of (v : Verdict) : string :=
  match v with
  | TakeProfit => "TAKE_PROFIT"
  | StopLoss => "STOP_LOSS"
  | Hold => ""
  end.

(** The verdict on an open position under a quote map: [None] when the
    evaluation raises, [Hold] when the symbol has no quote. *)
Definition verdict_of (tp sl : f64) (prices : Dict.t PriceQuote)
    (item : string * Position) : option Verdict :=
  match Dict.get (fst item) prices with
  | None => Some Hold
  | Some quote =>
      match pnl_pct_of (snd item) (mid quote) with
      | Ok pnl_pct => Some (decision tp sl pnl_pct)
      | Raise _ => None
      end
  end.

Definition holds (tp sl : f64) (prices : Dict.t PriceQuote)
    (item : string * Position) : bool :=
  match verdict_of tp sl prices item with
  | Some Hold => true
  | _ => false
  end.

Definition closes (tp sl : f64) (prices : Dict.t PriceQuote)
    (item : string * Position) : bool :=
  match verdict_of tp sl prices item with
  | Some TakeProfit | Some StopLoss => true
  | _ => false
  end.

(** An open position is held under a quote map: its symbol has no quote, or
    its P&L passes neither comparison of [update_positions] (as a P&L that is
    NaN does). *)
Definition held (tp sl : f64) (prices : Dict.t PriceQuote)
    (item : string * Position) : Prop :=
  Dict.get (fst item) prices = None
  \/ exists quote pnl_pct,
       Dict.get (fst item) prices = Some quote
       /\ pnl_pct_of (snd item) (mid quote) = Ok pnl_pct
       /\ (tp <=? pnl_pct) = false
       /\ (pnl_pct <=? - sl) = false.

(** [trade] is the record of closing [item] under [prices]: the position's
    fields copied, the quote's mid price as exit price, the P&L that the
    evaluation computed, its amount, and the reason of the verdict. *)
Definition records (tp sl : f64) (prices : Dict.t PriceQuote)
    (item : string * Position) (trade : Trade) : Prop :=
  let (symbol, position) := item in
  exists quote pnl_pct now,
    Dict.get symbol prices = Some quote
    /\ pnl_pct_of position (mid quote) = Ok pnl_pct
    /\ decision tp sl pnl_pct <> Hold
    /\ trade = new_trade position (mid quote)
                 (reason_of (decision tp sl pnl_pct)) pnl_pct now.

(** The position of [symbol] was closed by a run that appended the trades
    [closed] and returned [st']: the symbol is open no more, and one of the
    trades is for it, with the given reason and percentage P&L. *)
Definition closed_as (reason : string) (symbol : string) (pnl_pct : f64)
    (st' : Bot) (closed : list Trade) : Prop :=
  Dict.get symbol (positions st') = None
  /\ exists trade,
       In trade closed
       /\ tr_symbol trade = symbol
       /\ tr_reason trade = reason
       /\ tr_pnl_pct trade = pnl_pct.

(** The position is still open after the run, and no trade was appended for
    its symbol. *)
Definition still_open (symbol : string) (position : Position)
    (st' : Bot) (closed : list Trade) : Prop :=
  Dict.get symbol (positions st') = Some position
  /\ forall trade, In trade closed -> tr_symbol trade <> symbol.

(** The balance after crediting the closed trades in order: each credit is
    [balance + (size + pnl_amount)]. *)
Definition credited (balance : f64) (closed : list Trade) : f64 :=
  fold_left (fun b t => b + (tr_size t + tr_pnl_amount t)) closed balance.

(** The sizes held in escrow by the open positions, the P&L credited by the
    closed trades, and the quantity of the escrow invariant, each summed from
    left to right. *)
Definition sum (xs : list f64) : f64 := fold_left PrimFloat.add xs 0.

Definition escrowed (st : Bot) : f64 :=
  sum (map pos_size (Dict.values (positions st))).

Definition realized (st : Bot) : f64 :=
  sum (map tr_pnl_amount (trades st)).

Definition capital (st : Bot) : f64 :=
  balance st + escrowed st - realized st.

(** The ledger of an account: the sizes escrowed by the admissions and the
    sizes and P&L released by the closes, in the order in which they
    happened. *)
Inductive Event : Type :=
| Escrow (size : f64)
| Release (size pnl_amount : f64).

(** What an event does to the balance: [balance - size] for an admission,
    [balance + (size + pnl_amount)] for a close. *)
Definition post (balance : f64) (event : Event) : f64 :=
  match event with
  | Escrow size => balance - size
  | Release size pnl_amount => balance + (size + pnl_amount)
  end.

Definition replay (b0 : f64) (events : list Event) : f64 :=
  fold_left post events b0.

Definition escrowed_sizes (events : list Event) : list f64 :=
  flat_map (fun event => match event with
                         | Escrow size => [size]
                         | Release _ _ => []
                         end) events.

Definition released_sizes (events : list Event) : list f64 :=
  flat_map (fun event => match event with
                         | Escrow _ => []
                         | Release size _ => [size]
                         end) events.

Definition released_pnl (events : list Event) : list f64 :=
  flat_map (fun event => match event with
                         | Escrow _ => []
                         | Release _ pnl_amount => [pnl_amount]
                         end) events.

(** The balance, the amounts of the recorded P&L and the capital that a
    method call leaves, when it returns. *)
Definition balance_of (r : result Bot) : option f64 :=
  match r with
  | Ok st => Some (balance st)
  | Raise _ => None
  end.

Definition pnl_amounts_of (r : result Bot) : list f64 :=
  match r with
  | Ok st => map tr_pnl_amount (trades st)
  | Raise _ => []
  end.

Definition capital_of (r : result Bot) : option f64 :=
  match r with
  | Ok st => Some (capital st)
  | Raise _ => None
  end.

(** *** An account for the examples *)

Definition quote_at (symbol : string) (price : f64) : PriceQuote :=
  {| q_symbol := symbol; bid := price; ask := price; mid := price;
     spread := 0 |}.

(** A whale signal of 150 USD on BTC at 50,000, and one of 100 USD on ETH at
    100. *)
Definition btc_signal : Signal :=
  {| sig_symbol := "BTC"; sig_side := "BUY";
     sig_reason := WhaleActive "0xabc" 2;
     sig_confidence := 75; sig_size := 150; sig_price := 50000 |}.

Definition eth_signal : Signal :=
  {| sig_symbol := "ETH"; sig_side := "BUY";
     sig_reason := WhaleActive "0xabc" 2;
     sig_confidence := 75; sig_size := 100; sig_price := 100.0 |}.

(** The account of 1000 USD after admitting the BTC signal, and after
    admitting both. *)
Definition account_with_btc : Bot :=
  admit_signal (init 1000.0) btc_signal "t0".

Definition account_with_both : Bot :=
  admit_signal account_with_btc eth_signal "t1".

Definition btc_position : Position :=
  new_position (init 1000.0) btc_signal "t0".

Definition eth_position : Position :=
  new_position account_with_btc eth_signal "t1".

(** BTC quoted at 50,310, which is 0.62 % above the entry price, and ETH at
    100.6, the stored take-profit price of the ETH position. *)
Definition prices_up : Dict.t PriceQuote :=
  [("BTC", quote_at "BTC" 50310); ("ETH", quote_at "ETH" 100.6)].

Definition clock_of_examples : nat -> Timestamp := fun _ => "t2".

End Float64.

(* ------------------------------------------------------------------ *)
(** ** Numbers *)

Section Numbers.

Lemma leb_le (x y : float) : (x <=? y) = true <-> x <= y.
Proof. unfold leb, Qcle. apply Qle_bool_iff. Qed.

Lemma leb_gt (x y : float) : (x <=? y) = false <-> y < x.
Proof.
  unfold leb, Qclt. split; intros H.
  - apply Qnot_le_lt. intros Hle. apply Qle_bool_iff in Hle. congruence.
  - destruct (Qle_bool x y) eqn:E; [|reflexivity].
    apply Qle_bool_iff in E. exfalso. exact (Qlt_not_le _ _ H E).
Qed.

Lemma ltb_lt (x y : float) : (x <? y) = true <-> x < y.
Proof.
  unfold ltb. rewrite negb_true_iff. apply leb_gt.
Qed.

Lemma ltb_ge (x y : float) : (x <? y) = false <-> y <= x.
Proof.
  unfold ltb. rewrite negb_false_iff. apply leb_le.
Qed.

Lemma eqb_eq (x y : float) : eqb x y = true <-> x = y.
Proof.
  unfold eqb. split; intros H.
  - apply Qc_is_canon. apply Qeq_bool_iff. exact H.
  - subst. apply Qeq_bool_iff. reflexivity.
Qed.

Lemma eqb_neq (x y : float) : eqb x y = false <-> x <> y.
Proof.
  split; intros H.
  - intros E. apply eqb_eq in E. congruence.
  - destruct (eqb x y) eqn:E; [|reflexivity].
    apply eqb_eq in E. contradiction.
Qed.

Lemma leb_refl (x : float) : (x <=? x) = true.
Proof. apply leb_le. apply Qcle_refl. Qed.

Lemma ltb_irrefl (x : float) : (x <? x) = false.
Proof. apply ltb_ge. apply Qcle_refl. Qed.

Lemma py_div_ok (x y : float) : y <> 0 -> py_div x y = Ok (x / y).
Proof.
  intros H. unfold py_div. apply eqb_neq in H. rewrite H. reflexivity.
Qed.

Lemma py_div_zero (x : float) : py_div x 0 = Raise ZeroDivisionError.
Proof. reflexivity. Qed.

(** [min2] is the smaller of its arguments. *)
Lemma min2_le_l (m x : float) : min2 m x <= m.
Proof.
  unfold min2. destruct (x <? m) eqn:E.
  - apply ltb_lt in E. apply Qclt_le_weak. exact E.
  - apply Qcle_refl.
Qed.

Lemma min2_le_r (m x : float) : min2 m x <= x.
Proof.
  unfold min2. destruct (x <? m) eqn:E.
  - apply Qcle_refl.
  - apply ltb_ge in E. exact E.
Qed.

Lemma min2_cases (m x : float) : min2 m x = m \/ min2 m x = x.
Proof. unfold min2. destruct (x <? m); auto. Qed.

End Numbers.

(** Closes a goal [x = y] between closed rationals. *)
Ltac qc_compute := apply Qc_is_canon; vm_compute; reflexivity.


(* ------------------------------------------------------------------ *)
(** ** Dicts *)

Module DictFacts.
Import Dict.

Section WithValues.
Context {V : Type}.
Implicit Types (d : t V) (k : string) (v : V).

Lemma mem_get k d : mem k d = true <-> exists v, get k d = Some v.
Proof.
  unfold mem. destruct (get k d).
  - split; eauto.
  - split; [discriminate | intros [v H]; discriminate].
Qed.

Lemma not_mem_get k d : mem k d = false <-> get k d = None.
Proof.
  unfold mem. destruct (get k d); split; congruence.
Qed.

Lemma mem_keys k d : mem k d = true <-> In k (keys d).
Proof.
  unfold mem. induction d as [|[k' v'] d IH]; simpl.
  - split; [discriminate | tauto].
  - destruct (String.eqb_spec k k') as [->|Hne].
    + split; auto.
    + rewrite IH. split; [tauto | intros [E|H]; congruence].
Qed.

Lemma get_in k v d : get k d = Some v -> In (k, v) d.
Proof.
  induction d as [|[k' v'] d IH]; simpl; [discriminate|].
  destruct (String.eqb_spec k k') as [->|Hne].
  - intros [= ->]. auto.
  - auto.
Qed.

Lemma in_get k v d : NoDup (keys d) -> In (k, v) d -> get k d = Some v.
Proof.
  induction d as [|[k' v'] d IH]; simpl; [tauto|].
  intros Hnd [E|Hin].
  - injection E as -> ->. rewrite String.eqb_refl. reflexivity.
  - inversion Hnd as [|? ? Hnotin Hnd']; subst.
    destruct (String.eqb_spec k k') as [->|Hne].
    + exfalso. apply Hnotin. apply (in_map fst) in Hin. exact Hin.
    + auto.
Qed.

Lemma get_set_same k v d : get k (set k v d) = Some v.
Proof.
  induction d as [|[k' v'] d IH]; simpl.
  - rewrite String.eqb_refl. reflexivity.
  - destruct (String.eqb_spec k k') as [->|Hne]; simpl.
    + rewrite String.eqb_refl. reflexivity.
    + apply String.eqb_neq in Hne. rewrite Hne. exact IH.
Qed.

Lemma get_set_other k k' v d : k' <> k -> get k' (set k v d) = get k' d.
Proof.
  intros Hne. induction d as [|[k0 v0] d IH]; simpl.
  - apply String.eqb_neq in Hne. rewrite Hne. reflexivity.
  - destruct (String.eqb_spec k k0) as [->|Hne0]; simpl.
    + apply String.eqb_neq in Hne. rewrite Hne. reflexivity.
    + rewrite IH. reflexivity.
Qed.

Lemma set_absent k v d : mem k d = false -> set k v d = d ++ [(k, v)].
Proof.
  unfold mem. induction d as [|[k' v'] d IH]; simpl; [reflexivity|].
  destruct (String.eqb k k'); [discriminate|].
  intros H. rewrite (IH H). reflexivity.
Qed.

Lemma get_del_other k k' d : k' <> k -> get k' (del k d) = get k' d.
Proof.
  intros Hne. induction d as [|[k0 v0] d IH]; simpl; [reflexivity|].
  destruct (String.eqb_spec k k0) as [->|Hne0]; simpl.
  - apply String.eqb_neq in Hne. rewrite Hne. reflexivity.
  - rewrite IH. reflexivity.
Qed.

Lemma keys_del_incl k k' d : In k' (keys (del k d)) -> In k' (keys d).
Proof.
  induction d as [|[k0 v0] d IH]; simpl; [tauto|].
  destruct (String.eqb k k0); simpl; tauto.
Qed.

Lemma nodup_del k d : NoDup (keys d) -> NoDup (keys (del k d)).
Proof.
  induction d as [|[k0 v0] d IH]; simpl; [auto|].
  intros Hnd. inversion Hnd as [|? ? Hnotin Hnd']; subst.
  destruct (String.eqb k k0); simpl; [exact Hnd'|].
  constructor; [|auto].
  intros Hin. apply Hnotin. exact (keys_del_incl _ _ _ Hin).
Qed.

Lemma get_del_same k d : NoDup (keys d) -> get k (del k d) = None.
Proof.
  induction d as [|[k0 v0] d IH]; simpl; [reflexivity|].
  intros Hnd. inversion Hnd as [|? ? Hnotin Hnd']; subst.
  destruct (String.eqb_spec k k0) as [->|Hne]; simpl.
  - apply not_mem_get. destruct (mem k0 d) eqn:E; [|reflexivity].
    apply mem_keys in E. contradiction.
  - apply String.eqb_neq in Hne. rewrite Hne. auto.
Qed.

Lemma in_del k k' v d : k' <> k -> In (k', v) d -> In (k', v) (del k d).
Proof.
  intros Hne. induction d as [|[k0 v0] d IH]; simpl; [tauto|].
  destruct (String.eqb_spec k k0) as [->|Hne0]; simpl.
  - intros [E|H]; [congruence | exact H].
  - tauto.
Qed.

Lemma in_del_inv k item d : In item (del k d) -> In item d.
Proof.
  induction d as [|[k0 v0] d IH]; simpl; [tauto|].
  destruct (String.eqb k k0); simpl; tauto.
Qed.

Lemma keys_set_absent k v d :
  mem k d = false -> keys (set k v d) = keys d ++ [k].
Proof.
  intros H. rewrite (set_absent _ _ _ H). unfold keys.
  rewrite map_app. reflexivity.
Qed.

Lemma nodup_set_absent k v d :
  mem k d = false -> NoDup (keys d) -> NoDup (keys (set k v d)).
Proof.
  intros Hmem Hnd. rewrite (keys_set_absent _ _ _ Hmem).
  apply NoDup_app; [exact Hnd | repeat constructor; simpl; tauto |].
  intros k' Hin [<-|[]].
  apply mem_keys in Hin. congruence.
Qed.

End WithValues.
End DictFacts.

(* ------------------------------------------------------------------ *)
(** ** Opening and closing, one step at a time *)

Section Steps.
Import DictFacts.

Lemma admit_signal_cases (st : Bot) (signal : Signal) (now : Timestamp) :
  admit_signal st signal now =
  if passes_checks st signal then opened_state st signal now else st.
Proof.
  unfold admit_signal, open_position, passes_checks, opened_state.
  destruct (min_confidence st <=? sig_confidence signal); simpl;
    [|reflexivity].
  destruct (Dict.mem (sig_symbol signal) (positions st)); simpl;
    [reflexivity|].
  destruct (balance st <? sig_size signal); reflexivity.
Qed.

Lemma opened_state_neq (st : Bot) (signal : Signal) (now : Timestamp) :
  opened_state st signal now <> st.
Proof.
  intros H. apply (f_equal trade_counter) in H. simpl in H. lia.
Qed.

Lemma admitted_iff_passes (st : Bot) (signal : Signal) (now : Timestamp) :
  admitted st signal now = passes_checks st signal.
Proof.
  unfold admitted, opens. rewrite admit_signal_cases.
  destruct (passes_checks st signal) eqn:E.
  - unfold passes_checks in E.
    apply andb_true_iff in E as [E _]. apply andb_true_iff in E as [_ E].
    rewrite E. simpl. apply mem_get. eexists. apply get_set_same.
  - destruct (Dict.mem (sig_symbol signal) (positions st)); reflexivity.
Qed.

Lemma close_position_ok (st st' : Bot) (position : Position)
    (exit_price : float) (reason : string) (pnl_pct : float)
    (now : Timestamp) :
  close_position st position exit_price reason pnl_pct now = Ok st' ->
  Dict.mem (pos_symbol position) (positions st) = true
  /\ balance st' =
     balance st + (pos_size position + pos_size position * (pnl_pct / fl 100))
  /\ positions st' = Dict.del (pos_symbol position) (positions st)
  /\ trades st' =
     trades st ++ [new_trade position exit_price reason pnl_pct now]
  /\ trade_counter st' = trade_counter st
  /\ initial_balance st' = initial_balance st
  /\ symbols st' = symbols st
  /\ max_position_size st' = max_position_size st
  /\ tp_percent st' = tp_percent st
  /\ sl_percent st' = sl_percent st
  /\ min_confidence st' = min_confidence st.
Proof.
  unfold close_position.
  destruct (Dict.mem (pos_symbol position) (positions st));
    [|discriminate].
  intros [= <-]. simpl. repeat split; reflexivity.
Qed.

Lemma close_position_total (st : Bot) (position : Position)
    (exit_price : float) (reason : string) (pnl_pct : float)
    (now : Timestamp) :
  Dict.mem (pos_symbol position) (positions st) = true ->
  exists st',
    close_position st position exit_price reason pnl_pct now = Ok st'.
Proof.
  intros H. unfold close_position. rewrite H. eexists. reflexivity.
Qed.

Lemma close_position_key_error (st : Bot) (position : Position)
    (exit_price : float) (reason : string) (pnl_pct : float)
    (now : Timestamp) :
  Dict.mem (pos_symbol position) (positions st) = false ->
  close_position st position exit_price reason pnl_pct now = Raise KeyError.
Proof.
  intros H. unfold close_position. rewrite H. reflexivity.
Qed.

(** Well-formedness of the position dict is kept by both steps. *)
Lemma wf_empty : positions_wf Dict.empty.
Proof. split; constructor. Qed.

Lemma wf_opened (st : Bot) (signal : Signal) (now : Timestamp) :
  Dict.mem (sig_symbol signal) (positions st) = false ->
  positions_wf (positions st) ->
  positions_wf (positions (opened_state st signal now)).
Proof.
  intros Hmem [Hnd Hsym]. simpl. split.
  - apply nodup_set_absent; assumption.
  - rewrite (set_absent _ _ _ Hmem). apply Forall_app. split; [exact Hsym|].
    constructor; [reflexivity | constructor].
Qed.

Lemma wf_del (k : string) (d : Dict.t Position) :
  positions_wf d -> positions_wf (Dict.del k d).
Proof.
  intros [Hnd Hsym]. split.
  - apply nodup_del. exact Hnd.
  - rewrite Forall_forall in *. intros item Hin.
    apply Hsym. exact (in_del_inv _ _ _ Hin).
Qed.

Lemma wf_admit (st : Bot) (signal : Signal) (now : Timestamp) :
  positions_wf (positions st) ->
  positions_wf (positions (admit_signal st signal now)).
Proof.
  intros Hwf. rewrite admit_signal_cases.
  destruct (passes_checks st signal) eqn:E; [|exact Hwf].
  apply wf_opened; [|exact Hwf].
  unfold passes_checks in E.
  apply andb_true_iff in E as [E _]. apply andb_true_iff in E as [_ E].
  apply negb_true_iff in E. exact E.
Qed.

Lemma wf_symbol (d : Dict.t Position) (k : string) (p : Position) :
  positions_wf d -> In (k, p) d -> pos_symbol p = k.
Proof.
  intros [_ Hsym] Hin. rewrite Forall_forall in Hsym.
  exact (Hsym _ Hin).
Qed.

Lemma wf_get (d : Dict.t Position) (k : string) (p : Position) :
  positions_wf d -> In (k, p) d -> Dict.get (pos_symbol p) d = Some p.
Proof.
  intros Hwf Hin. rewrite (wf_symbol _ _ _ Hwf Hin).
  destruct Hwf as [Hnd _]. apply in_get; assumption.
Qed.

Lemma reachable_wf (b0 : float) (st : Bot) :
  reachable b0 st -> positions_wf (positions st).
Proof.
  induction 1 as [|st signal now _ IH|st st' symbol position exit_price
                   reason pnl_pct now _ IH _ Hclose].
  - apply wf_empty.
  - apply wf_admit. exact IH.
  - apply close_position_ok in Hclose.
    destruct Hclose as (_ & _ & -> & _). apply wf_del. exact IH.
Qed.

Lemma reachable_parameters (b0 : float) (st : Bot) :
  reachable b0 st -> same_parameters (init b0) st.
Proof.
  induction 1 as [|st signal now _ IH|st st' symbol position exit_price
                   reason pnl_pct now _ IH _ Hclose].
  - repeat split.
  - rewrite admit_signal_cases.
    destruct (passes_checks st signal); exact IH.
  - apply close_position_ok in Hclose.
    destruct Hclose as (_ & _ & _ & _ & _ & E1 & E2 & E3 & E4 & E5 & E6).
    destruct IH as (I1 & I2 & I3 & I4 & I5 & I6).
    unfold same_parameters. rewrite E1, E2, E3, E4, E5, E6. tauto.
Qed.

End Steps.

(* ------------------------------------------------------------------ *)
(** ** One open position per symbol *)

Section OnePerSymbol.
Import DictFacts.

Lemma wf_no_key_no_position (d : Dict.t Position) (symbol : string) :
  positions_wf d -> ~ In symbol (Dict.keys d) ->
  filter (fun p => String.eqb (pos_symbol p) symbol) (Dict.values d) = [].
Proof.
  intros [_ Hsym] Hnotin. induction d as [|[k p] d IH]; [reflexivity|].
  simpl in *. inversion Hsym as [|? ? Hk Hsym']; subst. simpl in Hk.
  destruct (String.eqb_spec (pos_symbol p) symbol) as [E|_].
  - exfalso. apply Hnotin. left. congruence.
  - apply IH; [exact Hsym' | tauto].
Qed.

Lemma wf_at_most_one (d : Dict.t Position) (symbol : string) :
  positions_wf d ->
  (List.length
     (filter (fun p => String.eqb (pos_symbol p) symbol) (Dict.values d))
   <= 1)%nat.
Proof.
  intros Hwf. induction d as [|[k p] d IH]; [simpl; lia|].
  destruct Hwf as [Hnd Hsym].
  inversion Hnd as [|? ? Hnotin Hnd']; subst.
  inversion Hsym as [|? ? Hk Hsym']; subst. simpl in Hk. simpl.
  destruct (String.eqb_spec (pos_symbol p) symbol) as [E|_].
  - rewrite wf_no_key_no_position; [simpl; lia | split; assumption |].
    rewrite <- E, Hk. exact Hnotin.
  - apply IH. split; assumption.
Qed.

Lemma admit_duplicate (st : Bot) (signal : Signal) (now : Timestamp) :
  Dict.mem (sig_symbol signal) (positions st) = true ->
  admit_signal st signal now = st.
Proof.
  intros H. rewrite admit_signal_cases. unfold passes_checks.
  rewrite H, andb_false_r. reflexivity.
Qed.

Lemma close_open_position (st : Bot) (symbol : string) (position : Position)
    (exit_price : float) (reason : string) (pnl_pct : float)
    (now : Timestamp) :
  positions_wf (positions st) ->
  In (symbol, position) (Dict.items (positions st)) ->
  exists st',
    close_position st position exit_price reason pnl_pct now = Ok st'
    /\ positions st' = Dict.del symbol (positions st).
Proof.
  intros Hwf Hin.
  pose proof (wf_symbol _ _ _ Hwf Hin) as Hsym.
  destruct (close_position_total st position exit_price reason pnl_pct now)
    as [st' Hclose].
  - apply mem_get. exists position. exact (wf_get _ _ _ Hwf Hin).
  - exists st'. split; [exact Hclose|].
    apply close_position_ok in Hclose.
    destruct Hclose as (_ & _ & -> & _). rewrite Hsym. reflexivity.
Qed.

End OnePerSymbol.

(** C1.  In every state reached from an account without positions by signal
    admissions and position closes, a symbol has at most one open position
    (no key of the position dict occurs twice, and at most one stored
    position carries the symbol); admitting a signal for a symbol that has an
    open position returns the state unchanged; closing an open position
    succeeds, leaves its symbol without a position and leaves the position
    of every other symbol as it was. *)
Theorem one_position_per_symbol (b0 : float) (st : Bot) :
  reachable b0 st ->
  (forall symbol, (List.length (open_positions_of st symbol) <= 1)%nat)
  /\ NoDup (Dict.keys (positions st))
  /\ (forall signal now,
        Dict.mem (sig_symbol signal) (positions st) = true ->
        admit_signal st signal now = st)
  /\ (forall symbol position exit_price reason pnl_pct now,
        In (symbol, position) (Dict.items (positions st)) ->
        exists st',
          close_position st position exit_price reason pnl_pct now = Ok st'
          /\ Dict.get symbol (positions st') = None
          /\ open_positions_of st' symbol = []
          /\ forall other, other <> symbol ->
               Dict.get other (positions st') = Dict.get other (positions st)).
Proof.
  intros Hreach. pose proof (reachable_wf _ _ Hreach) as Hwf.
  split; [|split; [|split]].
  - intros symbol. apply wf_at_most_one. exact Hwf.
  - exact (proj1 Hwf).
  - intros signal now. apply admit_duplicate.
  - intros symbol position exit_price reason pnl_pct now Hin.
    destruct (close_open_position st symbol position exit_price reason
                pnl_pct now Hwf Hin) as (st' & Hclose & Hpos).
    exists st'. split; [exact Hclose|]. rewrite Hpos.
    assert (Hnone : Dict.get symbol (Dict.del symbol (positions st)) = None)
      by (apply DictFacts.get_del_same; exact (proj1 Hwf)).
    split; [exact Hnone|]. split.
    + unfold open_positions_of. rewrite Hpos.
      apply wf_no_key_no_position; [apply wf_del; exact Hwf|].
      intros Hkey. apply DictFacts.mem_keys in Hkey.
      apply DictFacts.not_mem_get in Hnone. congruence.
    + intros other Hother. apply DictFacts.get_del_other. exact Hother.
Qed.

Lemma account_with_btc_reachable : reachable (fl 1000) account_with_btc.
Proof. apply reach_admit. apply reach_init. Qed.

Lemma one_position_per_symbol_witness :
  reachable (fl 1000) account_with_btc
  /\ (List.length (open_positions_of account_with_btc "BTC") <= 1)%nat
  /\ admit_signal account_with_btc btc_buy_signal "later" = account_with_btc.
Proof.
  split; [exact account_with_btc_reachable|].
  destruct (one_position_per_symbol (fl 1000) account_with_btc
              account_with_btc_reachable) as (Hone & _ & Hdup & _).
  split; [apply Hone|].
  apply Hdup. vm_compute. reflexivity.
Defined.

(* ------------------------------------------------------------------ *)
(** ** Admission *)



(** C10.  [open_position] turns a signal for a symbol without open position
    away exactly when the size is strictly greater than the balance; any
    size up to the balance is accepted, there is no minimum.  With a balance
    of 0 the size formula of a liquidation signal gives 0 (for a non-negative
    amount and cap), and a signal of size 0 whose confidence passes the gate
    is admitted for a symbol without open position: the position stored has
    size 0 and the balance stays 0. *)
Theorem zero_size_admitted_at_zero_balance (st : Bot) (signal : Signal)
    (now : Timestamp) :
  Dict.mem (sig_symbol signal) (positions st) = false ->
  (open_position st signal now = st <-> balance st < sig_size signal)
  /\ (sig_size signal <= balance st ->
      open_position st signal now = opened_state st signal now)
  /\ (forall usd_amount,
        balance st = 0 -> 0 <= usd_amount -> 0 <= max_position_size st ->
        min3 (usd_amount * fl 0.01) (balance st * fl 0.15)
          (max_position_size st) = 0)
  /\ (balance st = 0 -> sig_size signal = 0 ->
      min_confidence st <= sig_confidence signal ->
      admitted st signal now = true
      /\ balance (admit_signal st signal now) = 0
      /\ exists position,
           Dict.get (sig_symbol signal)
             (positions (admit_signal st signal now)) = Some position
           /\ pos_size position = 0).
Proof.
  intros Hmem.
  assert (Hopen : open_position st signal now =
                  if balance st <? sig_size signal then st
                  else opened_state st signal now).
  { unfold open_position. rewrite Hmem. reflexivity. }
  split; [|split; [|split]].
  - rewrite Hopen. destruct (balance st <? sig_size signal) eqn:E.
    + apply ltb_lt in E. tauto.
    + apply ltb_ge in E. split.
      * intros H. exfalso. exact (opened_state_neq _ _ _ H).
      * intros H. exfalso. exact (Qclt_not_le _ _ H E).
  - intros Hle. rewrite Hopen. apply ltb_ge in Hle. rewrite Hle. reflexivity.
  - intros usd_amount Hbal Husd Hmax. rewrite Hbal.
    replace (0 * fl 0.15) with 0 by ring.
    assert (H1 : min2 (usd_amount * fl 0.01) 0 = 0).
    { unfold min2. destruct (0 <? usd_amount * fl 0.01) eqn:E; [reflexivity|].
      apply ltb_ge in E. apply Qcle_antisym; [exact E|].
      replace 0 with (0 * fl 0.01) by ring.
      apply Qcmult_le_compat_r; [exact Husd | discriminate]. }
    unfold min3. rewrite H1. unfold min2.
    destruct (max_position_size st <? 0) eqn:E; [|reflexivity].
    apply ltb_lt in E. exfalso. exact (Qclt_not_le _ _ E Hmax).
  - intros Hbal Hsize Hconf.
    assert (Hpass : passes_checks st signal = true).
    { unfold passes_checks. rewrite Hmem, Hbal, Hsize, ltb_irrefl.
      apply leb_le in Hconf. rewrite Hconf. reflexivity. }
    rewrite admitted_iff_passes, admit_signal_cases, Hpass.
    split; [reflexivity|]. simpl. split.
    + rewrite Hbal, Hsize. ring.
    + exists (new_position st signal now).
      split; [apply DictFacts.get_set_same | exact Hsize].
Qed.

Lemma zero_size_admitted_at_zero_balance_witness :
  Dict.mem (sig_symbol zero_size_signal) (positions (init 0)) = false
  /\ sig_size zero_size_signal = 0
  /\ admitted (init 0) zero_size_signal "t0" = true
  /\ balance (admit_signal (init 0) zero_size_signal "t0") = 0.
Proof.
  assert (Hmem : Dict.mem (sig_symbol zero_size_signal) (positions (init 0))
                 = false) by reflexivity.
  assert (Hsize : sig_size zero_size_signal = 0) by qc_compute.
  split; [exact Hmem|]. split; [exact Hsize|].
  destruct (zero_size_admitted_at_zero_balance (init 0) zero_size_signal "t0"
              Hmem) as (_ & _ & _ & H).
  destruct H as (Hadm & Hbal & _).
  - reflexivity.
  - exact Hsize.
  - apply leb_le. vm_compute. reflexivity.
  - split; assumption.
Defined.

(* ------------------------------------------------------------------ *)
(** ** Take-profit and stop-loss prices *)

(** C7.  The position built for a signal has the signal's price as entry
    price, and its take-profit and stop-loss prices are the function of the
    entry price, the side and the two percentages that the specification
    gives: for BUY, [entry * (1 + tp/100)] and [entry * (1 - sl/100)]; for
    SELL, [entry * (1 - tp/100)] and [entry * (1 + sl/100)].  That position
    is the one stored when the signal is admitted.  A BUY admitted at 50000
    with the default 0.6 and 3.0 gets 50300 and 48500, and a balance of 1000
    drops to 900 for size 100. *)
Theorem tp_sl_prices :
  (forall st signal now side,
     side_of_string (sig_side signal) = Some side ->
     pos_entry_price (new_position st signal now) = sig_price signal
     /\ pos_tp_price (new_position st signal now)
        = spec_tp_price side (sig_price signal) (tp_percent st)
     /\ pos_sl_price (new_position st signal now)
        = spec_sl_price side (sig_price signal) (sl_percent st)
     /\ (admitted st signal now = true ->
         Dict.get (sig_symbol signal) (positions (admit_signal st signal now))
         = Some (new_position st signal now)))
  /\ (forall now,
        admitted (init (fl 1000)) btc_buy_signal now = true
        /\ balance (admit_signal (init (fl 1000)) btc_buy_signal now) = fl 900
        /\ exists position,
             Dict.get "BTC"
               (positions (admit_signal (init (fl 1000)) btc_buy_signal now))
             = Some position
             /\ pos_entry_price position = fl 50000
             /\ pos_tp_price position = fl 50300
             /\ pos_sl_price position = fl 48500).
Proof.
  split.
  - intros st signal now side Hside.
    split; [reflexivity|].
    assert (Hadm : admitted st signal now = true ->
                   Dict.get (sig_symbol signal)
                     (positions (admit_signal st signal now))
                   = Some (new_position st signal now)).
    { intros H. rewrite admitted_iff_passes in H.
      rewrite admit_signal_cases, H. apply DictFacts.get_set_same. }
    split; [|split; [|exact Hadm]].
    + unfold side_of_string in Hside. unfold new_position. simpl.
      destruct (String.eqb (sig_side signal) "BUY").
      * injection Hside as <-. reflexivity.
      * destruct (String.eqb (sig_side signal) "SELL"); [|discriminate].
        injection Hside as <-. reflexivity.
    + unfold side_of_string in Hside. unfold new_position. simpl.
      destruct (String.eqb (sig_side signal) "BUY").
      * injection Hside as <-. reflexivity.
      * destruct (String.eqb (sig_side signal) "SELL"); [|discriminate].
        injection Hside as <-. reflexivity.
  - intros now. split; [reflexivity|]. split; [qc_compute|].
    exists (new_position (init (fl 1000)) btc_buy_signal now).
    split; [reflexivity|]. repeat split; qc_compute.
Qed.

Lemma tp_sl_prices_witness :
  side_of_string (sig_side btc_buy_signal) = Some BUY
  /\ pos_tp_price (new_position (init (fl 1000)) btc_buy_signal "t0")
     = fl 50300
  /\ pos_sl_price (new_position (init (fl 1000)) btc_buy_signal "t0")
     = fl 48500.
Proof.
  split; [reflexivity|].
  destruct (proj1 tp_sl_prices (init (fl 1000)) btc_buy_signal "t0" BUY
              eq_refl) as (_ & Htp & Hsl & _).
  rewrite Htp, Hsl. split; qc_compute.
Defined.

(* ------------------------------------------------------------------ *)
(** ** Evaluating the open positions *)

Section Evaluation.
Import DictFacts.

Variable prices : Dict.t PriceQuote.
Variable clock : nat -> Timestamp.

Lemma check_position_no_quote (st : Bot) (symbol : string)
    (position : Position) :
  Dict.get symbol prices = None ->
  check_position prices clock st (symbol, position) = Ok st.
Proof. intros H. unfold check_position. rewrite H. reflexivity. Qed.

Lemma pnl_pct_of_zero_entry (position : Position) (current_price : float) :
  pos_entry_price position = 0 ->
  pnl_pct_of position current_price = Raise ZeroDivisionError.
Proof.
  intros H. unfold pnl_pct_of. rewrite H.
  destruct (String.eqb (pos_side position) "BUY"); reflexivity.
Qed.

Lemma pnl_pct_of_total (position : Position) (current_price : float) :
  pos_entry_price position <> 0 ->
  exists pnl_pct, pnl_pct_of position current_price = Ok pnl_pct.
Proof.
  intros H. unfold pnl_pct_of.
  destruct (String.eqb (pos_side position) "BUY");
    rewrite (py_div_ok _ _ H); eexists; reflexivity.
Qed.

(** An iteration that returns either changed nothing or closed its position,
    which had a quote. *)
Lemma check_position_step (st st' : Bot) (symbol : string)
    (position : Position) :
  check_position prices clock st (symbol, position) = Ok st' ->
  st' = st
  \/ (Dict.mem symbol prices = true
      /\ exists exit_price reason pnl_pct now,
           close_position st position exit_price reason pnl_pct now = Ok st').
Proof.
  unfold check_position.
  destruct (Dict.get symbol prices) as [quote|] eqn:Hq.
  - destruct (pnl_pct_of position (mid quote)) as [pnl_pct|e]; simpl;
      [|discriminate].
    assert (Hmem : Dict.mem symbol prices = true)
      by (apply mem_get; eauto).
    destruct (tp_percent st <=? pnl_pct).
    + intros H. right. split; [exact Hmem|]. eauto 6.
    + destruct (pnl_pct <=? - sl_percent st).
      * intros H. right. split; [exact Hmem|]. eauto 6.
      * intros [= <-]. left. reflexivity.
  - intros [= <-]. left. reflexivity.
Qed.

Lemma check_position_total (st : Bot) (symbol : string)
    (position : Position) :
  Dict.mem (pos_symbol position) (positions st) = true ->
  (Dict.mem symbol prices = true -> pos_entry_price position <> 0) ->
  exists st', check_position prices clock st (symbol, position) = Ok st'.
Proof.
  intros Hopen Hentry. unfold check_position.
  destruct (Dict.get symbol prices) as [quote|] eqn:Hq; [|eauto].
  destruct (pnl_pct_of_total position (mid quote)) as [pnl_pct ->].
  { apply Hentry. apply mem_get. eauto. }
  simpl.
  destruct (tp_percent st <=? pnl_pct);
    [apply close_position_total; exact Hopen|].
  destruct (pnl_pct <=? - sl_percent st);
    [apply close_position_total; exact Hopen | eauto].
Qed.

(** The loop of [update_positions], from any point of its run: [items] are
    the entries still to be visited, all of them still open in [s]. *)
Lemma update_loop (b0 : float) (items : list (string * Position)) :
  forall s s',
    reachable b0 s ->
    NoDup (map fst items) ->
    (forall item, In item items -> In item (Dict.items (positions s))) ->
    for_each (check_position prices clock) items s = Ok s' ->
    reachable b0 s'
    /\ exists closed,
         trades s' = trades s ++ closed
         /\ NoDup (map tr_symbol closed)
         /\ (forall t, In t closed ->
               In (tr_symbol t) (map fst items)
               /\ Dict.mem (tr_symbol t) prices = true
               /\ Dict.get (tr_symbol t) (positions s') = None)
         /\ (forall k, ~ In k (map tr_symbol closed) ->
               Dict.get k (positions s') = Dict.get k (positions s))
         /\ balance s'
            = balance s
              + sum (map (fun t => tr_size t + tr_pnl_amount t) closed)
         /\ trade_counter s' = trade_counter s.
Proof.
  induction items as [|[k p] rest IH]; intros s s' Hreach Hnd Hsub Hrun.
  - simpl in Hrun. injection Hrun as <-. split; [exact Hreach|].
    exists []. rewrite app_nil_r. simpl.
    split; [reflexivity|]. split; [constructor|].
    split; [intros t []|]. split; [reflexivity|]. split; [ring | reflexivity].
  - cbn [for_each] in Hrun.
    destruct (check_position prices clock s (k, p)) as [s1|e] eqn:Hstep;
      cbn [bind] in Hrun; [|discriminate].
    inversion Hnd as [|? ? Hk Hnd']; subst.
    assert (Hin : In (k, p) (Dict.items (positions s)))
      by (apply Hsub; left; reflexivity).
    pose proof (reachable_wf _ _ Hreach) as Hwf.
    destruct (check_position_step _ _ _ _ Hstep)
      as [-> | (Hq & exit_price & reason & pnl_pct & now & Hclose)].
    + destruct (IH s s' Hreach Hnd' (fun item H => Hsub item (or_intror H))
                  Hrun) as (Hr & closed & Ht & Hnd2 & Hc & Hk' & Hb & Htc).
      split; [exact Hr|]. exists closed.
      split; [exact Ht|]. split; [exact Hnd2|].
      split; [|split; [exact Hk' | split; assumption]].
      intros t Hin_t. destruct (Hc t Hin_t) as (A & B & C).
      split; [right; exact A | split; assumption].
    + pose proof (close_position_ok _ _ _ _ _ _ _ Hclose)
        as (Hmem & Hbal & Hpos & Htrades & Htc & _).
      pose proof (wf_symbol _ _ _ Hwf Hin) as Hsym.
      assert (Hreach1 : reachable b0 s1)
        by (exact (reach_close _ _ _ _ _ _ _ _ _ Hreach Hin Hclose)).
      assert (Hsub1 : forall item,
                 In item rest -> In item (Dict.items (positions s1))).
      { intros [k' p'] Hin'. unfold Dict.items. rewrite Hpos, Hsym.
        apply in_del.
        - intros ->. apply Hk. apply (in_map fst) in Hin'. exact Hin'.
        - apply Hsub. right. exact Hin'. }
      destruct (IH s1 s' Hreach1 Hnd' Hsub1 Hrun)
        as (Hr & closed & Ht & Hnd2 & Hc & Hk' & Hb & Htc').
      assert (Hnotin : ~ In k (map tr_symbol closed)).
      { intros H. apply in_map_iff in H as (t & Et & Hin_t).
        destruct (Hc t Hin_t) as (A & _). rewrite Et in A. contradiction. }
      split; [exact Hr|].
      exists (new_trade p exit_price reason pnl_pct now :: closed).
      split; [rewrite Ht, Htrades, <- app_assoc; reflexivity|].
      split; [simpl; rewrite Hsym; constructor; assumption|].
      split; [|split; [|split]].
      * intros t [<- | Hin_t].
        -- simpl. rewrite Hsym. split; [left; reflexivity|].
           split; [exact Hq|].
           rewrite (Hk' k Hnotin), Hpos, Hsym.
           apply get_del_same. exact (proj1 Hwf).
        -- destruct (Hc t Hin_t) as (A & B & C).
           split; [right; exact A | split; assumption].
      * intros k' Hk'notin. simpl in Hk'notin. rewrite Hsym in Hk'notin.
        rewrite Hk' by tauto. rewrite Hpos, Hsym.
        apply get_del_other. intros ->. tauto.
      * rewrite Hb, Hbal. simpl. ring.
      * congruence.
Qed.

Lemma update_loop_total (items : list (string * Position)) :
  forall s,
    positions_wf (positions s) ->
    NoDup (map fst items) ->
    (forall item, In item items -> In item (Dict.items (positions s))) ->
    (forall k p, In (k, p) items -> Dict.mem k prices = true ->
                 pos_entry_price p <> 0) ->
    exists s', for_each (check_position prices clock) items s = Ok s'.
Proof.
  induction items as [|[k p] rest IH]; intros s Hwf Hnd Hsub Hentry.
  - exists s. reflexivity.
  - inversion Hnd as [|? ? Hk Hnd']; subst.
    assert (Hin : In (k, p) (Dict.items (positions s)))
      by (apply Hsub; left; reflexivity).
    pose proof (wf_symbol _ _ _ Hwf Hin) as Hsym.
    destruct (check_position_total s k p) as [s1 Hstep].
    { apply mem_get. exists p. exact (wf_get _ _ _ Hwf Hin). }
    { apply Hentry. left. reflexivity. }
    cbn [for_each]. rewrite Hstep. cbn [bind].
    assert (Hentry' : forall k' p', In (k', p') rest ->
              Dict.mem k' prices = true -> pos_entry_price p' <> 0)
      by (intros k' p' H'; apply Hentry; right; exact H').
    destruct (check_position_step _ _ _ _ Hstep)
      as [-> | (_ & exit_price & reason & pnl_pct & now & Hclose)].
    + apply IH; auto. intros item H. apply Hsub. right. exact H.
    + pose proof (close_position_ok _ _ _ _ _ _ _ Hclose)
        as (_ & _ & Hpos & _).
      apply IH; auto.
      * rewrite Hpos. apply wf_del. exact Hwf.
      * intros [k' p'] Hin'. unfold Dict.items. rewrite Hpos, Hsym.
        apply in_del.
        -- intros ->. apply Hk. apply (in_map fst) in Hin'. exact Hin'.
        -- apply Hsub. right. exact Hin'.
Qed.

Lemma update_loop_no_quotes (items : list (string * Position)) (s : Bot) :
  (forall k, In k (map fst items) -> Dict.get k prices = None) ->
  for_each (check_position prices clock) items s = Ok s.
Proof.
  induction items as [|[k p] rest IH]; intros H; [reflexivity|].
  cbn [for_each].
  rewrite check_position_no_quote by (apply H; left; reflexivity).
  cbn [bind]. apply IH. intros k' Hk'. apply H. right. exact Hk'.
Qed.

End Evaluation.

Lemma update_positions_spec (b0 : float) (st st' : Bot)
    (prices : Dict.t PriceQuote) (clock : nat -> Timestamp) :
  reachable b0 st ->
  update_positions st prices clock = Ok st' ->
  reachable b0 st'
  /\ exists closed,
       trades st' = trades st ++ closed
       /\ NoDup (map tr_symbol closed)
       /\ (forall t, In t closed ->
             Dict.mem (tr_symbol t) (positions st) = true
             /\ Dict.mem (tr_symbol t) prices = true
             /\ Dict.get (tr_symbol t) (positions st') = None)
       /\ (forall k, ~ In k (map tr_symbol closed) ->
             Dict.get k (positions st') = Dict.get k (positions st))
       /\ balance st'
          = balance st
            + sum (map (fun t => tr_size t + tr_pnl_amount t) closed)
       /\ trade_counter st' = trade_counter st.
Proof.
  intros Hreach Hrun. unfold update_positions in Hrun.
  destruct (update_loop prices clock b0 _ _ _ Hreach
              (proj1 (reachable_wf _ _ Hreach)) (fun item H => H) Hrun)
    as (Hr & closed & Ht & Hnd & Hc & Hk & Hb & Htc).
  split; [exact Hr|]. exists closed.
  split; [exact Ht|]. split; [exact Hnd|].
  split; [|split; [exact Hk | split; assumption]].
  intros t Hin. destruct (Hc t Hin) as (A & B & C).
  split; [apply DictFacts.mem_keys; exact A | split; assumption].
Qed.

Lemma update_positions_total (b0 : float) (st : Bot)
    (prices : Dict.t PriceQuote) (clock : nat -> Timestamp) :
  reachable b0 st ->
  (forall k p, In (k, p) (Dict.items (positions st)) ->
               Dict.mem k prices = true -> pos_entry_price p <> 0) ->
  exists st', update_positions st prices clock = Ok st'.
Proof.
  intros Hreach Hentry. pose proof (reachable_wf _ _ Hreach) as Hwf.
  apply update_loop_total; auto. exact (proj1 Hwf).
Qed.

(** C9.  For an open position of a reachable state whose symbol has no quote
    in the current map, the iteration of [update_positions] for it returns
    the state unchanged: position, balance and trades.  A run of
    [update_positions] that returns still holds the position under its
    symbol and has appended no trade for that symbol; the run does return
    when every quoted position has a non-zero entry price, and it returns
    the state unchanged when no open position has a quote. *)
Theorem no_quote_carried_over (b0 : float) (st : Bot)
    (prices : Dict.t PriceQuote) (clock : nat -> Timestamp)
    (symbol : string) (position : Position) :
  reachable b0 st ->
  In (symbol, position) (Dict.items (positions st)) ->
  Dict.get symbol prices = None ->
  check_position prices clock st (symbol, position) = Ok st
  /\ (forall st',
        update_positions st prices clock = Ok st' ->
        Dict.get symbol (positions st') = Some position
        /\ forall t, In t (trades st') -> tr_symbol t = symbol ->
                     In t (trades st))
  /\ ((forall k p, In (k, p) (Dict.items (positions st)) ->
                   Dict.mem k prices = true -> pos_entry_price p <> 0) ->
      exists st', update_positions st prices clock = Ok st')
  /\ ((forall k, In k (Dict.keys (positions st)) ->
                 Dict.get k prices = None) ->
      update_positions st prices clock = Ok st).
Proof.
  intros Hreach Hin Hnone. pose proof (reachable_wf _ _ Hreach) as Hwf.
  split; [apply check_position_no_quote; exact Hnone|].
  split; [|split].
  - intros st' Hrun.
    destruct (update_positions_spec _ _ _ _ _ Hreach Hrun)
      as (_ & closed & Ht & _ & Hc & Hk & _).
    assert (Hnot : ~ In symbol (map tr_symbol closed)).
    { intros H. apply in_map_iff in H as (t & Et & Hin_t).
      destruct (Hc t Hin_t) as (_ & Hmem & _).
      rewrite Et in Hmem. apply DictFacts.not_mem_get in Hnone. congruence. }
    split.
    + rewrite (Hk _ Hnot). apply DictFacts.in_get; [exact (proj1 Hwf)|].
      exact Hin.
    + intros t Hin_t Et. rewrite Ht in Hin_t.
      apply in_app_or in Hin_t as [H|H]; [exact H|].
      exfalso. apply Hnot. rewrite <- Et. apply in_map. exact H.
  - exact (update_positions_total b0 st prices clock Hreach).
  - intros H. apply update_loop_no_quotes. exact H.
Qed.

Lemma no_quote_carried_over_witness :
  reachable (fl 1000) account_with_btc
  /\ In ("BTC", btc_position) (Dict.items (positions account_with_btc))
  /\ Dict.get "BTC" eth_only_prices = None
  /\ update_positions account_with_btc eth_only_prices fixed_clock
     = Ok account_with_btc.
Proof.
  assert (Hin : In ("BTC", btc_position)
                  (Dict.items (positions account_with_btc)))
    by (left; reflexivity).
  split; [exact account_with_btc_reachable|].
  split; [exact Hin|]. split; [reflexivity|].
  destruct (no_quote_carried_over (fl 1000) account_with_btc eth_only_prices
              fixed_clock "BTC" btc_position account_with_btc_reachable Hin
              eq_refl) as (_ & _ & _ & H).
  apply H. intros k [<-|[]]. reflexivity.
Defined.

(* ------------------------------------------------------------------ *)
(** ** Signal generation *)

Section Signals.
Import DictFacts.


Lemma extract_symbol_tracked (st : Bot) (market symbol : string) :
  extract_symbol st market = Some symbol ->
  In symbol (symbols st) /\ str_in symbol (upper market) = true.
Proof.
  unfold extract_symbol. intros H. apply find_some in H. exact H.
Qed.



(** A sweep whose market does not resolve, or resolves to a symbol without
    quote, gives no signal. *)
Lemma signals_of_sweep_dropped (st : Bot)
    (trader_activity : Dict.t (list Sweep)) (prices : Dict.t PriceQuote)
    (sweep : Sweep) :
  (forall symbol,
     extract_symbol st (get_or (sw_market sweep) "") = Some symbol ->
     Dict.get symbol prices = None) ->
  signals_of_sweep st trader_activity prices sweep = [].
Proof.
  intros H. unfold signals_of_sweep.
  destruct (extract_symbol st (get_or (sw_market sweep) "")) as [symbol|];
    [|reflexivity].
  rewrite (H symbol eq_refl).
  destruct (String.eqb symbol ""); reflexivity.
Qed.

(** Every liquidation signal of a sweep is the one built from it, and the
    sweep passes both thresholds. *)
Lemma liquidation_of_sweep (st : Bot)
    (trader_activity : Dict.t (list Sweep)) (prices : Dict.t PriceQuote)
    (sweep : Sweep) (signal : Signal) :
  In signal (signals_of_sweep st trader_activity prices sweep) ->
  is_liquidation signal = true ->
  fl 50000 <= get_or (sw_usd_amount sweep) 0
  /\ fl 1000 < get_or (sw_size sweep) 0
  /\ exists symbol quote,
       extract_symbol st (get_or (sw_market sweep) "") = Some symbol
       /\ Dict.get symbol prices = Some quote
       /\ signal = liquidation_signal st symbol (get_or (sw_side sweep) "BUY")
                     (get_or (sw_usd_amount sweep) 0) quote.
Proof.
  unfold signals_of_sweep.
  destruct (extract_symbol st (get_or (sw_market sweep) "")) as [symbol|]
    eqn:Hsym; [|intros []].
  destruct (String.eqb symbol ""); [intros []|].
  destruct (Dict.get symbol prices) as [quote|] eqn:Hq; [|intros []].
  intros Hin Hliq. apply in_app_or in Hin as [Hin|Hin].
  - destruct ((fl 50000 <=? get_or (sw_usd_amount sweep) 0)
              && (fl 1000 <? get_or (sw_size sweep) 0)) eqn:E; [|destruct Hin].
    apply andb_true_iff in E as [E1 E2].
    apply leb_le in E1. apply ltb_lt in E2.
    destruct Hin as [<-|[]].
    split; [exact E1|]. split; [exact E2|].
    exists symbol, quote. split; [reflexivity|]. split; [exact Hq|].
    reflexivity.
  - exfalso.
    destruct (Dict.get (get_or (sw_trader sweep) "") trader_activity)
      as [l|]; [|destruct Hin].
    destruct (2 <=? List.length (large_trades l))%nat; [|destruct Hin].
    destruct Hin as [<-|[]]. discriminate Hliq.
Qed.







Lemma min3_le (a b c : float) :
  min3 a b c <= a /\ min3 a b c <= b /\ min3 a b c <= c.
Proof.
  unfold min3. split; [|split].
  - eapply Qcle_trans; [apply min2_le_l | apply min2_le_l].
  - eapply Qcle_trans; [apply min2_le_l | apply min2_le_r].
  - apply min2_le_r.
Qed.

Lemma min3_cases (a b c : float) :
  min3 a b c = a \/ min3 a b c = b \/ min3 a b c = c.
Proof.
  unfold min3.
  destruct (min2_cases (min2 a b) c) as [-> | ->]; [|tauto].
  destruct (min2_cases a b) as [-> | ->]; tauto.
Qed.

End Signals.






(* ------------------------------------------------------------------ *)
(** ** The loop of [run] *)

Section Cycle.

(** A quote that [get_hyperliquid_price] returns has a non-zero mid price:
    with a zero mid the spread raises and the method returns [None]. *)
Lemma get_hyperliquid_price_mid (symbol : string)
    (book : option (float * float)) (quote : PriceQuote) :
  get_hyperliquid_price symbol book = Some quote -> mid quote <> 0.
Proof.
  unfold get_hyperliquid_price, py_div.
  destruct book as [[best_bid best_ask]|]; [|discriminate].
  destruct (eqb ((best_bid + best_ask) / fl 2) 0) eqn:E; [discriminate|].
  intros [= <-]. simpl. apply eqb_neq. exact E.
Qed.

(** Step 4 of [run] stays within the reachable states. *)
Lemma admit_signals_reachable (b0 : float) (clock : nat -> Timestamp)
    (signals : list Signal) :
  forall st, reachable b0 st -> reachable b0 (admit_signals st signals clock).
Proof.
  unfold admit_signals.
  induction signals as [|signal rest IH]; intros st Hreach; [exact Hreach|].
  cbn [fold_left]. apply IH. apply reach_admit. exact Hreach.
Qed.

(** So does a whole iteration of the loop, which never raises [KeyError]. *)
Lemma run_cycle_reachable (b0 : float) (st st' : Bot)
    (prices : Dict.t PriceQuote) (sweeps : list Sweep)
    (clock : nat -> Timestamp) :
  reachable b0 st ->
  run_cycle st prices sweeps clock = Ok st' ->
  reachable b0 st'.
Proof.
  intros Hreach. unfold run_cycle.
  destruct prices as [|quote rest]; [intros [= <-]; exact Hreach|].
  set (prices := quote :: rest).
  set (st1 := admit_signals st (generate_signals st sweeps prices) clock).
  assert (Hreach1 : reachable b0 st1) by (apply admit_signals_reachable; auto).
  destruct (update_positions st1 prices clock) as [st2|e] eqn:Hrun;
    cbn [bind]; [|discriminate].
  destruct (print_summary st2 prices); cbn [bind]; [|discriminate].
  intros [= <-].
  exact (proj1 (update_positions_spec _ _ _ _ _ Hreach1 Hrun)).
Qed.

End Cycle.

(* ------------------------------------------------------------------ *)
(** ** Quotes *)

Section Quotes.
Import DictFacts.

Lemma quote_fields (symbol : string) (book : option (float * float))
    (quote : PriceQuote) :
  get_hyperliquid_price symbol book = Some quote ->
  q_symbol quote = symbol
  /\ book = Some (bid quote, ask quote)
  /\ mid quote = (bid quote + ask quote) / fl 2
  /\ mid quote <> 0
  /\ spread quote = (ask quote - bid quote) / mid quote * fl 100.
Proof.
  unfold get_hyperliquid_price, py_div.
  destruct book as [[best_bid best_ask]|]; [|discriminate].
  destruct (eqb ((best_bid + best_ask) / fl 2) 0) eqn:E; [discriminate|].
  apply eqb_neq in E. intros [= <-]. cbn.
  split; [reflexivity|]. split; [reflexivity|]. split; [reflexivity|].
  split; [exact E | reflexivity].
Qed.

Lemma get_all_prices_fold (fetch : string -> option (float * float))
    (symbol : string) (tracked : list string) :
  forall prices,
    Dict.get symbol
      (fold_left
         (fun prices symbol =>
            match get_hyperliquid_price symbol (fetch symbol) with
            | Some price_data => Dict.set symbol price_data prices
            | None => prices
            end)
         tracked prices)
    = if existsb (String.eqb symbol) tracked
      then match get_hyperliquid_price symbol (fetch symbol) with
           | Some quote => Some quote
           | None => Dict.get symbol prices
           end
      else Dict.get symbol prices.
Proof.
  induction tracked as [|s rest IH]; intros prices; [reflexivity|].
  cbn [fold_left existsb]. rewrite IH.
  destruct (String.eqb_spec symbol s) as [->|Hne]; cbn [orb].
  - destruct (get_hyperliquid_price s (fetch s)) as [quote|].
    + rewrite get_set_same. destruct (existsb (String.eqb s) rest); reflexivity.
    + destruct (existsb (String.eqb s) rest); reflexivity.
  - destruct (get_hyperliquid_price s (fetch s)) as [quote|];
      [rewrite (get_set_other _ _ _ _ Hne)|]; reflexivity.
Qed.

Lemma nodup_set {V : Type} (k : string) (v : V) (d : Dict.t V) :
  NoDup (Dict.keys d) -> NoDup (Dict.keys (Dict.set k v d)).
Proof.
  intros Hnd. destruct (Dict.mem k d) eqn:E.
  - assert (Hkeys : Dict.keys (Dict.set k v d) = Dict.keys d);
      [|rewrite Hkeys; exact Hnd].
    clear Hnd. unfold Dict.mem in E.
    induction d as [|[k' v'] d IH]; simpl in *; [discriminate|].
    destruct (String.eqb_spec k k') as [->|Hne]; simpl; [reflexivity|].
    rewrite (IH E). reflexivity.
  - apply nodup_set_absent; assumption.
Qed.

Lemma get_all_prices_nodup (st : Bot)
    (fetch : string -> option (float * float)) :
  NoDup (Dict.keys (get_all_prices st fetch)).
Proof.
  unfold get_all_prices.
  assert (H : forall tracked prices,
             NoDup (Dict.keys prices) ->
             NoDup (Dict.keys
                      (fold_left
                         (fun prices symbol =>
                            match get_hyperliquid_price symbol (fetch symbol)
                            with
                            | Some price_data =>
                                Dict.set symbol price_data prices
                            | None => prices
                            end)
                         tracked prices))).
  { induction tracked as [|s rest IH]; intros prices Hnd; [exact Hnd|].
    cbn [fold_left]. apply IH.
    destruct (get_hyperliquid_price s (fetch s)); [apply nodup_set|];
      exact Hnd. }
  apply H. constructor.
Qed.

End Quotes.

(** X2.  [get_all_prices] holds, for each tracked symbol whose request gave a
    quote, that quote, and nothing else: a symbol that is not tracked, or
    whose request failed, is absent.  No key occurs twice, every quote is
    stored under its own symbol and no stored mid price is zero. *)
Theorem all_prices_are_the_quotes (st : Bot)
    (fetch : string -> option (float * float)) :
  (forall symbol,
     Dict.get symbol (get_all_prices st fetch)
     = if existsb (String.eqb symbol) (symbols st)
       then get_hyperliquid_price symbol (fetch symbol)
       else None)
  /\ NoDup (Dict.keys (get_all_prices st fetch))
  /\ Forall (fun item => q_symbol (snd item) = fst item)
       (get_all_prices st fetch)
  /\ quotes_nonzero (get_all_prices st fetch).
Proof.
  assert (Hget : forall symbol,
             Dict.get symbol (get_all_prices st fetch)
             = if existsb (String.eqb symbol) (symbols st)
               then get_hyperliquid_price symbol (fetch symbol)
               else None).
  { intros symbol. unfold get_all_prices. rewrite get_all_prices_fold.
    destruct (existsb (String.eqb symbol) (symbols st)); [|reflexivity].
    destruct (get_hyperliquid_price symbol (fetch symbol)); reflexivity. }
  pose proof (get_all_prices_nodup st fetch) as Hnd.
  assert (Hquote : forall k q,
             In (k, q) (get_all_prices st fetch) ->
             get_hyperliquid_price k (fetch k) = Some q).
  { intros k q Hin. apply (DictFacts.in_get _ _ _ Hnd) in Hin.
    rewrite Hget in Hin.
    destruct (existsb (String.eqb k) (symbols st)); [exact Hin|discriminate]. }
  split; [exact Hget|]. split; [exact Hnd|].
  split; apply Forall_forall; intros [k q] Hin; simpl;
    destruct (quote_fields k (fetch k) q (Hquote k q Hin))
      as (H1 & _ & _ & H2 & _); assumption.
Qed.

(* ------------------------------------------------------------------ *)
(** ** Resolving a market name to a symbol *)

Section Resolution.

Lemma prefix_spec (s t : string) :
  String.prefix s t = true <-> exists after, t = (s ++ after)%string.
Proof.
  revert t. induction s as [|a s IH]; intros t.
  - split; [intros _; exists t; reflexivity|].
    intros _. destruct t; reflexivity.
  - destruct t as [|b t]; simpl.
    + split; [discriminate | intros [after H]; discriminate H].
    + destruct (ascii_dec a b) as [->|Hne].
      * rewrite IH. split; intros [after H]; exists after.
        -- rewrite H. reflexivity.
        -- injection H as H. exact H.
      * split; [discriminate|].
        intros [after H]. injection H as H _. congruence.
Qed.

Lemma str_in_spec (s t : string) : str_in s t = true <-> occurs s t.
Proof.
  unfold occurs. split.
  - induction t as [|c t IH]; cbn [str_in]; rewrite orb_true_iff.
    + intros [H|H]; [|discriminate].
      apply prefix_spec in H as [after H]. exists EmptyString, after. exact H.
    + intros [H|H].
      * apply prefix_spec in H as [after H]. exists EmptyString, after.
        exact H.
      * destruct (IH H) as (before & after & E).
        exists (String c before), after. rewrite E. reflexivity.
  - intros (before & after & E). revert t E.
    induction before as [|c before IH]; intros t E.
    + simpl in E.
      assert (H : String.prefix s t = true)
        by (apply prefix_spec; exists after; exact E).
      destruct t; cbn [str_in]; rewrite H; reflexivity.
    + subst t. cbn [append str_in]. rewrite (IH _ eq_refl).
      apply orb_true_r.
Qed.

Lemma upper_ascii_idempotent (c : ascii) :
  upper_ascii (upper_ascii c) = upper_ascii c.
Proof. destruct c as [[] [] [] [] [] [] [] []]; reflexivity. Qed.

Lemma upper_idempotent (s : string) : upper (upper s) = upper s.
Proof.
  induction s as [|c s IH]; simpl; [reflexivity|].
  rewrite upper_ascii_idempotent, IH. reflexivity.
Qed.

Lemma find_first {A : Type} (f : A -> bool) (l : list A) (x : A) :
  find f l = Some x <->
  exists before after,
    l = before ++ x :: after
    /\ f x = true
    /\ forall y, In y before -> f y = false.
Proof.
  induction l as [|a l IH]; simpl.
  - split; [discriminate|].
    intros (before & after & E & _). destruct before; discriminate E.
  - destruct (f a) eqn:Ea.
    + split.
      * intros [= ->]. exists [], l. repeat split; [exact Ea | intros y []].
      * intros (before & after & E & Hx & Hbefore).
        destruct before as [|b before]; simpl in E.
        -- injection E as -> _. reflexivity.
        -- injection E as -> _.
           rewrite (Hbefore b (or_introl eq_refl)) in Ea. discriminate.
    + rewrite IH. split.
      * intros (before & after & -> & Hx & Hbefore).
        exists (a :: before), after. repeat split; [exact Hx|].
        intros y [<-|Hy]; [exact Ea | auto].
      * intros (before & after & E & Hx & Hbefore).
        destruct before as [|b before]; simpl in E.
        -- injection E as -> _. congruence.
        -- injection E as _ ->. exists before, after.
           repeat split; [exact Hx|]. intros y Hy. apply Hbefore.
           right. exact Hy.
Qed.

End Resolution.

(** X3.  For a market name of ASCII characters: the symbol extracted from it
    is the first tracked symbol, in the order of [symbols], that occurs in
    the upper-cased name; the case of the name does not matter; no symbol is
    extracted exactly when no tracked symbol occurs in the upper-cased
    name. *)
Theorem symbol_resolution (st : Bot) (market : string) :
  is_ascii market = true ->
  (forall symbol,
     extract_symbol st market = Some symbol <->
     exists before after,
       symbols st = before ++ symbol :: after
       /\ occurs symbol (upper market)
       /\ forall earlier, In earlier before ->
            ~ occurs earlier (upper market))
  /\ (extract_symbol st market = None <->
      forall symbol, In symbol (symbols st) -> ~ occurs symbol (upper market))
  /\ extract_symbol st (upper market) = extract_symbol st market.
Proof.
  intros _. split; [|split].
  - intros symbol. unfold extract_symbol. rewrite find_first.
    split; intros (before & after & E & Hx & Hbefore);
      exists before, after; (split; [exact E|]).
    + split; [apply str_in_spec; exact Hx|].
      intros earlier Hin Hocc. apply str_in_spec in Hocc.
      rewrite (Hbefore earlier Hin) in Hocc. discriminate.
    + split; [apply str_in_spec; exact Hx|].
      intros y Hin. destruct (str_in y (upper market)) eqn:Ey; [|reflexivity].
      exfalso. apply (Hbefore y Hin). apply str_in_spec. exact Ey.
  - unfold extract_symbol. split.
    + intros H symbol Hin Hocc. apply str_in_spec in Hocc.
      rewrite (find_none _ _ H symbol Hin) in Hocc. discriminate.
    + intros H.
      destruct (find (fun s => str_in s (upper market)) (symbols st))
        as [symbol|] eqn:E; [|reflexivity].
      apply find_some in E as [Hin Hocc]. exfalso.
      apply (H symbol Hin). apply str_in_spec. exact Hocc.
  - unfold extract_symbol. rewrite upper_idempotent. reflexivity.
Qed.

Lemma symbol_resolution_witness :
  is_ascii "btc-usd" = true
  /\ extract_symbol (init (fl 1000)) "btc-usd" = Some "BTC"
  /\ extract_symbol (init (fl 1000)) (upper "btc-usd")
     = extract_symbol (init (fl 1000)) "btc-usd".
Proof.
  split; [reflexivity|].
  destruct (symbol_resolution (init (fl 1000)) "btc-usd" eq_refl)
    as (Hsome & _ & Hup).
  split; [|exact Hup].
  apply Hsome. exists [], ["ETH"; "SOL"].
  split; [reflexivity|]. split; [|intros earlier []].
  apply str_in_spec. reflexivity.
Defined.

(* ------------------------------------------------------------------ *)
(** ** What [generate_signals] produces *)

Section Generated.

(** Every whale signal of a sweep is the one built from it, for a trader
    with two large trades in the batch. *)
Lemma whale_of_sweep (st : Bot) (trader_activity : Dict.t (list Sweep))
    (prices : Dict.t PriceQuote) (sweep : Sweep) (signal : Signal) :
  In signal (signals_of_sweep st trader_activity prices sweep) ->
  is_whale signal = true ->
  exists symbol quote trades_of_trader,
    extract_symbol st (get_or (sw_market sweep) "") = Some symbol
    /\ Dict.get symbol prices = Some quote
    /\ Dict.get (get_or (sw_trader sweep) "") trader_activity
       = Some trades_of_trader
    /\ (2 <= List.length (large_trades trades_of_trader))%nat
    /\ signal = whale_signal st symbol (get_or (sw_side sweep) "BUY")
                  (get_or (sw_trader sweep) "")
                  (get_or (sw_usd_amount sweep) 0)
                  (large_trades trades_of_trader) quote.
Proof.
  unfold signals_of_sweep.
  destruct (extract_symbol st (get_or (sw_market sweep) "")) as [symbol|]
    eqn:Hsym; [|intros []].
  destruct (String.eqb symbol ""); [intros []|].
  destruct (Dict.get symbol prices) as [quote|] eqn:Hq; [|intros []].
  intros Hin Hwhale. apply in_app_or in Hin as [Hin|Hin].
  - exfalso.
    destruct ((fl 50000 <=? get_or (sw_usd_amount sweep) 0)
              && (fl 1000 <? get_or (sw_size sweep) 0)); [|destruct Hin].
    destruct Hin as [<-|[]]. discriminate Hwhale.
  - destruct (Dict.get (get_or (sw_trader sweep) "") trader_activity)
      as [l|] eqn:Hget; [|destruct Hin].
    destruct (2 <=? List.length (large_trades l))%nat eqn:E; [|destruct Hin].
    apply Nat.leb_le in E. destruct Hin as [<-|[]].
    exists symbol, quote, l. repeat split; try assumption; reflexivity.
Qed.

Lemma signal_kind (signal : Signal) :
  is_liquidation signal = true \/ is_whale signal = true.
Proof.
  unfold is_liquidation, is_whale. destruct (sig_reason signal); auto.
Qed.

Lemma signals_of_sweep_length (st : Bot)
    (trader_activity : Dict.t (list Sweep)) (prices : Dict.t PriceQuote)
    (sweep : Sweep) :
  (List.length (signals_of_sweep st trader_activity prices sweep) <= 2)%nat.
Proof.
  unfold signals_of_sweep.
  destruct (extract_symbol st (get_or (sw_market sweep) ""));
    [|simpl; lia].
  destruct (String.eqb s ""); [simpl; lia|].
  destruct (Dict.get s prices); [|simpl; lia].
  rewrite length_app.
  destruct ((fl 50000 <=? get_or (sw_usd_amount sweep) 0)
            && (fl 1000 <? get_or (sw_size sweep) 0));
    destruct (Dict.get (get_or (sw_trader sweep) "") trader_activity) as [l|];
    try destruct (2 <=? List.length (large_trades l))%nat; simpl; lia.
Qed.

(** What holds of every generated signal. *)
Lemma generated_signal_facts (st : Bot) (sweeps : list Sweep)
    (prices : Dict.t PriceQuote) (signal : Signal) :
  In signal (generate_signals st sweeps prices) ->
  In (sig_symbol signal) (symbols st)
  /\ (exists quote,
        Dict.get (sig_symbol signal) prices = Some quote
        /\ sig_price signal = mid quote)
  /\ sig_size signal <= max_position_size st
  /\ sig_size signal <= balance st * fl 0.15.
Proof.
  unfold generate_signals. intros Hin.
  apply in_flat_map in Hin as (sweep & _ & Hin).
  destruct (signal_kind signal) as [Hkind|Hkind].
  - destruct (liquidation_of_sweep _ _ _ _ _ Hin Hkind)
      as (_ & _ & symbol & quote & Hsym & Hq & ->).
    cbn [liquidation_signal sig_symbol sig_price sig_size].
    split; [exact (proj1 (extract_symbol_tracked _ _ _ Hsym))|].
    split; [exists quote; split; [exact Hq | reflexivity]|].
    split; apply min3_le.
  - destruct (whale_of_sweep _ _ _ _ _ Hin Hkind)
      as (symbol & quote & l & Hsym & Hq & _ & _ & ->).
    cbn [whale_signal sig_symbol sig_price sig_size].
    split; [exact (proj1 (extract_symbol_tracked _ _ _ Hsym))|].
    split; [exists quote; split; [exact Hq | reflexivity]|].
    split; apply min3_le.
Qed.

End Generated.

(** X4.  Every signal of [generate_signals] comes from a sweep of the batch
    and is for a tracked symbol that has a quote, at that quote's mid price.
    It is a liquidation signal, of side BUY or SELL, or a whale signal, of
    the sweep's side and confidence 75.  Its size is one of the three values
    that [min] chooses from: the share of the sweep's amount (1% for a
    liquidation signal, 10% for a whale signal), 15% of the balance, or
    [max_position_size].  A batch gives at most two signals per sweep, and
    none when there are no sweeps or no quotes. *)
Theorem generated_signals_are_quoted (st : Bot) (sweeps : list Sweep)
    (prices : Dict.t PriceQuote) :
  (forall signal,
     In signal (generate_signals st sweeps prices) ->
     In (sig_symbol signal) (symbols st)
     /\ (exists quote,
           Dict.get (sig_symbol signal) prices = Some quote
           /\ sig_price signal = mid quote)
     /\ exists sweep,
          In sweep sweeps
          /\ ((is_liquidation signal = true
               /\ (sig_side signal = "BUY" \/ sig_side signal = "SELL")
               /\ (sig_size signal
                   = get_or (sw_usd_amount sweep) 0 * fl 0.01
                   \/ sig_size signal = balance st * fl 0.15
                   \/ sig_size signal = max_position_size st))
              \/ (is_whale signal = true
                  /\ sig_confidence signal = fl 75
                  /\ sig_side signal = get_or (sw_side sweep) "BUY"
                  /\ (sig_size signal
                      = get_or (sw_usd_amount sweep) 0 * fl 0.1
                      \/ sig_size signal = balance st * fl 0.15
                      \/ sig_size signal = max_position_size st))))
  /\ (List.length (generate_signals st sweeps prices)
      <= 2 * List.length sweeps)%nat
  /\ generate_signals st [] prices = []
  /\ generate_signals st sweeps [] = [].
Proof.
  split; [|split; [|split]].
  - intros signal Hin.
    destruct (generated_signal_facts _ _ _ _ Hin) as (H1 & H2 & _).
    split; [exact H1|]. split; [exact H2|].
    unfold generate_signals in Hin.
    apply in_flat_map in Hin as (sweep & Hsweep & Hin).
    exists sweep. split; [exact Hsweep|].
    destruct (signal_kind signal) as [Hkind|Hkind]; [left | right].
    + destruct (liquidation_of_sweep _ _ _ _ _ Hin Hkind)
        as (_ & _ & symbol & quote & _ & _ & ->).
      split; [reflexivity|].
      cbn [liquidation_signal sig_side sig_size].
      split; [|apply min3_cases].
      destruct (String.eqb (get_or (sw_side sweep) "BUY") "SELL"); auto.
    + destruct (whale_of_sweep _ _ _ _ _ Hin Hkind)
        as (symbol & quote & l & _ & _ & _ & _ & ->).
      split; [reflexivity|]. split; [reflexivity|]. split; [reflexivity|].
      cbn [whale_signal sig_size]. apply min3_cases.
  - unfold generate_signals.
    induction sweeps as [|sweep rest IH] at 2 3; [simpl; lia|].
    cbn [flat_map]. rewrite length_app.
    pose proof (signals_of_sweep_length st (group_by_trader sweeps) prices
                  sweep). simpl List.length. lia.
  - reflexivity.
  - unfold generate_signals.
    induction sweeps as [|sweep rest IH] at 2; [reflexivity|].
    cbn [flat_map]. rewrite IH.
    rewrite signals_of_sweep_dropped; [reflexivity|].
    intros symbol _. reflexivity.
Qed.



(* ------------------------------------------------------------------ *)
(** ** Identifiers and the trade counter *)

Section Identifiers.
Import DictFacts.

Lemma uint_of_zeros (n : nat) (digits : string) :
  NilEmpty.uint_of_string (zeros n digits)
  = option_map (Nat.iter n Decimal.D0) (NilEmpty.uint_of_string digits).
Proof.
  induction n as [|n IH]; simpl.
  - destruct (NilEmpty.uint_of_string digits); reflexivity.
  - rewrite IH. destruct (NilEmpty.uint_of_string digits); reflexivity.
Qed.

Lemma of_uint_zeros (n : nat) (u : Decimal.uint) :
  Nat.of_uint (Nat.iter n Decimal.D0 u) = Nat.of_uint u.
Proof.
  induction n as [|n IH]; [reflexivity|].
  simpl Nat.iter. rewrite <- IH. reflexivity.
Qed.

(** The identifier written from a counter reads back as that counter. *)
Lemma id_number_format (n : nat) :
  id_number ("POS_" ++ format_04d n) = Some n.
Proof.
  unfold format_04d. cbn [append id_number].
  rewrite uint_of_zeros, NilEmpty.usu. cbn [option_map].
  rewrite of_uint_zeros, Unsigned.of_to. reflexivity.
Qed.

Lemma length_del {V : Type} (k : string) (d : Dict.t V) :
  Dict.mem k d = true -> S (List.length (Dict.del k d)) = List.length d.
Proof.
  unfold Dict.mem. induction d as [|[k' v'] d IH]; simpl; [discriminate|].
  destruct (String.eqb k k'); [reflexivity|].
  intros H. simpl. rewrite (IH H). reflexivity.
Qed.

Lemma values_del {V : Type} (k : string) (v : V) (d : Dict.t V) :
  Dict.get k d = Some v ->
  Permutation (Dict.values d) (v :: Dict.values (Dict.del k d)).
Proof.
  induction d as [|[k' v'] d IH]; simpl; [discriminate|].
  destruct (String.eqb k k').
  - intros [= ->]. apply Permutation_refl.
  - intros H. simpl. eapply perm_trans; [|apply perm_swap].
    apply perm_skip. exact (IH H).
Qed.

Lemma ids_below_mono (n m : nat) (ids : list string) :
  (n <= m)%nat -> ids_below n ids -> ids_below m ids.
Proof.
  intros Hle. apply Forall_impl. intros id (k & Hk & E).
  exists k. split; [lia | exact E].
Qed.

Lemma ids_opened (st : Bot) (signal : Signal) (now : Timestamp) :
  Dict.mem (sig_symbol signal) (positions st) = false ->
  Permutation
    (("POS_" ++ format_04d (trade_counter st))%string :: all_ids st)
    (all_ids (opened_state st signal now)).
Proof.
  intros Hmem. unfold all_ids. simpl positions. simpl trades.
  rewrite (set_absent _ _ _ Hmem). unfold Dict.values.
  rewrite !map_app. simpl map. rewrite <- app_assoc. simpl app.
  apply Permutation_middle.
Qed.

Lemma ids_closed (st st' : Bot) (position : Position)
    (exit_price : float) (reason : string) (pnl_pct : float)
    (now : Timestamp) :
  Dict.get (pos_symbol position) (positions st) = Some position ->
  close_position st position exit_price reason pnl_pct now = Ok st' ->
  Permutation (all_ids st) (all_ids st').
Proof.
  intros Hget Hclose. apply close_position_ok in Hclose.
  destruct Hclose as (_ & _ & Hpos & Htrades & _).
  unfold all_ids. rewrite Hpos, Htrades, map_app. simpl map.
  pose proof (Permutation_map pos_id (values_del _ _ _ Hget)) as Hperm.
  simpl map in Hperm.
  eapply perm_trans; [apply Permutation_app_tail; exact Hperm|].
  simpl app. rewrite app_assoc. apply Permutation_cons_append.
Qed.

Lemma reachable_ids (b0 : float) (st : Bot) :
  reachable b0 st ->
  NoDup (all_ids st) /\ ids_below (trade_counter st) (all_ids st).
Proof.
  induction 1 as [|st signal now Hreach [IHnd IHbelow]
                  |st st' symbol position exit_price reason pnl_pct now
                     Hreach [IHnd IHbelow] Hin Hclose].
  - split; constructor.
  - rewrite admit_signal_cases.
    destruct (passes_checks st signal) eqn:E; [|split; assumption].
    assert (Hmem : Dict.mem (sig_symbol signal) (positions st) = false).
    { unfold passes_checks in E.
      apply andb_true_iff in E as [E _]. apply andb_true_iff in E as [_ E].
      apply negb_true_iff in E. exact E. }
    pose proof (ids_opened st signal now Hmem) as Hperm.
    split.
    + apply (Permutation_NoDup Hperm). constructor; [|exact IHnd].
      intros Hold. unfold ids_below in IHbelow.
      rewrite Forall_forall in IHbelow.
      destruct (IHbelow _ Hold) as (m & Hm & Hid).
      rewrite id_number_format in Hid. injection Hid as <-. lia.
    + apply (Permutation_Forall Hperm). constructor.
      * exists (trade_counter st). simpl. split; [lia|].
        apply id_number_format.
      * apply (ids_below_mono (trade_counter st)); [simpl; lia|].
        exact IHbelow.
  - pose proof (wf_get _ _ _ (reachable_wf _ _ Hreach) Hin) as Hget.
    pose proof (ids_closed _ _ _ _ _ _ _ Hget Hclose) as Hperm.
    apply close_position_ok in Hclose.
    destruct Hclose as (_ & _ & _ & _ & Htc & _). rewrite Htc.
    split.
    + exact (Permutation_NoDup Hperm IHnd).
    + exact (Permutation_Forall Hperm IHbelow).
Qed.

Lemma reachable_count (b0 : float) (st : Bot) :
  reachable b0 st ->
  (List.length (positions st) + List.length (trades st)
   = trade_counter st)%nat.
Proof.
  induction 1 as [|st signal now Hreach IH
                  |st st' symbol position exit_price reason pnl_pct now
                     Hreach IH Hin Hclose].
  - reflexivity.
  - rewrite admit_signal_cases.
    destruct (passes_checks st signal) eqn:E; [|exact IH].
    assert (Hmem : Dict.mem (sig_symbol signal) (positions st) = false).
    { unfold passes_checks in E.
      apply andb_true_iff in E as [E _]. apply andb_true_iff in E as [_ E].
      apply negb_true_iff in E. exact E. }
    simpl. rewrite (set_absent _ _ _ Hmem), length_app. simpl. lia.
  - apply close_position_ok in Hclose.
    destruct Hclose as (Hmem & _ & Hpos & Htrades & Htc & _).
    rewrite Hpos, Htrades, Htc, length_app. simpl.
    pose proof (length_del _ _ Hmem). lia.
Qed.

End Identifiers.

(** X7.  In every reachable state the identifiers of the open positions and of
    the closed trades are pairwise distinct; each reads back as a number
    below [trade_counter]; and [trade_counter] is the number of open
    positions plus the number of closed trades.  An identifier is written
    from the counter so that it reads back as the counter, beyond four
    digits too. *)
Theorem identifiers_are_unique (b0 : float) (st : Bot) :
  reachable b0 st ->
  NoDup (all_ids st)
  /\ (forall id, In id (all_ids st) ->
        exists n, (n < trade_counter st)%nat /\ id_number id = Some n)
  /\ (List.length (positions st) + List.length (trades st)
      = trade_counter st)%nat
  /\ (forall n, id_number ("POS_" ++ format_04d n) = Some n).
Proof.
  intros Hreach. destruct (reachable_ids _ _ Hreach) as [Hnd Hbelow].
  split; [exact Hnd|]. split.
  - unfold ids_below in Hbelow. rewrite Forall_forall in Hbelow. exact Hbelow.
  - split; [exact (reachable_count _ _ Hreach) | exact id_number_format].
Qed.

Lemma identifiers_are_unique_witness :
  reachable (fl 1000) account_with_btc
  /\ NoDup (all_ids account_with_btc)
  /\ (List.length (positions account_with_btc)
      + List.length (trades account_with_btc)
      = trade_counter account_with_btc)%nat.
Proof.
  split; [exact account_with_btc_reachable|].
  destruct (identifiers_are_unique (fl 1000) account_with_btc
              account_with_btc_reachable) as (Hnd & _ & Hcount & _).
  split; assumption.
Defined.

(* ------------------------------------------------------------------ *)
(** ** Step 4 of [run], signal by signal *)

Section BalanceInCycle.
Import DictFacts.

Lemma admit_signal_balance (st : Bot) (signal : Signal) (now : Timestamp) :
  admit_signal st signal now = st
  \/ (admit_signal st signal now = opened_state st signal now
      /\ Dict.mem (sig_symbol signal) (positions st) = false
      /\ sig_size signal <= balance st).
Proof.
  rewrite admit_signal_cases. destruct (passes_checks st signal) eqn:E;
    [right | left; reflexivity].
  unfold passes_checks in E.
  apply andb_true_iff in E as [E E3]. apply andb_true_iff in E as [_ E2].
  apply negb_true_iff in E2. apply negb_true_iff in E3. apply ltb_ge in E3.
  split; [reflexivity | split; assumption].
Qed.

Lemma admit_signals_app (st : Bot) (xs ys : list Signal)
    (clock : nat -> Timestamp) :
  admit_signals st (xs ++ ys) clock
  = admit_signals (admit_signals st xs clock) ys clock.
Proof. unfold admit_signals. apply fold_left_app. Qed.

End BalanceInCycle.

(* ------------------------------------------------------------------ *)
(** ** Runs of [update_positions] *)

Section Runs.
Import DictFacts.

Variable b0 : float.
Variable prices : Dict.t PriceQuote.
Variable clock : nat -> Timestamp.

(** An iteration on an open position raises only for an entry price of
    zero. *)
Lemma check_position_raise (s : Bot) (k : string) (p : Position) (e : exn) :
  positions_wf (positions s) ->
  In (k, p) (Dict.items (positions s)) ->
  check_position prices clock s (k, p) = Raise e ->
  e = ZeroDivisionError
  /\ Dict.mem k prices = true
  /\ pos_entry_price p = 0.
Proof.
  intros Hwf Hin Hraise.
  assert (Hopen : Dict.mem (pos_symbol p) (positions s) = true)
    by (apply mem_get; exists p; exact (wf_get _ _ _ Hwf Hin)).
  destruct (Qc_eq_dec (pos_entry_price p) 0) as [Hzero|Hnonzero].
  - unfold check_position in Hraise.
    destruct (Dict.get k prices) as [quote|] eqn:Hq; [|discriminate].
    rewrite (pnl_pct_of_zero_entry _ _ Hzero) in Hraise.
    cbn [bind] in Hraise. injection Hraise as <-.
    split; [reflexivity|]. split; [apply mem_get; eauto | exact Hzero].
  - destruct (check_position_total prices clock s k p Hopen
                (fun _ => Hnonzero)) as [s1 Hok].
    rewrite Hok in Hraise. discriminate.
Qed.

(** The loop, as a run over open positions of reachable states. *)
Lemma loop_run_complete (items : list (string * Position)) :
  forall s,
    reachable b0 s ->
    NoDup (map fst items) ->
    (forall item, In item items -> In item (Dict.items (positions s))) ->
    loop_run b0 prices clock s items
      (for_each (check_position prices clock) items s).
Proof.
  induction items as [|[k p] rest IH]; intros s Hreach Hnd Hsub.
  - apply loop_done.
  - inversion Hnd as [|? ? Hk Hnd']; subst.
    assert (Hin : In (k, p) (Dict.items (positions s)))
      by (apply Hsub; left; reflexivity).
    pose proof (reachable_wf _ _ Hreach) as Hwf.
    cbn [for_each].
    destruct (check_position prices clock s (k, p)) as [s1|e] eqn:Hstep;
      cbn [bind]; [|apply loop_raise; assumption].
    apply (loop_step _ _ _ s s1); try assumption.
    destruct (check_position_step _ _ _ _ _ _ Hstep)
      as [-> | (_ & exit_price & reason & pnl_pct & now & Hclose)].
    + apply IH; auto. intros item H. apply Hsub. right. exact H.
    + pose proof (close_position_ok _ _ _ _ _ _ _ Hclose)
        as (_ & _ & Hpos & _).
      apply IH; auto.
      * exact (reach_close _ _ _ _ _ _ _ _ _ Hreach Hin Hclose).
      * intros [k' p'] Hin'. unfold Dict.items.
        rewrite Hpos, (wf_symbol _ _ _ Hwf Hin). apply in_del.
        -- intros ->. apply Hk. apply (in_map fst) in Hin'. exact Hin'.
        -- apply Hsub. right. exact Hin'.
Qed.

(** A run that raises: only [ZeroDivisionError], for a quoted position with
    entry price zero. *)
Lemma loop_run_raise (s : Bot) (items : list (string * Position))
    (r : result Bot) :
  loop_run b0 prices clock s items r ->
  forall e, r = Raise e ->
    e = ZeroDivisionError
    /\ exists k p, In (k, p) items
                   /\ Dict.mem k prices = true /\ pos_entry_price p = 0.
Proof.
  induction 1 as [s|s s1 k p rest r Hreach Hin Hk Hstep Hrun IH
                  |s k p rest e' Hreach Hin Hstep]; intros e E.
  - discriminate.
  - destruct (IH e E) as (He & k' & p' & Hin' & H1 & H2).
    split; [exact He|]. exists k', p'. split; [right; exact Hin' | auto].
  - injection E as ->.
    destruct (check_position_raise _ _ _ _ (reachable_wf _ _ Hreach) Hin
                Hstep) as (He & H1 & H2).
    split; [exact He|]. exists k, p. split; [left; reflexivity | auto].
Qed.

(** A run that returns has opened nothing. *)
Lemma loop_run_ok (s : Bot) (items : list (string * Position))
    (r : result Bot) :
  loop_run b0 prices clock s items r ->
  forall s', r = Ok s' ->
    incl (Dict.items (positions s')) (Dict.items (positions s)).
Proof.
  induction 1 as [s|s s1 k p rest r Hreach Hin Hk Hstep Hrun IH
                  |s k p rest e' Hreach Hin Hstep]; intros s' E.
  - injection E as <-. apply incl_refl.
  - pose proof (IH s' E) as Hincl.
    destruct (check_position_step _ _ _ _ _ _ Hstep)
      as [-> | (_ & exit_price & reason & pnl_pct & now & Hclose)];
      [exact Hincl|].
    pose proof (close_position_ok _ _ _ _ _ _ _ Hclose)
      as (_ & _ & Hpos & _).
    intros item Hitem. apply Hincl in Hitem. unfold Dict.items in *.
    rewrite Hpos in Hitem. exact (in_del_inv _ _ _ Hitem).
  - discriminate.
Qed.

End Runs.

Section RunFacts.

Variable b0 : float.
Variable prices : Dict.t PriceQuote.
Variable clock : nat -> Timestamp.

(** In a run that returns, no quoted item has entry price zero. *)
Lemma loop_run_ok_entries (s : Bot) (items : list (string * Position))
    (r : result Bot) :
  loop_run b0 prices clock s items r ->
  forall s', r = Ok s' ->
    forall k p, In (k, p) items -> Dict.mem k prices = true ->
                pos_entry_price p <> 0.
Proof.
  induction 1 as [s|s s1 k p rest r Hreach Hin Hk Hstep Hrun IH
                  |s k p rest e' Hreach Hin Hstep]; intros s' E k' p' Hin'.
  - destruct Hin'.
  - destruct Hin' as [[= <- <-]|Hin']; [|exact (IH s' E k' p' Hin')].
    intros Hmem Hzero. apply DictFacts.mem_get in Hmem as [quote Hq].
    unfold check_position in Hstep.
    rewrite Hq, (pnl_pct_of_zero_entry _ _ Hzero) in Hstep. discriminate.
  - discriminate.
Qed.

Lemma update_positions_run (st : Bot) :
  reachable b0 st ->
  loop_run b0 prices clock st (Dict.items (positions st))
    (update_positions st prices clock).
Proof.
  intros Hreach. unfold update_positions. apply loop_run_complete.
  - exact Hreach.
  - exact (proj1 (reachable_wf _ _ Hreach)).
  - auto.
Qed.

End RunFacts.

(** X12.  [update_positions] raises exactly when some open position that has a
    quote has entry price zero; the exception is then [ZeroDivisionError],
    never [KeyError]. *)
Theorem evaluation_raises_for_zero_entry (b0 : float) (st : Bot)
    (prices : Dict.t PriceQuote) (clock : nat -> Timestamp) :
  reachable b0 st ->
  ((exists e, update_positions st prices clock = Raise e)
   <-> exists k p,
         In (k, p) (Dict.items (positions st))
         /\ Dict.mem k prices = true
         /\ pos_entry_price p = 0)
  /\ (forall e, update_positions st prices clock = Raise e ->
                e = ZeroDivisionError).
Proof.
  intros Hreach.
  pose proof (update_positions_run b0 prices clock st Hreach) as Hloop.
  split; [split|].
  - intros [e He].
    exact (proj2 (loop_run_raise _ _ _ _ _ _ Hloop e He)).
  - intros (k & p & Hin & Hmem & Hzero).
    destruct (update_positions st prices clock) as [st'|e] eqn:Hrun;
      [|exists e; reflexivity].
    exfalso.
    exact (loop_run_ok_entries _ _ _ _ _ _ Hloop st' eq_refl k p Hin Hmem
             Hzero).
  - intros e He.
    exact (proj1 (loop_run_raise _ _ _ _ _ _ Hloop e He)).
Qed.

Lemma evaluation_raises_for_zero_entry_witness :
  reachable (fl 1000) account_with_zero_entry
  /\ update_positions account_with_zero_entry btc_up_prices fixed_clock
     = Raise ZeroDivisionError.
Proof.
  assert (Hreach : reachable (fl 1000) account_with_zero_entry)
    by (apply reach_admit; apply reach_init).
  split; [exact Hreach|].
  destruct (evaluation_raises_for_zero_entry (fl 1000)
              account_with_zero_entry btc_up_prices fixed_clock Hreach)
    as [[_ Hraise] Honly].
  destruct Hraise as [e He].
  - exists "BTC", (new_position (init (fl 1000)) zero_entry_signal
                     "2026-01-01T00:00:00").
    split; [left; reflexivity|]. split; reflexivity.
  - rewrite He. rewrite (Honly e He). reflexivity.
Defined.

(* ------------------------------------------------------------------ *)
(** ** One iteration of the loop of [run] *)

Section CycleOutcome.
Import DictFacts.

Lemma pnl_pct_of_raise (position : Position) (current_price : float)
    (e : exn) :
  pnl_pct_of position current_price = Raise e -> e = ZeroDivisionError.
Proof.
  unfold pnl_pct_of, py_div.
  destruct (String.eqb (pos_side position) "BUY");
    destruct (eqb (pos_entry_price position) 0); cbn [bind];
    intros [= <-] || discriminate; reflexivity.
Qed.

Lemma summary_loop_raise (prices : Dict.t PriceQuote)
    (items : list (string * Position)) (e : exn) :
  for_each
    (fun (_ : unit) (item : string * Position) =>
       let (symbol, pos) := item in
       match Dict.get symbol prices with
       | None => Ok tt
       | Some quote => _ <- pnl_pct_of pos (mid quote) ;; Ok tt
       end)
    items tt = Raise e ->
  e = ZeroDivisionError.
Proof.
  induction items as [|[k p] rest IH]; [discriminate|].
  cbn [for_each]. destruct (Dict.get k prices) as [quote|].
  - destruct (pnl_pct_of p (mid quote)) as [pnl_pct|e'] eqn:E; cbn [bind].
    + exact IH.
    + intros [= <-]. exact (pnl_pct_of_raise _ _ _ E).
  - cbn [bind]. exact IH.
Qed.

Lemma summary_loop_ok (prices : Dict.t PriceQuote)
    (items : list (string * Position)) :
  (forall k p, In (k, p) items -> Dict.mem k prices = true ->
               pos_entry_price p <> 0) ->
  for_each
    (fun (_ : unit) (item : string * Position) =>
       let (symbol, pos) := item in
       match Dict.get symbol prices with
       | None => Ok tt
       | Some quote => _ <- pnl_pct_of pos (mid quote) ;; Ok tt
       end)
    items tt = Ok tt.
Proof.
  induction items as [|[k p] rest IH]; intros H; [reflexivity|].
  cbn [for_each].
  assert (Hrest : forall k' p', In (k', p') rest ->
            Dict.mem k' prices = true -> pos_entry_price p' <> 0)
    by (intros k' p' Hin; apply H; right; exact Hin).
  destruct (Dict.get k prices) as [quote|] eqn:Hq; cbn [bind]; [|auto].
  destruct (pnl_pct_of_total p (mid quote)) as [pnl_pct ->].
  { apply (H k p (or_introl eq_refl)). apply mem_get. eauto. }
  cbn [bind]. auto.
Qed.

Lemma print_summary_raise (st : Bot) (prices : Dict.t PriceQuote) (e : exn) :
  print_summary st prices = Raise e -> e = ZeroDivisionError.
Proof.
  unfold print_summary, py_div.
  destruct (eqb (initial_balance st) 0); cbn [bind].
  - intros [= <-]. reflexivity.
  - apply summary_loop_raise.
Qed.

Lemma print_summary_ok (st : Bot) (prices : Dict.t PriceQuote) :
  initial_balance st <> 0 ->
  (forall k p, In (k, p) (Dict.items (positions st)) ->
               Dict.mem k prices = true -> pos_entry_price p <> 0) ->
  print_summary st prices = Ok tt.
Proof.
  intros Hinit Hentries. unfold print_summary.
  rewrite (py_div_ok _ _ Hinit). cbn [bind].
  apply summary_loop_ok. exact Hentries.
Qed.

Lemma print_summary_zero (st : Bot) (prices : Dict.t PriceQuote) :
  initial_balance st = 0 ->
  print_summary st prices = Raise ZeroDivisionError.
Proof.
  intros H. unfold print_summary. rewrite H. reflexivity.
Qed.

Lemma admit_signal_trades (st : Bot) (signal : Signal) (now : Timestamp) :
  trades (admit_signal st signal now) = trades st
  /\ (trade_counter st <= trade_counter (admit_signal st signal now))%nat.
Proof.
  rewrite admit_signal_cases. destruct (passes_checks st signal); simpl;
    split; auto.
Qed.

Lemma admit_signals_trades (clock : nat -> Timestamp)
    (signals : list Signal) :
  forall st,
    trades (admit_signals st signals clock) = trades st
    /\ (trade_counter st
        <= trade_counter (admit_signals st signals clock))%nat.
Proof.
  unfold admit_signals.
  induction signals as [|signal rest IH]; intros st; [split; auto|].
  cbn [fold_left].
  destruct (IH (admit_signal st signal (clock (clock_reads st))))
    as [Ht Hc].
  destruct (admit_signal_trades st signal (clock (clock_reads st)))
    as [Ht' Hc'].
  split; [congruence | lia].
Qed.

Lemma entries_admit_signal (st : Bot) (signal : Signal) (now : Timestamp) :
  entries_nonzero st -> sig_price signal <> 0 ->
  entries_nonzero (admit_signal st signal now).
Proof.
  intros Hentries Hprice.
  destruct (admit_signal_balance st signal now) as [-> | (-> & Hmem & _)];
    [exact Hentries|].
  unfold entries_nonzero. simpl positions. rewrite (set_absent _ _ _ Hmem).
  apply Forall_app. split; [exact Hentries|].
  constructor; [exact Hprice | constructor].
Qed.

Lemma entries_admit_signals (clock : nat -> Timestamp)
    (signals : list Signal) :
  Forall (fun signal => sig_price signal <> 0) signals ->
  forall st, entries_nonzero st ->
             entries_nonzero (admit_signals st signals clock).
Proof.
  unfold admit_signals.
  induction 1 as [|signal rest Hprice _ IH]; intros st Hst; [exact Hst|].
  cbn [fold_left]. apply IH. apply entries_admit_signal; assumption.
Qed.

Lemma generated_prices_nonzero (st : Bot) (sweeps : list Sweep)
    (prices : Dict.t PriceQuote) :
  quotes_nonzero prices ->
  Forall (fun signal => sig_price signal <> 0)
    (generate_signals st sweeps prices).
Proof.
  intros Hquotes. apply Forall_forall. intros signal Hin.
  destruct (generated_signal_facts _ _ _ _ Hin)
    as (_ & (quote & Hq & ->) & _).
  unfold quotes_nonzero in Hquotes. rewrite Forall_forall in Hquotes.
  exact (Hquotes _ (get_in _ _ _ Hq)).
Qed.

End CycleOutcome.

(** The iteration returns when nothing can divide by zero. *)
Lemma run_cycle_returns (b0 : float) (st : Bot)
    (prices : Dict.t PriceQuote) (sweeps : list Sweep)
    (clock : nat -> Timestamp) :
  reachable b0 st ->
  b0 <> 0 -> entries_nonzero st -> quotes_nonzero prices ->
  exists st',
    run_cycle st prices sweeps clock = Ok st'
    /\ reachable b0 st'
    /\ entries_nonzero st'
    /\ (exists closed, trades st' = trades st ++ closed)
    /\ (trade_counter st <= trade_counter st')%nat.
Proof.
  intros Hreach Hb0 Hentries Hquotes. unfold run_cycle.
  destruct prices as [|quote rest].
  { exists st. split; [reflexivity|]. split; [exact Hreach|].
    split; [exact Hentries|]. split; [|lia].
    exists []. rewrite app_nil_r. reflexivity. }
  set (quotes := quote :: rest) in *.
  set (st1 := admit_signals st (generate_signals st sweeps quotes) clock).
  assert (Hreach1 : reachable b0 st1)
    by (apply admit_signals_reachable; exact Hreach).
  assert (Hentries1 : entries_nonzero st1).
  { apply entries_admit_signals; [|exact Hentries].
    apply generated_prices_nonzero. exact Hquotes. }
  destruct (admit_signals_trades clock (generate_signals st sweeps quotes)
              st) as [Htrades1 Hcount1]. fold st1 in Htrades1, Hcount1.
  assert (Hnonzero1 : forall k p,
             In (k, p) (Dict.items (positions st1)) ->
             Dict.mem k quotes = true -> pos_entry_price p <> 0).
  { intros k p Hin _. unfold entries_nonzero in Hentries1.
    rewrite Forall_forall in Hentries1. exact (Hentries1 _ Hin). }
  destruct (update_positions_total b0 st1 quotes clock Hreach1 Hnonzero1)
    as [st2 Hrun].
  rewrite Hrun. cbn [bind].
  destruct (update_positions_spec _ _ _ _ _ Hreach1 Hrun)
    as (Hreach2 & closed & Ht & _ & _ & _ & _ & Htc).
  pose proof (update_positions_run b0 quotes clock st1 Hreach1) as Hloop.
  pose proof (loop_run_ok _ _ _ _ _ _ Hloop st2 Hrun) as Hincl.
  assert (Hentries2 : entries_nonzero st2).
  { unfold entries_nonzero in *. rewrite Forall_forall in *.
    intros item Hin. apply Hentries1. exact (Hincl item Hin). }
  rewrite print_summary_ok.
  + cbn [bind]. exists st2. split; [reflexivity|].
    split; [exact Hreach2|]. split; [exact Hentries2|].
    split; [exists closed; congruence | lia].
  + rewrite (proj1 (reachable_parameters _ _ Hreach2)). exact Hb0.
  + intros k p Hin _. unfold entries_nonzero in Hentries2.
    rewrite Forall_forall in Hentries2. exact (Hentries2 _ Hin).
Qed.

(** X13.  An iteration of the loop of [run] in a reachable state never raises
    [KeyError]; all it can raise is [ZeroDivisionError].  When the initial
    balance is not zero, no open position has entry price zero and no quote
    has mid price zero (as for the quotes of [get_all_prices]), the
    iteration returns: the new state is reachable, again without entry
    price zero, its trades extend those before and its counter has not
    decreased.  Without quotes the iteration returns the state unchanged. *)
Theorem run_cycle_outcome (b0 : float) (st : Bot)
    (prices : Dict.t PriceQuote) (sweeps : list Sweep)
    (clock : nat -> Timestamp) :
  reachable b0 st ->
  (forall e, run_cycle st prices sweeps clock = Raise e ->
             e = ZeroDivisionError)
  /\ (b0 <> 0 -> entries_nonzero st -> quotes_nonzero prices ->
      exists st',
        run_cycle st prices sweeps clock = Ok st'
        /\ reachable b0 st'
        /\ entries_nonzero st'
        /\ (exists closed, trades st' = trades st ++ closed)
        /\ (trade_counter st <= trade_counter st')%nat)
  /\ (prices = [] -> run_cycle st prices sweeps clock = Ok st).
Proof.
  intros Hreach. split; [|split].
  - intros e. unfold run_cycle.
    destruct prices as [|quote rest]; [discriminate|].
    set (quotes := quote :: rest).
    set (st1 := admit_signals st (generate_signals st sweeps quotes) clock).
    assert (Hreach1 : reachable b0 st1)
      by (apply admit_signals_reachable; exact Hreach).
    destruct (update_positions st1 quotes clock) as [st2|e'] eqn:Hrun;
      cbn [bind].
    + destruct (print_summary st2 quotes) as [[]|e''] eqn:Hprint; cbn [bind];
        [discriminate|].
      intros [= <-]. exact (print_summary_raise _ _ _ Hprint).
    + intros [= <-].
      pose proof (update_positions_run b0 quotes clock st1 Hreach1) as Hloop.
      exact (proj1 (loop_run_raise _ _ _ _ _ _ Hloop e' Hrun)).
  - exact (run_cycle_returns b0 st prices sweeps clock Hreach).
  - intros ->. reflexivity.
Qed.

Lemma run_cycle_outcome_witness :
  reachable (fl 1000) (init (fl 1000))
  /\ exists st',
       run_cycle (init (fl 1000)) btc_up_prices btc_batch fixed_clock = Ok st'
       /\ reachable (fl 1000) st'.
Proof.
  split; [apply reach_init|].
  destruct (proj1 (proj2 (run_cycle_outcome (fl 1000) (init (fl 1000))
                            btc_up_prices btc_batch fixed_clock
                            (reach_init _))))
    as (st' & Hrun & Hreach & _).
  - apply eqb_neq. vm_compute. reflexivity.
  - constructor.
  - repeat constructor. apply eqb_neq. vm_compute. reflexivity.
  - exists st'. split; assumption.
Defined.

(** X14.  A bot constructed with an initial balance of zero does not survive its
    first iteration with quotes: [print_summary] divides the total P&L by
    the initial balance, and [run] catches [KeyboardInterrupt] only. *)
Theorem zero_initial_balance_crashes (st : Bot)
    (prices : Dict.t PriceQuote) (sweeps : list Sweep)
    (clock : nat -> Timestamp) :
  reachable 0 st ->
  prices <> [] ->
  run_cycle st prices sweeps clock = Raise ZeroDivisionError.
Proof.
  intros Hreach Hprices.
  destruct (run_cycle st prices sweeps clock) as [st'|e] eqn:Hcycle.
  - exfalso. unfold run_cycle in Hcycle.
    destruct prices as [|quote rest]; [congruence|].
    destruct (update_positions _ (quote :: rest) clock) as [st2|e] eqn:Hrun;
      cbn [bind] in Hcycle; [|discriminate].
    rewrite print_summary_zero in Hcycle; [discriminate|].
    assert (Hreach2 : reachable 0 st2).
    { refine (proj1 (update_positions_spec _ _ _ _ _ _ Hrun)).
      apply admit_signals_reachable. exact Hreach. }
    exact (proj1 (reachable_parameters _ _ Hreach2)).
  - f_equal. unfold run_cycle in Hcycle.
    destruct prices as [|quote rest]; [discriminate|].
    set (quotes := quote :: rest) in *.
    set (st1 := admit_signals st (generate_signals st sweeps quotes) clock)
      in *.
    assert (Hreach1 : reachable 0 st1)
      by (apply admit_signals_reachable; exact Hreach).
    destruct (update_positions st1 quotes clock) as [st2|e'] eqn:Hrun;
      cbn [bind] in Hcycle.
    + destruct (print_summary st2 quotes) as [[]|e''] eqn:Hprint;
        cbn [bind] in Hcycle; [discriminate|].
      injection Hcycle as <-. exact (print_summary_raise _ _ _ Hprint).
    + injection Hcycle as <-.
      pose proof (update_positions_run 0 quotes clock st1 Hreach1) as Hloop.
      exact (proj1 (loop_run_raise _ _ _ _ _ _ Hloop e' Hrun)).
Qed.

Lemma zero_initial_balance_crashes_witness :
  reachable 0 (init 0)
  /\ btc_up_prices <> []
  /\ run_cycle (init 0) btc_up_prices [] fixed_clock
     = Raise ZeroDivisionError.
Proof.
  assert (Hprices : btc_up_prices <> []) by discriminate.
  split; [apply reach_init|]. split; [exact Hprices|].
  exact (zero_initial_balance_crashes (init 0) btc_up_prices []
           fixed_clock (reach_init _) Hprices).
Defined.

(* ------------------------------------------------------------------ *)
(** ** The state file *)

(** X15.  What [save_state] writes is what [load_state] reads back: a bot
    constructed with the same initial balance over the file saved from a
    reachable state is in that state again.  The initial balance is not in
    the file: constructed with another one, the bot has the saved balance,
    positions, trades and counter, and the initial balance it was given.
    Without a file, or with a file that cannot be read, or with a document
    that has none of the keys, the bot starts afresh. *)
Theorem restart_restores_account (b0 : float) (st : Bot) (now : Timestamp) :
  reachable b0 st ->
  construct b0 (Stored (save_state st now)) = st
  /\ (forall b1,
        balance (construct b1 (Stored (save_state st now))) = balance st
        /\ positions (construct b1 (Stored (save_state st now)))
           = positions st
        /\ trades (construct b1 (Stored (save_state st now))) = trades st
        /\ trade_counter (construct b1 (Stored (save_state st now)))
           = trade_counter st
        /\ initial_balance (construct b1 (Stored (save_state st now))) = b1
        /\ construct b1 NoFile = init b1
        /\ construct b1 Unreadable = init b1
        /\ construct b1 (Stored empty_document) = init b1).
Proof.
  intros Hreach. split.
  - destruct (reachable_parameters _ _ Hreach)
      as (E1 & E2 & E3 & E4 & E5 & E6).
    destruct st. cbn in *. subst. reflexivity.
  - intros b1. repeat split; reflexivity.
Qed.

Lemma restart_restores_account_witness :
  reachable (fl 1000) account_with_btc
  /\ construct (fl 1000) (Stored (save_state account_with_btc "t1"))
     = account_with_btc.
Proof.
  split; [exact account_with_btc_reachable|].
  exact (proj1 (restart_restores_account (fl 1000) account_with_btc "t1"
                  account_with_btc_reachable)).
Defined.

(* ------------------------------------------------------------------ *)
(** ** Closing twice, and opening again *)

(** X16.  Once an open position of a reachable state is closed, closing it again
    raises [KeyError], and its symbol is free again: a signal for that
    symbol whose confidence passes the gate and whose size is at most the
    balance is admitted. *)
Theorem close_then_reopen (b0 : float) (st st' : Bot) (symbol : string)
    (position : Position) (exit_price : float) (reason : string)
    (pnl_pct : float) (now : Timestamp) :
  reachable b0 st ->
  In (symbol, position) (Dict.items (positions st)) ->
  close_position st position exit_price reason pnl_pct now = Ok st' ->
  (forall exit_price' reason' pnl_pct' now',
     close_position st' position exit_price' reason' pnl_pct' now'
     = Raise KeyError)
  /\ (forall signal now',
        sig_symbol signal = symbol ->
        min_confidence st' <= sig_confidence signal ->
        sig_size signal <= balance st' ->
        admitted st' signal now' = true
        /\ Dict.get symbol (positions (admit_signal st' signal now'))
           = Some (new_position st' signal now')).
Proof.
  intros Hreach Hin Hclose.
  pose proof (reachable_wf _ _ Hreach) as Hwf.
  pose proof (wf_symbol _ _ _ Hwf Hin) as Hsym.
  pose proof (close_position_ok _ _ _ _ _ _ _ Hclose) as (_ & _ & Hpos & _).
  assert (Hfree : Dict.mem symbol (positions st') = false).
  { apply DictFacts.not_mem_get. rewrite Hpos, Hsym.
    apply DictFacts.get_del_same. exact (proj1 Hwf). }
  split.
  - intros exit_price' reason' pnl_pct' now'.
    apply close_position_key_error. rewrite Hsym. exact Hfree.
  - intros signal now' Esym Hconf Hsize.
    assert (Hpass : passes_checks st' signal = true).
    { unfold passes_checks. rewrite Esym, Hfree.
      apply leb_le in Hconf. apply ltb_ge in Hsize.
      rewrite Hconf, Hsize. reflexivity. }
    rewrite admitted_iff_passes, admit_signal_cases, Hpass.
    split; [reflexivity|]. simpl positions. rewrite <- Esym.
    apply DictFacts.get_set_same.
Qed.

Lemma close_then_reopen_witness :
  exists st',
    close_position account_with_btc btc_position (fl 50310) "TAKE_PROFIT"
      (fl 0.62) "t1" = Ok st'
    /\ close_position st' btc_position (fl 50310) "TAKE_PROFIT" (fl 0.62)
         "t2" = Raise KeyError.
Proof.
  assert (Hclose : exists st',
             close_position account_with_btc btc_position (fl 50310)
               "TAKE_PROFIT" (fl 0.62) "t1" = Ok st')
    by (eexists; reflexivity).
  destruct Hclose as [st' Hclose]. exists st'. split; [exact Hclose|].
  apply (proj1 (close_then_reopen (fl 1000) account_with_btc st' "BTC"
                  btc_position (fl 50310) "TAKE_PROFIT" (fl 0.62) "t1"
                  account_with_btc_reachable (or_introl eq_refl) Hclose)).
Defined.

(* ------------------------------------------------------------------ *)
(** ** The loop of [run] never stops on an exception *)

Section Running.

Lemma get_all_prices_nonzero (st : Bot)
    (fetch : string -> option (float * float)) :
  quotes_nonzero (get_all_prices st fetch).
Proof.
  apply Forall_forall. intros [k q] Hin. simpl.
  apply (DictFacts.in_get _ _ _ (get_all_prices_nodup st fetch)) in Hin.
  unfold get_all_prices in Hin. rewrite get_all_prices_fold in Hin.
  destruct (existsb (String.eqb k) (symbols st)); [|discriminate].
  destruct (get_hyperliquid_price k (fetch k)) as [quote|] eqn:E;
    [|discriminate].
  injection Hin as <-.
  exact (proj1 (proj2 (proj2 (proj2 (quote_fields _ _ _ E))))).
Qed.

Lemma running_invariant (b0 : float) (st : Bot) :
  b0 <> 0 -> running b0 st -> reachable b0 st /\ entries_nonzero st.
Proof.
  intros Hb0. induction 1 as [|st st' fetch sweeps clock _ [IHr IHe] Hrun].
  - split; [apply reach_init | constructor].
  - destruct (run_cycle_returns b0 st (get_all_prices st fetch) sweeps clock
                IHr Hb0 IHe (get_all_prices_nonzero st fetch))
      as (st2 & Hrun2 & Hr & He & _).
    rewrite Hrun in Hrun2. injection Hrun2 as <-. split; assumption.
Qed.

End Running.

(** X17.  A bot started without state file on an initial balance that is not zero
    never stops on an exception: whatever the exchange and the sweep feed
    return, in every state that the loop of [run] reaches the next iteration
    returns, in a state of the loop again. *)
Theorem run_never_crashes (b0 : float) (st : Bot)
    (fetch : string -> option (float * float)) (sweeps : list Sweep)
    (clock : nat -> Timestamp) :
  b0 <> 0 ->
  running b0 st ->
  exists st',
    run_cycle st (get_all_prices st fetch) sweeps clock = Ok st'
    /\ running b0 st'.
Proof.
  intros Hb0 Hrunning.
  destruct (running_invariant b0 st Hb0 Hrunning) as [Hreach Hentries].
  destruct (run_cycle_returns b0 st (get_all_prices st fetch) sweeps clock
              Hreach Hb0 Hentries (get_all_prices_nonzero st fetch))
    as (st' & Hrun & _).
  exists st'. split; [exact Hrun|].
  exact (running_cycle b0 st st' fetch sweeps clock Hrunning Hrun).
Qed.

Lemma run_never_crashes_witness :
  fl 1000 <> 0
  /\ running (fl 1000) (init (fl 1000))
  /\ exists st',
       run_cycle (init (fl 1000))
         (get_all_prices (init (fl 1000)) steady_book) btc_batch fixed_clock
       = Ok st'.
Proof.
  assert (Hb0 : fl 1000 <> 0) by (apply eqb_neq; vm_compute; reflexivity).
  split; [exact Hb0|]. split; [apply running_start|].
  destruct (run_never_crashes (fl 1000) (init (fl 1000)) steady_book
              btc_batch fixed_clock Hb0 (running_start _))
    as (st' & Hrun & _).
  exists st'. exact Hrun.
Defined.

(* ------------------------------------------------------------------ *)
(** ** The first signal for a symbol wins *)

Section FirstWins.
Import DictFacts.

Lemma admit_signal_keeps (st : Bot) (signal : Signal) (now : Timestamp)
    (k : string) (p : Position) :
  Dict.get k (positions st) = Some p ->
  Dict.get k (positions (admit_signal st signal now)) = Some p.
Proof.
  intros Hget.
  destruct (admit_signal_balance st signal now) as [-> | (-> & Hmem & _)];
    [exact Hget|].
  simpl positions. rewrite get_set_other; [exact Hget|].
  intros ->. apply not_mem_get in Hmem. congruence.
Qed.

Lemma admit_signals_keeps (clock : nat -> Timestamp) (signals : list Signal)
    (k : string) (p : Position) :
  forall st,
    Dict.get k (positions st) = Some p ->
    Dict.get k (positions (admit_signals st signals clock)) = Some p.
Proof.
  unfold admit_signals.
  induction signals as [|signal rest IH]; intros st Hget; [exact Hget|].
  cbn [fold_left]. apply IH. apply admit_signal_keeps. exact Hget.
Qed.

End FirstWins.

(** X19.  In step 4 of [run], a position that a signal of the batch opens is still
    the position of its symbol when the batch is done, and every later
    signal of the batch for that symbol leaves the account as it finds
    it. *)
Theorem first_signal_wins (st : Bot) (before after : list Signal)
    (signal : Signal) (clock : nat -> Timestamp) (s : Bot) (now : Timestamp) :
  s = admit_signals st before clock ->
  now = clock (clock_reads s) ->
  admitted s signal now = true ->
  Dict.get (sig_symbol signal)
    (positions (admit_signals st (before ++ signal :: after) clock))
  = Some (new_position s signal now)
  /\ forall between later rest,
       after = between ++ later :: rest ->
       sig_symbol later = sig_symbol signal ->
       forall now',
         admit_signal
           (admit_signals st (before ++ signal :: between) clock) later now'
         = admit_signals st (before ++ signal :: between) clock.
Proof.
  intros Hs Hnow Hadm.
  assert (Hopened : Dict.get (sig_symbol signal)
                      (positions (admit_signal s signal now))
                    = Some (new_position s signal now)).
  { rewrite admitted_iff_passes in Hadm.
    rewrite admit_signal_cases, Hadm. apply DictFacts.get_set_same. }
  assert (Hafter : forall rest,
             Dict.get (sig_symbol signal)
               (positions (admit_signals st (before ++ signal :: rest) clock))
             = Some (new_position s signal now)).
  { intros rest. rewrite admit_signals_app, <- Hs.
    unfold admit_signals at 1. cbn [fold_left]. rewrite <- Hnow.
    apply (admit_signals_keeps clock rest). exact Hopened. }
  split; [apply Hafter|].
  intros between later rest _ Hsym now'.
  apply admit_duplicate. rewrite Hsym.
  apply DictFacts.mem_get. eexists. apply Hafter.
Qed.

Lemma first_signal_wins_witness :
  admitted (init (fl 1000)) btc_buy_signal (fixed_clock 0%nat) = true
  /\ Dict.get "BTC"
       (positions
          (admit_signals (init (fl 1000)) [btc_buy_signal; small_btc_signal]
             fixed_clock))
     = Some (new_position (init (fl 1000)) btc_buy_signal (fixed_clock 0%nat)).
Proof.
  assert (Hadm : admitted (init (fl 1000)) btc_buy_signal
                   (fixed_clock 0%nat) = true) by reflexivity.
  split; [exact Hadm|].
  exact (proj1 (first_signal_wins (init (fl 1000)) [] [small_btc_signal]
                  btc_buy_signal fixed_clock (init (fl 1000))
                  (fixed_clock 0%nat) eq_refl eq_refl Hadm)).
Defined.

(* ------------------------------------------------------------------ *)
(** ** Binary64 comparisons *)

Section Binary64Numbers.

Local Open Scope float_scope.

(** Two floats that compare equal are the same value or two zeros. *)
Lemma SFcompare_Eq (a b : spec_float) :
  SFcompare a b = Some Eq ->
  a = b \/ exists s1 s2, a = S754_zero s1 /\ b = S754_zero s2.
Proof.
  destruct a as [s1|s1| |s1 m1 e1], b as [s2|s2| |s2 m2 e2]; simpl;
    try discriminate;
    try (destruct s1; discriminate); try (destruct s2; discriminate).
  - intros _. right. eauto.
  - destruct s1, s2; intros [=]; left; reflexivity.
  - destruct s1, s2; try discriminate;
      destruct (Z.compare e1 e2) eqn:Ee; try discriminate;
      apply Z.compare_eq in Ee; subst e2; intros [= Em]; left.
    + destruct (Pos.compare_cont Eq m1 m2) eqn:Ec; try discriminate.
      apply Pos.compare_eq in Ec. subst. reflexivity.
    + apply Pos.compare_eq in Em. subst. reflexivity.
Qed.

(** A float that compares equal to another compares with a third as the
    other does. *)
Lemma SFcompare_Eq_r (a b c : spec_float) :
  SFcompare a b = Some Eq -> SFcompare c a = SFcompare c b.
Proof.
  intros H. destruct (SFcompare_Eq _ _ H) as [-> | (s1 & s2 & -> & ->)];
    [reflexivity|].
  destruct c; reflexivity.
Qed.

Lemma SFcompare_Eq_sym (a b : spec_float) :
  SFcompare a b = Some Eq -> SFcompare b a = Some Eq.
Proof.
  intros H. destruct (SFcompare_Eq _ _ H) as [-> | (s1 & s2 & -> & ->)];
    [exact H | reflexivity].
Qed.

Lemma eqb_compare (x y : PrimFloat.float) :
  (x =? y) = true -> SFcompare (Prim2SF x) (Prim2SF y) = Some Eq.
Proof.
  rewrite FloatAxioms.eqb_spec. unfold SFeqb.
  destruct (SFcompare (Prim2SF x) (Prim2SF y)) as [[]|];
    intros; try discriminate; reflexivity.
Qed.

(** [x == y] gives [x <= y] and [y <= x]. *)
Lemma eqb_leb (x y : PrimFloat.float) :
  (x =? y) = true -> (x <=? y) = true.
Proof.
  intros H. apply eqb_compare in H.
  rewrite FloatAxioms.leb_spec. unfold SFleb. rewrite H. reflexivity.
Qed.

Lemma eqb_geb (x y : PrimFloat.float) :
  (x =? y) = true -> (y <=? x) = true.
Proof.
  intros H. apply eqb_compare in H.
  rewrite FloatAxioms.leb_spec. unfold SFleb.
  rewrite (SFcompare_Eq_sym _ _ H). reflexivity.
Qed.

(** A comparison does not tell apart two floats that are [==]. *)
Lemma leb_eqb_r (x y z : PrimFloat.float) :
  (x =? y) = true -> (z <=? x) = (z <=? y).
Proof.
  intros H. apply eqb_compare in H.
  rewrite !FloatAxioms.leb_spec. unfold SFleb.
  rewrite (SFcompare_Eq_r _ _ _ H). reflexivity.
Qed.

End Binary64Numbers.

(* ------------------------------------------------------------------ *)
(** ** The ledger in binary64: steps and the evaluation loop *)

Section Binary64Ledger.
Import Float64.
Import DictFacts.

Local Open Scope float_scope.

Lemma f64_admitted_opens (st : Bot) (signal : Signal) (now : Timestamp) :
  admitted st signal now = true ->
  Dict.mem (sig_symbol signal) (positions st) = false
  /\ (balance st <? sig_size signal) = false
  /\ admit_signal st signal now
     = {| balance := balance st - sig_size signal;
          initial_balance := initial_balance st;
          positions := Dict.set (sig_symbol signal)
                         (new_position st signal now) (positions st);
          trades := trades st;
          trade_counter := S (trade_counter st);
          symbols := symbols st;
          max_position_size := max_position_size st;
          tp_percent := tp_percent st;
          sl_percent := sl_percent st;
          min_confidence := min_confidence st |}.
Proof.
  unfold admitted, admit_signal, open_position.
  destruct (Dict.mem (sig_symbol signal) (positions st)) eqn:Hmem;
    [discriminate|].
  destruct (min_confidence st <=? sig_confidence signal); cbv beta iota;
    [|rewrite Hmem; discriminate].
  destruct (balance st <? sig_size signal); cbv beta iota;
    [rewrite Hmem; discriminate|].
  intros _. repeat split.
Qed.

Lemma f64_admit_signal_cases (st : Bot) (signal : Signal) (now : Timestamp) :
  admit_signal st signal now = st
  \/ admitted st signal now = true.
Proof.
  unfold admitted, admit_signal, open_position.
  destruct (min_confidence st <=? sig_confidence signal); [|left; reflexivity].
  destruct (Dict.mem (sig_symbol signal) (positions st)) eqn:Hmem;
    [left; reflexivity|].
  destruct (balance st <? sig_size signal); [left; reflexivity|].
  right. cbn [negb andb positions]. unfold Dict.mem.
  rewrite get_set_same. reflexivity.
Qed.

Lemma f64_close_position_ok (st st' : Bot) (position : Position)
    (exit_price : PrimFloat.float) (reason : string)
    (pnl_pct : PrimFloat.float) (now : Timestamp) :
  close_position st position exit_price reason pnl_pct now = Ok st' ->
  Dict.mem (pos_symbol position) (positions st) = true
  /\ st' = {| balance := balance st
                         + (pos_size position
                            + pos_size position * (pnl_pct / 100));
              initial_balance := initial_balance st;
              positions := Dict.del (pos_symbol position) (positions st);
              trades := trades st
                        ++ [new_trade position exit_price reason pnl_pct now];
              trade_counter := trade_counter st;
              symbols := symbols st;
              max_position_size := max_position_size st;
              tp_percent := tp_percent st;
              sl_percent := sl_percent st;
              min_confidence := min_confidence st |}.
Proof.
  unfold close_position.
  destruct (Dict.mem (pos_symbol position) (positions st));
    [|discriminate].
  intros [= <-]. split; reflexivity.
Qed.

Lemma f64_close_position_total (st : Bot) (position : Position)
    (exit_price : PrimFloat.float) (reason : string)
    (pnl_pct : PrimFloat.float) (now : Timestamp) :
  Dict.mem (pos_symbol position) (positions st) = true ->
  exists st', close_position st position exit_price reason pnl_pct now
              = Ok st'.
Proof.
  intros H. unfold close_position. rewrite H. eexists. reflexivity.
Qed.

Lemma f64_wf_empty : positions_wf Dict.empty.
Proof. split; constructor. Qed.

Lemma f64_wf_del (k : string) (d : Dict.t Position) :
  positions_wf d -> positions_wf (Dict.del k d).
Proof.
  intros [Hnd Hall]. split; [apply nodup_del; exact Hnd|].
  rewrite Forall_forall in *. intros item Hin. apply Hall.
  exact (in_del_inv _ _ _ Hin).
Qed.

Lemma f64_wf_admit (st : Bot) (signal : Signal) (now : Timestamp) :
  positions_wf (positions st) ->
  positions_wf (positions (admit_signal st signal now)).
Proof.
  intros Hwf.
  destruct (f64_admit_signal_cases st signal now) as [-> | Hadm];
    [exact Hwf|].
  destruct (f64_admitted_opens _ _ _ Hadm) as (Hmem & _ & ->).
  cbn [positions]. destruct Hwf as [Hnd Hall]. split.
  - apply nodup_set_absent; assumption.
  - rewrite (set_absent _ _ _ Hmem). apply Forall_app. split; [exact Hall|].
    constructor; [reflexivity | constructor].
Qed.

Lemma f64_wf_symbol (d : Dict.t Position) (k : string) (p : Position) :
  positions_wf d -> In (k, p) d -> pos_symbol p = k.
Proof.
  intros [_ Hall] Hin. rewrite Forall_forall in Hall. exact (Hall _ Hin).
Qed.

Lemma f64_reachable_wf (b0 : PrimFloat.float) (st : Bot) :
  reachable b0 st -> positions_wf (positions st).
Proof.
  induction 1 as [|st signal now _ IH|st st' symbol position exit_price
                   reason pnl_pct now _ IH _ Hclose].
  - exact f64_wf_empty.
  - apply f64_wf_admit. exact IH.
  - apply f64_close_position_ok in Hclose as [_ ->]. cbn [positions].
    apply f64_wf_del. exact IH.
Qed.

(** The thresholds never change: 0.6 and 3.0. *)
Lemma f64_reachable_parameters (b0 : PrimFloat.float) (st : Bot) :
  reachable b0 st ->
  initial_balance st = b0 /\ tp_percent st = 0.6 /\ sl_percent st = 3.0.
Proof.
  induction 1 as [|st signal now _ IH|st st' symbol position exit_price
                   reason pnl_pct now _ IH _ Hclose].
  - repeat split.
  - destruct (f64_admit_signal_cases st signal now) as [-> | Hadm];
      [exact IH|].
    destruct (f64_admitted_opens _ _ _ Hadm) as (_ & _ & ->). exact IH.
  - apply f64_close_position_ok in Hclose as [_ ->]. exact IH.
Qed.

(** Deleting the key of an entry of a dict without repeated keys removes
    that entry and keeps the order of the others. *)
Lemma del_middle {V : Type} (k : string) (v : V) (before after : Dict.t V) :
  ~ In k (Dict.keys before) ->
  Dict.del k (before ++ (k, v) :: after) = before ++ after.
Proof.
  induction before as [|[k' v'] before IH]; simpl; intros Hk.
  - rewrite String.eqb_refl. reflexivity.
  - destruct (String.eqb k k') eqn:E.
    + apply String.eqb_eq in E. subst. tauto.
    + rewrite IH by tauto. reflexivity.
Qed.

Variable prices : Dict.t PriceQuote.
Variable clock : nat -> Timestamp.

(** One iteration, by the verdict on its position. *)
Lemma f64_check_position_hold (s : Bot) (item : string * Position) :
  verdict_of (tp_percent s) (sl_percent s) prices item = Some Hold ->
  check_position prices clock s item = Ok s.
Proof.
  destruct item as [k p]. unfold verdict_of, check_position, decision.
  cbn [fst snd].
  destruct (Dict.get k prices) as [quote|]; [|reflexivity].
  destruct (pnl_pct_of p (mid quote)) as [pnl_pct|e]; [|discriminate].
  cbn [bind].
  destruct (tp_percent s <=? pnl_pct); [discriminate|].
  destruct (pnl_pct <=? - sl_percent s); [discriminate | reflexivity].
Qed.

Lemma f64_check_position_close (s : Bot) (k : string) (p : Position) :
  closes (tp_percent s) (sl_percent s) prices (k, p) = true ->
  exists quote pnl_pct,
    Dict.get k prices = Some quote
    /\ pnl_pct_of p (mid quote) = Ok pnl_pct
    /\ decision (tp_percent s) (sl_percent s) pnl_pct <> Hold
    /\ check_position prices clock s (k, p)
       = close_position s p (mid quote)
           (reason_of (decision (tp_percent s) (sl_percent s) pnl_pct))
           pnl_pct (clock (clock_reads s)).
Proof.
  unfold closes, verdict_of, check_position, decision. cbn [fst snd].
  destruct (Dict.get k prices) as [quote|]; [|discriminate].
  destruct (pnl_pct_of p (mid quote)) as [pnl_pct|e] eqn:Hpnl;
    [|discriminate].
  cbn [bind]. intros H. exists quote, pnl_pct.
  split; [reflexivity|]. split; [exact Hpnl|].
  destruct (tp_percent s <=? pnl_pct);
    [split; [discriminate | reflexivity]|].
  destruct (pnl_pct <=? - sl_percent s);
    [split; [discriminate | reflexivity] | discriminate].
Qed.

Lemma f64_check_position_raise (s : Bot) (item : string * Position) :
  verdict_of (tp_percent s) (sl_percent s) prices item = None ->
  check_position prices clock s item = Raise ZeroDivisionError.
Proof.
  destruct item as [k p]. unfold verdict_of, check_position, pnl_pct_of.
  cbn [fst snd].
  destruct (Dict.get k prices) as [quote|]; [|discriminate].
  unfold py_div.
  destruct (String.eqb (pos_side p) "BUY");
    destruct (pos_entry_price p =? 0); cbn [bind];
    try discriminate; reflexivity.
Qed.

(** The three verdicts on an item. *)
Lemma f64_verdict_cases (tp sl : PrimFloat.float) (item : string * Position) :
  (verdict_of tp sl prices item = None
   /\ holds tp sl prices item = false /\ closes tp sl prices item = false)
  \/ (verdict_of tp sl prices item = Some Hold
      /\ holds tp sl prices item = true /\ closes tp sl prices item = false)
  \/ (holds tp sl prices item = false /\ closes tp sl prices item = true).
Proof.
  unfold holds, closes.
  destruct (verdict_of tp sl prices item) as [[]|]; auto.
Qed.

(** The loop of [update_positions], from any point of its run: [held] are
    the entries visited and kept, [items] the entries still to be visited.
    The run returns, having kept the entries whose verdict is [Hold], in
    their order, and having appended one trade for each of the others, in
    their order, crediting each to the balance. *)
Lemma f64_update_loop (tp sl : PrimFloat.float)
    (items : list (string * Position)) :
  forall (held : list (string * Position)) (s : Bot),
    positions s = held ++ items ->
    positions_wf (positions s) ->
    tp_percent s = tp -> sl_percent s = sl ->
    (forall item, In item items -> verdict_of tp sl prices item <> None) ->
    exists s' closed,
      for_each (check_position prices clock) items s = Ok s'
      /\ positions s' = held ++ filter (holds tp sl prices) items
      /\ trades s' = trades s ++ closed
      /\ Forall2 (records tp sl prices)
           (filter (closes tp sl prices) items) closed
      /\ balance s' = credited (balance s) closed
      /\ trade_counter s' = trade_counter s
      /\ initial_balance s' = initial_balance s
      /\ tp_percent s' = tp /\ sl_percent s' = sl.
Proof.
  induction items as [|[k p] rest IH]; intros held s Hpos Hwf Htp Hsl Hok.
  - exists s, []. cbn [for_each filter]. rewrite !app_nil_r.
    split; [reflexivity|]. split; [rewrite Hpos, app_nil_r; reflexivity|].
    split; [reflexivity|]. split; [constructor|]. repeat split; assumption.
  - assert (Hok' : forall item, In item rest ->
               verdict_of tp sl prices item <> None)
      by (intros item H; apply Hok; right; exact H).
    destruct (f64_verdict_cases tp sl (k, p))
      as [(Hnone & _) | [(Hv & Hh & Hc) | (Hh & Hc)]].
    + exfalso. exact (Hok (k, p) (or_introl eq_refl) Hnone).
    + cbn [for_each filter]. rewrite Hh, Hc.
      rewrite f64_check_position_hold by (rewrite Htp, Hsl; exact Hv).
      cbn [bind].
      destruct (IH (held ++ [(k, p)]) s) as (s' & closed & Hrun & Hpos' & H);
        try assumption.
      { rewrite Hpos, <- app_assoc. reflexivity. }
      exists s', closed. split; [exact Hrun|].
      split; [rewrite Hpos', <- app_assoc; reflexivity | exact H].
    + cbn [for_each filter]. rewrite Hh, Hc.
      assert (Hin : In (k, p) (positions s))
        by (rewrite Hpos; apply in_or_app; right; left; reflexivity).
      pose proof (f64_wf_symbol _ _ _ Hwf Hin) as Hsym.
      rewrite <- Htp, <- Hsl in Hc.
      destruct (f64_check_position_close s k p Hc)
        as (quote & pnl_pct & Hq & Hpnl & Hd & Hstep).
      rewrite Htp, Hsl in Hd, Hstep.
      destruct (f64_close_position_total s p (mid quote)
                  (reason_of (decision tp sl pnl_pct)) pnl_pct
                  (clock (clock_reads s))) as [s1 Hclose].
      { rewrite Hsym. apply mem_keys. unfold Dict.keys.
        apply (in_map fst) in Hin. exact Hin. }
      rewrite Hstep, Hclose. cbn [bind].
      pose proof (f64_close_position_ok _ _ _ _ _ _ _ Hclose) as [_ Es1].
      assert (Hpos1 : positions s1 = held ++ rest).
      { rewrite Es1. cbn [positions]. rewrite Hsym, Hpos.
        apply del_middle. destruct Hwf as [Hnd _]. rewrite Hpos in Hnd.
        unfold Dict.keys in Hnd. rewrite map_app in Hnd.
        apply NoDup_remove_2 in Hnd. intros H. apply Hnd.
        apply in_or_app. left. exact H. }
      destruct (IH held s1) as (s' & closed & Hrun & Hpos' & Ht & Hrec & Hb
                                & Htc & Hib & Htp' & Hsl').
      { exact Hpos1. }
      { rewrite Es1. cbn [positions]. apply f64_wf_del. exact Hwf. }
      { rewrite Es1. exact Htp. }
      { rewrite Es1. exact Hsl. }
      { exact Hok'. }
      exists s', (new_trade p (mid quote) (reason_of (decision tp sl pnl_pct))
                    pnl_pct (clock (clock_reads s)) :: closed).
      split; [exact Hrun|]. split; [exact Hpos'|].
      split; [rewrite Ht, Es1; cbn [trades]; rewrite <- app_assoc;
              reflexivity|].
      split.
      { constructor; [|exact Hrec].
        exists quote, pnl_pct, (clock (clock_reads s)). auto. }
      split; [rewrite Hb, Es1; reflexivity|].
      split; [rewrite Htc, Es1; reflexivity|].
      split; [rewrite Hib, Es1; reflexivity|]. split; assumption.
Qed.

(** A run raises when the verdict on some entry is that its evaluation
    raises. *)
Lemma f64_update_loop_raise (tp sl : PrimFloat.float)
    (items : list (string * Position)) :
  forall (held : list (string * Position)) (s : Bot),
    positions s = held ++ items ->
    positions_wf (positions s) ->
    tp_percent s = tp -> sl_percent s = sl ->
    (exists item, In item items /\ verdict_of tp sl prices item = None) ->
    for_each (check_position prices clock) items s = Raise ZeroDivisionError.
Proof.
  induction items as [|[k p] rest IH]; intros held s Hpos Hwf Htp Hsl Hbad.
  - destruct Hbad as (item & [] & _).
  - cbn [for_each].
    destruct (f64_verdict_cases tp sl (k, p))
      as [(Hnone & _) | [(Hv & Hh & Hc) | (Hh & Hc)]].
    + rewrite f64_check_position_raise by (rewrite Htp, Hsl; exact Hnone).
      reflexivity.
    + rewrite f64_check_position_hold by (rewrite Htp, Hsl; exact Hv).
      cbn [bind]. apply (IH (held ++ [(k, p)])); try assumption.
      * rewrite Hpos, <- app_assoc. reflexivity.
      * destruct Hbad as (item & [<- | Hin] & Hnone); [congruence|].
        exists item. split; assumption.
    + assert (Hin : In (k, p) (positions s))
        by (rewrite Hpos; apply in_or_app; right; left; reflexivity).
      pose proof (f64_wf_symbol _ _ _ Hwf Hin) as Hsym.
      rewrite <- Htp, <- Hsl in Hc.
      destruct (f64_check_position_close s k p Hc)
        as (quote & pnl_pct & Hq & Hpnl & Hd & Hstep).
      destruct (f64_close_position_total s p (mid quote)
                  (reason_of (decision (tp_percent s) (sl_percent s) pnl_pct))
                  pnl_pct (clock (clock_reads s))) as [s1 Hclose].
      { rewrite Hsym. apply mem_keys. unfold Dict.keys.
        apply (in_map fst) in Hin. exact Hin. }
      rewrite Hstep, Hclose. cbn [bind].
      pose proof (f64_close_position_ok _ _ _ _ _ _ _ Hclose) as [_ Es1].
      apply (IH held).
      * rewrite Es1. cbn [positions]. rewrite Hsym, Hpos.
        apply del_middle. destruct Hwf as [Hnd _]. rewrite Hpos in Hnd.
        unfold Dict.keys in Hnd. rewrite map_app in Hnd.
        apply NoDup_remove_2 in Hnd. intros H. apply Hnd.
        apply in_or_app. left. exact H.
      * rewrite Es1. cbn [positions]. apply f64_wf_del. exact Hwf.
      * rewrite Es1. exact Htp.
      * rewrite Es1. exact Hsl.
      * destruct Hbad as (item & [<- | Hin'] & Hnone).
        -- unfold closes in Hc. rewrite Htp, Hsl, Hnone in Hc. discriminate.
        -- exists item. split; assumption.
Qed.

End Binary64Ledger.

(* ------------------------------------------------------------------ *)
(** ** The outcome of [update_positions] in binary64 *)

Section Binary64Outcome.
Import Float64.
Import DictFacts.

Local Open Scope float_scope.

Variable prices : Dict.t PriceQuote.
Variable clock : nat -> Timestamp.

Lemma f64_records_symbol (tp sl : PrimFloat.float) (k : string)
    (p : Position) (t : Trade) :
  records tp sl prices (k, p) t -> tr_symbol t = pos_symbol p.
Proof. intros (quote & pnl_pct & now & _ & _ & _ & ->). reflexivity. Qed.

Lemma f64_holds_or_closes (tp sl : PrimFloat.float)
    (item : string * Position) :
  holds tp sl prices item = true -> closes tp sl prices item = true -> False.
Proof.
  unfold holds, closes.
  destruct (verdict_of tp sl prices item) as [[]|]; discriminate.
Qed.

Lemma keys_filter {V : Type} (f : string * V -> bool) (d : Dict.t V) :
  NoDup (Dict.keys d) -> NoDup (Dict.keys (filter f d)).
Proof.
  unfold Dict.keys. induction d as [|[k v] d IH]; intros Hnd; [constructor|].
  inversion Hnd as [|? ? Hk Hnd']; subst. cbn [filter].
  destruct (f (k, v)); [|exact (IH Hnd')].
  cbn [map fst]. constructor; [|exact (IH Hnd')].
  intros H. apply Hk. apply in_map_iff in H as (item & E & Hin).
  apply filter_In in Hin as [Hin _]. apply in_map_iff. eauto.
Qed.

Lemma Forall2_in_l {A B : Type} (R : A -> B -> Prop) (l1 : list A)
    (l2 : list B) (x : A) :
  Forall2 R l1 l2 -> In x l1 -> exists y, In y l2 /\ R x y.
Proof.
  induction 1 as [|a b l1 l2 Hab _ IH]; intros Hin; [destruct Hin|].
  destruct Hin as [<- | Hin].
  - exists b. split; [left; reflexivity | exact Hab].
  - destruct (IH Hin) as (y & Hy & Hr). exists y. split; [right|]; assumption.
Qed.

Lemma Forall2_in_r {A B : Type} (R : A -> B -> Prop) (l1 : list A)
    (l2 : list B) (y : B) :
  Forall2 R l1 l2 -> In y l2 -> exists x, In x l1 /\ R x y.
Proof.
  induction 1 as [|a b l1 l2 Hab _ IH]; intros Hin; [destruct Hin|].
  destruct Hin as [<- | Hin].
  - exists a. split; [left; reflexivity | exact Hab].
  - destruct (IH Hin) as (x & Hx & Hr). exists x. split; [right|]; assumption.
Qed.

(** The symbols of the appended trades are the keys of the closed entries,
    in their order. *)
Lemma f64_closed_symbols (tp sl : PrimFloat.float)
    (items : list (string * Position)) (closed : list Trade) :
  Forall (fun item => pos_symbol (snd item) = fst item) items ->
  Forall2 (records tp sl prices) items closed ->
  map tr_symbol closed = map fst items.
Proof.
  intros Hall H. induction H as [|[k p] t items closed Hr _ IH];
    [reflexivity|].
  inversion Hall as [|? ? Hsym Hall']; subst. cbn [map fst snd] in *.
  rewrite (f64_records_symbol _ _ _ _ _ Hr), Hsym, (IH Hall'). reflexivity.
Qed.

(** What a run that kept the held entries and recorded the others means for
    each entry. *)
Lemma f64_outcome_per_entry (tp sl : PrimFloat.float) (d d' : Dict.t Position)
    (closed : list Trade) :
  positions_wf d ->
  d' = filter (holds tp sl prices) d ->
  Forall2 (records tp sl prices) (filter (closes tp sl prices) d) closed ->
  NoDup (map tr_symbol closed)
  /\ (forall t, In t closed ->
        exists p, In (tr_symbol t, p) d
                  /\ closes tp sl prices (tr_symbol t, p) = true
                  /\ records tp sl prices (tr_symbol t, p) t)
  /\ forall k p,
       In (k, p) d ->
       (holds tp sl prices (k, p) = true ->
        Dict.get k d' = Some p /\ forall t, In t closed -> tr_symbol t <> k)
       /\ (closes tp sl prices (k, p) = true ->
           Dict.get k d' = None
           /\ exists t, In t closed /\ records tp sl prices (k, p) t).
Proof.
  intros [Hnd Hall] -> Hrec.
  assert (Hall' : Forall (fun item => pos_symbol (snd item) = fst item)
                    (filter (closes tp sl prices) d)).
  { rewrite Forall_forall in *. intros item Hin.
    apply filter_In in Hin as [Hin _]. exact (Hall item Hin). }
  pose proof (f64_closed_symbols _ _ _ _ Hall' Hrec) as Hsyms.
  assert (Hclosed : forall t, In t closed ->
            exists p, In (tr_symbol t, p) d
                      /\ closes tp sl prices (tr_symbol t, p) = true
                      /\ records tp sl prices (tr_symbol t, p) t).
  { intros t Hin.
    destruct (Forall2_in_r _ _ _ _ Hrec Hin) as ([k p] & Hitem & Hr).
    pose proof (f64_records_symbol _ _ _ _ _ Hr) as Et.
    rewrite Forall_forall in Hall'. pose proof (Hall' _ Hitem) as Ek.
    cbn [fst snd] in Ek. rewrite Ek in Et. rewrite Et.
    apply filter_In in Hitem as [Hitem Hc]. exists p. auto. }
  split; [|split; [exact Hclosed|]].
  - rewrite Hsyms. exact (keys_filter _ _ Hnd).
  - intros k p Hin. split.
    + intros Hh. split.
      * apply in_get; [exact (keys_filter _ _ Hnd)|].
        apply filter_In. split; assumption.
      * intros t Ht Ek. destruct (Hclosed t Ht) as (p' & Hin' & Hc & _).
        rewrite Ek in Hin', Hc.
        pose proof (in_get _ _ _ Hnd Hin) as G1.
        pose proof (in_get _ _ _ Hnd Hin') as G2.
        rewrite G1 in G2. injection G2 as <-.
        exact (f64_holds_or_closes _ _ _ Hh Hc).
    + intros Hc. split.
      * destruct (Dict.get k (filter (holds tp sl prices) d)) as [p'|] eqn:G;
          [|reflexivity].
        exfalso. apply get_in in G. apply filter_In in G as [Hin' Hh].
        pose proof (in_get _ _ _ Hnd Hin) as G1.
        pose proof (in_get _ _ _ Hnd Hin') as G2.
        rewrite G1 in G2. injection G2 as <-.
        exact (f64_holds_or_closes _ _ _ Hh Hc).
      * apply (Forall2_in_l _ _ _ _ Hrec). apply filter_In. split; assumption.
Qed.

(** A run of [update_positions] over a reachable account returns when no
    evaluation raises; it keeps the entries whose verdict is [Hold] and
    records a trade for each of the others. *)
Lemma f64_update_positions_outcome (b0 : PrimFloat.float) (st : Bot) :
  reachable b0 st ->
  (forall item, In item (positions st) ->
     verdict_of (tp_percent st) (sl_percent st) prices item <> None) ->
  exists st' closed,
    update_positions st prices clock = Ok st'
    /\ positions st'
       = filter (holds (tp_percent st) (sl_percent st) prices) (positions st)
    /\ trades st' = trades st ++ closed
    /\ Forall2 (records (tp_percent st) (sl_percent st) prices)
         (filter (closes (tp_percent st) (sl_percent st) prices)
            (positions st)) closed
    /\ balance st' = credited (balance st) closed
    /\ trade_counter st' = trade_counter st
    /\ initial_balance st' = initial_balance st
    /\ tp_percent st' = tp_percent st /\ sl_percent st' = sl_percent st.
Proof.
  intros Hreach Hok. unfold update_positions, Dict.items.
  exact (f64_update_loop prices clock (tp_percent st) (sl_percent st)
           (positions st) [] st eq_refl (f64_reachable_wf _ _ Hreach)
           eq_refl eq_refl Hok).
Qed.

(** A run that returned raised in no evaluation. *)
Lemma f64_update_positions_returned (b0 : PrimFloat.float) (st st' : Bot) :
  reachable b0 st ->
  update_positions st prices clock = Ok st' ->
  forall item, In item (positions st) ->
    verdict_of (tp_percent st) (sl_percent st) prices item <> None.
Proof.
  intros Hreach Hrun item Hin Hnone.
  unfold update_positions, Dict.items in Hrun.
  rewrite (f64_update_loop_raise prices clock (tp_percent st) (sl_percent st)
             (positions st) [] st eq_refl (f64_reachable_wf _ _ Hreach)
             eq_refl eq_refl) in Hrun; [discriminate|].
  exists item. split; assumption.
Qed.

(** The evaluation of a position raises only for an entry price that is a
    zero. *)
Lemma f64_verdict_of_entry (tp sl : PrimFloat.float) (k : string)
    (p : Position) :
  (Dict.mem k prices = true -> (pos_entry_price p =? 0) = false) ->
  verdict_of tp sl prices (k, p) <> None.
Proof.
  unfold verdict_of, pnl_pct_of, py_div, Dict.mem. cbn [fst snd].
  destruct (Dict.get k prices) as [quote|]; [|discriminate].
  intros H. rewrite (H eq_refl).
  destruct (String.eqb (pos_side p) "BUY"); discriminate.
Qed.

(** The P&L that [pnl_pct_of] returns is the specification's formula for
    the position's side. *)
Lemma f64_pnl_pct_of_spec (position : Position) (side : Side)
    (current_price pnl_pct : PrimFloat.float) :
  side_of_string (pos_side position) = Some side ->
  pnl_pct_of position current_price = Ok pnl_pct ->
  pnl_pct = spec_pnl_pct side (pos_entry_price position) current_price.
Proof.
  unfold pnl_pct_of, side_of_string, py_div.
  destruct (String.eqb (pos_side position) "BUY").
  - intros [= <-]. destruct (pos_entry_price position =? 0);
      cbn [bind]; [discriminate|]. intros [= <-]. reflexivity.
  - destruct (String.eqb (pos_side position) "SELL"); [|discriminate].
    intros [= <-]. destruct (pos_entry_price position =? 0);
      cbn [bind]; [discriminate|]. intros [= <-]. reflexivity.
Qed.

End Binary64Outcome.

Section Binary64Runs.
Import Float64.
Import DictFacts.

Local Open Scope float_scope.

Variable prices : Dict.t PriceQuote.

Lemma f64_held_verdict (tp sl : PrimFloat.float) (item : string * Position) :
  verdict_of tp sl prices item = Some Hold <-> held tp sl prices item.
Proof.
  unfold verdict_of, held, decision. split.
  - destruct (Dict.get (fst item) prices) as [quote|]; [|left; reflexivity].
    destruct (pnl_pct_of (snd item) (mid quote)) as [pnl_pct|e] eqn:Hpnl;
      [|discriminate].
    intros H. right. exists quote, pnl_pct.
    split; [reflexivity|]. split; [exact Hpnl|].
    destruct (tp <=? pnl_pct); [discriminate|].
    destruct (pnl_pct <=? - sl); [discriminate|]. split; reflexivity.
  - intros [-> | (quote & pnl_pct & -> & -> & -> & ->)]; reflexivity.
Qed.

(** A loop over positions that are all held changes nothing. *)
Lemma f64_held_loop (clock : nat -> Timestamp)
    (items : list (string * Position)) (s : Bot) :
  (forall item, In item items ->
     verdict_of (tp_percent s) (sl_percent s) prices item = Some Hold) ->
  for_each (check_position prices clock) items s = Ok s.
Proof.
  induction items as [|item rest IH]; intros H; [reflexivity|].
  cbn [for_each].
  rewrite f64_check_position_hold by (apply H; left; reflexivity).
  cbn [bind]. apply IH. intros item' Hin. apply H. right. exact Hin.
Qed.

(** A run that returns is the run that [f64_update_positions_outcome]
    describes. *)
Lemma f64_update_positions_inv (clock : nat -> Timestamp)
    (b0 : PrimFloat.float) (st st' : Bot) :
  reachable b0 st ->
  update_positions st prices clock = Ok st' ->
  exists closed,
    positions st'
    = filter (holds (tp_percent st) (sl_percent st) prices) (positions st)
    /\ trades st' = trades st ++ closed
    /\ Forall2 (records (tp_percent st) (sl_percent st) prices)
         (filter (closes (tp_percent st) (sl_percent st) prices)
            (positions st)) closed
    /\ balance st' = credited (balance st) closed
    /\ tp_percent st' = tp_percent st /\ sl_percent st' = sl_percent st.
Proof.
  intros Hreach Hrun.
  destruct (f64_update_positions_outcome prices clock b0 st Hreach
              (f64_update_positions_returned prices clock b0 st st' Hreach
                 Hrun))
    as (st1 & closed & Hrun1 & Hpos & Ht & Hrec & Hb & _ & _ & Htp & Hsl).
  rewrite Hrun in Hrun1. injection Hrun1 as <-.
  exists closed. repeat split; assumption.
Qed.

End Binary64Runs.

(* ------------------------------------------------------------------ *)
(** ** The close decision and the balance, in binary64 *)

Section Binary64Claims.
Import Float64.
Import DictFacts.

Local Open Scope float_scope.

Lemma nodup_map_inj {A B : Type} (f : A -> B) (l : list A) (a b : A) :
  NoDup (map f l) -> In a l -> In b l -> f a = f b -> a = b.
Proof.
  induction l as [|x l IH]; intros Hnd Ha Hb E; [destruct Ha|].
  inversion Hnd as [|? ? Hx Hnd']; subst.
  destruct Ha as [<- | Ha], Hb as [<- | Hb].
  - reflexivity.
  - exfalso. apply Hx. rewrite E. apply in_map. exact Hb.
  - exfalso. apply Hx. rewrite <- E. apply in_map. exact Ha.
  - exact (IH Hnd' Ha Hb E).
Qed.

(** The outcome of a run for one of its entries, by the decision on its
    P&L. *)
Lemma f64_entry_outcome (prices : Dict.t PriceQuote) (st st' : Bot)
    (closed : list Trade) (symbol : string) (position : Position)
    (quote : PriceQuote) (pnl_pct : PrimFloat.float) :
  positions_wf (positions st) ->
  positions st'
  = filter (holds (tp_percent st) (sl_percent st) prices) (positions st) ->
  Forall2 (records (tp_percent st) (sl_percent st) prices)
    (filter (closes (tp_percent st) (sl_percent st) prices) (positions st))
    closed ->
  In (symbol, position) (positions st) ->
  Dict.get symbol prices = Some quote ->
  pnl_pct_of position (mid quote) = Ok pnl_pct ->
  match decision (tp_percent st) (sl_percent st) pnl_pct with
  | Hold =>
      still_open symbol position st' closed
      /\ forall reason pnl, ~ closed_as reason symbol pnl st' closed
  | verdict =>
      closed_as (reason_of verdict) symbol pnl_pct st' closed
      /\ ~ still_open symbol position st' closed
      /\ forall reason pnl,
           closed_as reason symbol pnl st' closed ->
           reason = reason_of verdict
  end.
Proof.
  intros Hwf Hpos Hrec Hin Hq Hpnl.
  destruct (f64_outcome_per_entry prices _ _ _ _ _ Hwf Hpos Hrec)
    as (Hnd & _ & Hper).
  destruct (Hper symbol position Hin) as [Hheld Hclosed].
  pose proof (f64_wf_symbol _ _ _ Hwf Hin) as Hsym.
  assert (Hv : verdict_of (tp_percent st) (sl_percent st) prices
                 (symbol, position)
               = Some (decision (tp_percent st) (sl_percent st) pnl_pct)).
  { unfold verdict_of. cbn [fst snd]. rewrite Hq, Hpnl. reflexivity. }
  assert (Hclose : decision (tp_percent st) (sl_percent st) pnl_pct <> Hold ->
            closed_as (reason_of (decision (tp_percent st) (sl_percent st)
                                    pnl_pct)) symbol pnl_pct st' closed
            /\ ~ still_open symbol position st' closed
            /\ forall reason pnl,
                 closed_as reason symbol pnl st' closed ->
                 reason
                 = reason_of (decision (tp_percent st) (sl_percent st)
                                pnl_pct)).
  { intros Hd.
    assert (Hc : closes (tp_percent st) (sl_percent st) prices
                   (symbol, position) = true).
    { unfold closes. rewrite Hv.
      destruct (decision (tp_percent st) (sl_percent st) pnl_pct);
        congruence. }
    destruct (Hclosed Hc) as (Hnone & t & Ht & Hr).
    destruct Hr as (quote' & pnl' & now & Hq' & Hpnl' & _ & Et).
    rewrite Hq in Hq'. injection Hq' as <-.
    rewrite Hpnl in Hpnl'. injection Hpnl' as <-.
    assert (Hts : tr_symbol t = symbol) by (rewrite Et; exact Hsym).
    split; [|split].
    - split; [exact Hnone|]. exists t. split; [exact Ht|].
      split; [exact Hts|]. rewrite Et. split; reflexivity.
    - intros [Hsome _]. rewrite Hnone in Hsome. discriminate.
    - intros reason pnl (_ & t' & Ht' & Hts' & Hr' & _).
      assert (t' = t).
      { apply (nodup_map_inj tr_symbol closed); try assumption. congruence. }
      subst t'. rewrite <- Hr', Et. reflexivity. }
  destruct (decision (tp_percent st) (sl_percent st) pnl_pct) eqn:Ed.
  - apply Hclose. discriminate.
  - apply Hclose. discriminate.
  - assert (Hh : holds (tp_percent st) (sl_percent st) prices
                   (symbol, position) = true)
      by (unfold holds; rewrite Hv; reflexivity).
    destruct (Hheld Hh) as [Hsome Hno]. split; [split; assumption|].
    intros reason pnl (_ & t & Ht & Hts & _). exact (Hno t Ht Hts).
Qed.

Lemma f64_account_with_btc_reachable : reachable 1000.0 account_with_btc.
Proof. apply reach_admit. apply reach_init. Qed.

Lemma f64_account_with_both_reachable : reachable 1000.0 account_with_both.
Proof. apply reach_admit. exact f64_account_with_btc_reachable. Qed.

Lemma f64_entries_of_examples (symbol : string) (position : Position) :
  In (symbol, position) (Dict.items (positions account_with_both)) ->
  Dict.mem symbol prices_up = true ->
  (pos_entry_price position =? 0) = false.
Proof.
  intros [[= <- <-] | [[= <- <-] | []]] _; reflexivity.
Qed.

(** C4.  [update_positions], run over a reachable account in which no
    quoted position has a zero entry price, returns.  For every open
    position with a quote, the P&L it computes is
    [(current - entry) / entry * 100] for BUY and
    [(entry - current) / entry * 100] for SELL, evaluated in binary64 in
    that order, and the run closes the position with reason TAKE_PROFIT if
    and only if [tp_percent <= pnl_pct]; otherwise it closes it with reason
    STOP_LOSS if and only if [pnl_pct <= - sl_percent]; otherwise the
    position is still open and no trade is appended for it.  Both bounds
    are inclusive: a P&L that [==] [tp_percent] is closed as TAKE_PROFIT and
    one that [==] [- sl_percent] as STOP_LOSS.  The run appends at most one
    trade per symbol. *)
Theorem close_decision_in_update_positions (b0 : PrimFloat.float) (st : Bot)
    (prices : Dict.t PriceQuote) (clock : nat -> Timestamp) :
  reachable b0 st ->
  (forall symbol position,
     In (symbol, position) (Dict.items (positions st)) ->
     Dict.mem symbol prices = true ->
     (pos_entry_price position =? 0) = false) ->
  exists st' closed,
    update_positions st prices clock = Ok st'
    /\ trades st' = trades st ++ closed
    /\ NoDup (map tr_symbol closed)
    /\ forall symbol position quote,
         In (symbol, position) (Dict.items (positions st)) ->
         Dict.get symbol prices = Some quote ->
         exists pnl_pct,
           pnl_pct_of position (mid quote) = Ok pnl_pct
           /\ (forall side,
                 side_of_string (pos_side position) = Some side ->
                 pnl_pct
                 = spec_pnl_pct side (pos_entry_price position) (mid quote))
           /\ (closed_as "TAKE_PROFIT" symbol pnl_pct st' closed
               <-> (tp_percent st <=? pnl_pct) = true)
           /\ (closed_as "STOP_LOSS" symbol pnl_pct st' closed
               <-> (tp_percent st <=? pnl_pct) = false
                   /\ (pnl_pct <=? - sl_percent st) = true)
           /\ (still_open symbol position st' closed
               <-> (tp_percent st <=? pnl_pct) = false
                   /\ (pnl_pct <=? - sl_percent st) = false)
           /\ ((pnl_pct =? tp_percent st) = true ->
               closed_as "TAKE_PROFIT" symbol pnl_pct st' closed)
           /\ ((pnl_pct =? - sl_percent st) = true ->
               closed_as "STOP_LOSS" symbol pnl_pct st' closed).
Proof.
  intros Hreach Hentry. unfold Dict.items in *.
  pose proof (f64_reachable_wf _ _ Hreach) as Hwf.
  destruct (f64_update_positions_outcome prices clock b0 st Hreach)
    as (st' & closed & Hrun & Hpos & Ht & Hrec & _).
  { intros [k p] Hin. apply f64_verdict_of_entry. exact (Hentry k p Hin). }
  destruct (f64_outcome_per_entry prices _ _ _ _ _ Hwf Hpos Hrec)
    as (Hnd & _ & _).
  exists st', closed. split; [exact Hrun|]. split; [exact Ht|].
  split; [exact Hnd|].
  intros symbol position quote Hin Hq.
  destruct (pnl_pct_of position (mid quote)) as [pnl_pct|e] eqn:Hpnl.
  2:{ exfalso.
      apply (f64_verdict_of_entry prices (tp_percent st) (sl_percent st)
               symbol position).
      - exact (Hentry symbol position Hin).
      - unfold verdict_of. cbn [fst snd]. rewrite Hq, Hpnl. reflexivity. }
  exists pnl_pct. split; [reflexivity|].
  split; [intros side Hside;
          exact (f64_pnl_pct_of_spec _ _ _ _ Hside Hpnl)|].
  pose proof (f64_entry_outcome prices st st' closed symbol position quote
                pnl_pct Hwf Hpos Hrec Hin Hq Hpnl) as Hout.
  assert (Hiff :
    (closed_as "TAKE_PROFIT" symbol pnl_pct st' closed
     <-> (tp_percent st <=? pnl_pct) = true)
    /\ (closed_as "STOP_LOSS" symbol pnl_pct st' closed
        <-> (tp_percent st <=? pnl_pct) = false
            /\ (pnl_pct <=? - sl_percent st) = true)
    /\ (still_open symbol position st' closed
        <-> (tp_percent st <=? pnl_pct) = false
            /\ (pnl_pct <=? - sl_percent st) = false)).
  { unfold decision in Hout.
    destruct (tp_percent st <=? pnl_pct) eqn:Etp;
      [|destruct (pnl_pct <=? - sl_percent st) eqn:Esl].
    - destruct Hout as (Hc & Hno & Honly). cbn [reason_of] in *.
      split; [tauto|]. split.
      + split; [|intros [? _]; discriminate].
        intros H. apply Honly in H. discriminate.
      + split; [intros H; contradiction | intros [? _]; discriminate].
    - destruct Hout as (Hc & Hno & Honly). cbn [reason_of] in *.
      split; [|split].
      + split; [|discriminate]. intros H. apply Honly in H. discriminate.
      + tauto.
      + split; [intros H; contradiction | intros [_ ?]; discriminate].
    - destruct Hout as (Hopen & Hno).
      split; [|split].
      + split; [|discriminate]. intros H. exfalso. exact (Hno _ _ H).
      + split; [|intros [_ ?]; discriminate].
        intros H. exfalso. exact (Hno _ _ H).
      + tauto. }
  destruct Hiff as (Htp & Hsl & Hhold).
  split; [exact Htp|]. split; [exact Hsl|]. split; [exact Hhold|].
  split.
  - intros E. apply Htp. exact (eqb_geb _ _ E).
  - intros E. apply Hsl. split; [|exact (eqb_leb _ _ E)].
    rewrite (leb_eqb_r _ _ _ E).
    destruct (f64_reachable_parameters _ _ Hreach) as (_ & -> & ->).
    reflexivity.
Qed.

Lemma close_decision_in_update_positions_witness :
  exists st' closed,
    update_positions account_with_both prices_up
      clock_of_examples = Ok st'
    /\ trades st' = trades account_with_both ++ closed
    /\ closed_as "TAKE_PROFIT" "BTC" 0.62 st' closed
    /\ still_open "ETH" eth_position st' closed.
Proof.
  destruct (close_decision_in_update_positions 1000.0
              account_with_both prices_up
              clock_of_examples f64_account_with_both_reachable
              f64_entries_of_examples)
    as (st' & closed & Hrun & Ht & _ & Hall).
  exists st', closed. split; [exact Hrun|]. split; [exact Ht|]. split.
  - destruct (Hall "BTC" btc_position
                (quote_at "BTC" 50310))
      as (pnl_pct & Hpnl & _ & Htp & _).
    + left. reflexivity.
    + reflexivity.
    + vm_compute in Hpnl. injection Hpnl as <-.
      apply Htp. reflexivity.
  - destruct (Hall "ETH" eth_position
                (quote_at "ETH" 100.6))
      as (pnl_pct & Hpnl & _ & _ & _ & Hhold & _).
    + right. left. reflexivity.
    + reflexivity.
    + apply Hhold. vm_compute in Hpnl. injection Hpnl as <-.
      split; reflexivity.
Defined.

(** C2, as stated, fails in the arithmetic of the program.  The account of
    1000 USD holds a BTC position of 150 USD opened at 50,000, and its
    balance is 850.  At a quote of 50,310 the P&L is 0.62 % and
    [update_positions] closes the position.  The P&L it records,
    [150 * (0.62 / 100)], is 0.9299999999999999, whereas
    [150 * 0.62 / 100] is 0.93; the balance it leaves,
    [850 + (150 + 0.9299999999999999)], is 1000.9300000000001, whereas
    [850 + 150 + 0.93] is 1000.93. *)
Lemma balance_after_close_counterexample :
  balance account_with_btc = 850
  /\ Dict.get "BTC" (positions account_with_btc) = Some btc_position
  /\ pos_size btc_position = 150
  /\ pnl_pct_of btc_position 50310 = Ok 0.62
  /\ pnl_amounts_of
       (update_positions account_with_btc prices_up clock_of_examples)
     = [0.9299999999999999]
  /\ spec_pnl_usd 150 0.62 = 0.93
  /\ (0.9299999999999999 =? 0.93) = false
  /\ balance_of
       (update_positions account_with_btc prices_up clock_of_examples)
     = Some 1000.9300000000001
  /\ spec_balance_after_close 850 150 0.62 = 1000.93
  /\ (1000.9300000000001 =? 1000.93) = false.
Proof. repeat split; vm_compute; reflexivity. Qed.

(** C2, amended.  When a signal is admitted, the balance after opening is
    the balance before minus the size of the position that was stored.
    When a position whose symbol is open is closed with percentage P&L
    [pnl_pct], the close succeeds, the appended trade records
    [pnl_usd = size * (pnl_pct / 100)], and the balance after it is
    [balance + (size + pnl_usd)]: each operator is the binary64 operator,
    applied in this order.  A run of [update_positions] credits the trades
    it appends in this way, one after the other. *)
Theorem balance_after_open_and_close_in_binary64 :
  (forall st signal now,
     admitted st signal now = true ->
     exists position,
       Dict.get (sig_symbol signal) (positions (admit_signal st signal now))
       = Some position
       /\ pos_size position = sig_size signal
       /\ balance (admit_signal st signal now)
          = balance st - pos_size position)
  /\ (forall st position exit_price reason pnl_pct now,
        Dict.mem (pos_symbol position) (positions st) = true ->
        exists st' trade,
          close_position st position exit_price reason pnl_pct now = Ok st'
          /\ trades st' = trades st ++ [trade]
          /\ tr_pnl_pct trade = pnl_pct
          /\ tr_size trade = pos_size position
          /\ tr_pnl_amount trade = pos_size position * (pnl_pct / 100)
          /\ balance st'
             = balance st + (pos_size position + tr_pnl_amount trade))
  /\ (forall b0 st prices clock st',
        reachable b0 st ->
        update_positions st prices clock = Ok st' ->
        exists closed,
          trades st' = trades st ++ closed
          /\ balance st'
             = fold_left (fun b t => b + (tr_size t + tr_pnl_amount t))
                 closed (balance st)
          /\ forall t, In t closed ->
               tr_pnl_amount t = tr_size t * (tr_pnl_pct t / 100)).
Proof.
  split; [|split].
  - intros st signal now Hadm.
    destruct (f64_admitted_opens _ _ _ Hadm) as (_ & _ & ->).
    exists (new_position st signal now). cbn [positions balance].
    split; [apply get_set_same|]. split; reflexivity.
  - intros st position exit_price reason pnl_pct now Hmem.
    destruct (f64_close_position_total st position exit_price reason pnl_pct
                now Hmem) as [st' Hclose].
    exists st', (new_trade position exit_price reason pnl_pct now).
    split; [exact Hclose|].
    apply f64_close_position_ok in Hclose as [_ ->].
    repeat split.
  - intros b0 st prices clock st' Hreach Hrun.
    destruct (f64_update_positions_inv prices clock b0 st st' Hreach Hrun)
      as (closed & _ & Ht & Hrec & Hb & _).
    exists closed. split; [exact Ht|]. split; [exact Hb|].
    intros t Hin.
    destruct (Forall2_in_r _ _ _ _ Hrec Hin)
      as ([k p] & _ & quote & pnl_pct & now & _ & _ & _ & ->).
    reflexivity.
Qed.

Lemma balance_after_open_and_close_in_binary64_witness :
  admitted (init 1000.0) btc_signal "t0" = true
  /\ balance
       (admit_signal (init 1000.0) btc_signal
          "t0")
     = 850
  /\ exists st',
       close_position account_with_btc btc_position
         50310 "TAKE_PROFIT" 0.62 "t2" = Ok st'
       /\ balance st' = 1000.9300000000001.
Proof.
  assert (Hadm : admitted (init 1000.0)
                   btc_signal "t0" = true) by reflexivity.
  split; [exact Hadm|]. split.
  - destruct (proj1 balance_after_open_and_close_in_binary64 _ _ _ Hadm)
      as (position & _ & Hsize & Hbal).
    rewrite Hbal, Hsize. reflexivity.
  - destruct (proj1 (proj2 balance_after_open_and_close_in_binary64)
                account_with_btc btc_position 50310
                "TAKE_PROFIT" 0.62 "t2")
      as (st' & trade & Hclose & _ & _ & _ & Hpnl & Hbal).
    + reflexivity.
    + exists st'. split; [exact Hclose|].
      rewrite Hbal, Hpnl. reflexivity.
Defined.

(** C5, as stated, fails in the arithmetic of the program.  The account
    starts with 1000 USD; a BTC position of 150 USD is opened at 50,000 and
    closed by [update_positions] at 50,310.  Before the close the balance
    plus the sizes of the open positions minus the realized P&L is 1000;
    after it, it is 1000.0000000000001. *)
Lemma capital_drift_counterexample :
  capital (init 1000.0) = 1000.0
  /\ capital account_with_btc = 1000.0
  /\ capital_of
       (update_positions account_with_btc prices_up clock_of_examples)
     = Some 1000.0000000000001
  /\ (1000.0000000000001 =? 1000.0) = false.
Proof. repeat split; vm_compute; reflexivity. Qed.

(** The ledger of a reachable account. *)
Lemma f64_reachable_ledger (b0 : PrimFloat.float) (st : Bot) :
  reachable b0 st ->
  exists events,
    balance st = replay b0 events
    /\ map tr_pnl_amount (trades st) = released_pnl events
    /\ Permutation (escrowed_sizes events)
         (map pos_size (Dict.values (positions st)) ++ released_sizes events).
Proof.
  induction 1 as [|st signal now Hreach IH|st st' symbol position exit_price
                   reason pnl_pct now Hreach IH Hin Hclose].
  - exists []. repeat split. constructor.
  - destruct (f64_admit_signal_cases st signal now) as [-> | Hadm];
      [exact IH|].
    destruct IH as (events & Hbal & Hpnl & Hperm).
    destruct (f64_admitted_opens _ _ _ Hadm) as (Hmem & _ & ->).
    exists (events ++ [Escrow (sig_size signal)]).
    cbn [balance trades positions].
    unfold replay, escrowed_sizes, released_sizes, released_pnl in *.
    rewrite fold_left_app, !flat_map_app. cbn [fold_left post flat_map].
    rewrite !app_nil_r, (set_absent _ _ _ Hmem). unfold Dict.values.
    rewrite !map_app. cbn [map snd pos_size new_position].
    split; [rewrite Hbal; reflexivity|]. split; [exact Hpnl|].
    rewrite <- app_assoc.
    eapply perm_trans; [apply Permutation_app_tail; exact Hperm|].
    rewrite <- app_assoc. apply Permutation_app_head.
    apply Permutation_app_comm.
  - destruct IH as (events & Hbal & Hpnl & Hperm).
    pose proof (f64_reachable_wf _ _ Hreach) as Hwf.
    unfold Dict.items in Hin.
    pose proof (f64_wf_symbol _ _ _ Hwf Hin) as Hsym.
    pose proof (in_get _ _ _ (proj1 Hwf) Hin) as Hget.
    apply f64_close_position_ok in Hclose as [_ ->].
    exists (events ++ [Release (pos_size position)
                         (pos_size position * (pnl_pct / 100))]).
    cbn [balance trades positions].
    unfold replay, escrowed_sizes, released_sizes, released_pnl in *.
    rewrite fold_left_app, !flat_map_app, map_app.
    cbn [fold_left post flat_map map tr_pnl_amount new_trade].
    rewrite !app_nil_r, Hsym.
    split; [rewrite Hbal; reflexivity|]. split; [rewrite Hpnl; reflexivity|].
    eapply perm_trans; [exact Hperm|].
    pose proof (Permutation_map pos_size (values_del _ _ _ Hget)) as Hdel.
    cbn [map] in Hdel.
    eapply perm_trans; [apply Permutation_app_tail; exact Hdel|].
    cbn [app]. rewrite app_assoc. apply Permutation_cons_append.
Qed.

(** C5, amended.  Opening escrows the position's size out of the balance
    and closing returns the size plus the realized P&L.  In every state
    reached from an account that starts with balance [b0], an admitted
    signal adds one position, of the signal's size, after the open ones,
    takes that size from the balance and leaves the trades; a signal that
    is not admitted leaves the state as it is; the close of an open position
    removes it, appends one trade of the position's size, and adds to the
    balance the size plus the P&L that the trade records.  The balance is
    the initial balance after these subtractions and additions, in the
    order in which they were made, each of them a binary64 operation; the
    sizes escrowed and not released are the sizes of the open positions,
    and the P&L released is the P&L of the trades.  That the balance plus
    the sizes in escrow minus the realized P&L equals the initial balance
    is not promised. *)
Theorem escrow_and_release (b0 : PrimFloat.float) (st : Bot) :
  reachable b0 st ->
  initial_balance st = b0
  /\ (exists events,
        balance st = replay b0 events
        /\ map tr_pnl_amount (trades st) = released_pnl events
        /\ Permutation (escrowed_sizes events)
             (map pos_size (Dict.values (positions st))
              ++ released_sizes events))
  /\ (forall signal now,
        admitted st signal now = true ->
        exists position,
          positions (admit_signal st signal now)
          = positions st ++ [(sig_symbol signal, position)]
          /\ pos_size position = sig_size signal
          /\ balance (admit_signal st signal now)
             = balance st - pos_size position
          /\ trades (admit_signal st signal now) = trades st)
  /\ (forall signal now,
        admitted st signal now = false -> admit_signal st signal now = st)
  /\ (forall symbol position exit_price reason pnl_pct now,
        In (symbol, position) (Dict.items (positions st)) ->
        exists st' trade,
          close_position st position exit_price reason pnl_pct now = Ok st'
          /\ positions st' = Dict.del symbol (positions st)
          /\ Dict.get symbol (positions st') = None
          /\ trades st' = trades st ++ [trade]
          /\ tr_size trade = pos_size position
          /\ tr_pnl_amount trade = pos_size position * (pnl_pct / 100)
          /\ balance st'
             = balance st + (pos_size position + tr_pnl_amount trade)).
Proof.
  intros Hreach. pose proof (f64_reachable_wf _ _ Hreach) as Hwf.
  split; [exact (proj1 (f64_reachable_parameters _ _ Hreach))|].
  split; [exact (f64_reachable_ledger _ _ Hreach)|].
  split; [|split].
  - intros signal now Hadm.
    destruct (f64_admitted_opens _ _ _ Hadm) as (Hmem & _ & ->).
    exists (new_position st signal now). cbn [positions balance trades].
    split; [apply set_absent; exact Hmem|]. repeat split.
  - intros signal now Hadm.
    destruct (f64_admit_signal_cases st signal now) as [E | E];
      [exact E | congruence].
  - intros symbol position exit_price reason pnl_pct now Hin.
    unfold Dict.items in Hin.
    pose proof (f64_wf_symbol _ _ _ Hwf Hin) as Hsym.
    destruct (f64_close_position_total st position exit_price reason pnl_pct
                now) as [st' Hclose].
    { rewrite Hsym. apply mem_keys. apply (in_map fst) in Hin. exact Hin. }
    exists st', (new_trade position exit_price reason pnl_pct now).
    split; [exact Hclose|].
    apply f64_close_position_ok in Hclose as [_ ->].
    cbn [positions trades balance]. rewrite Hsym.
    split; [reflexivity|].
    split; [apply get_del_same; exact (proj1 Hwf)|]. repeat split.
Qed.

Lemma escrow_and_release_witness :
  reachable 1000.0 account_with_btc
  /\ (exists position,
        positions (admit_signal account_with_btc eth_signal "t1")
        = positions account_with_btc ++ [("ETH", position)]
        /\ balance (admit_signal account_with_btc eth_signal "t1") = 750)
  /\ exists st',
       close_position account_with_btc btc_position 50310 "TAKE_PROFIT"
         0.62 "t2" = Ok st'
       /\ Dict.get "BTC" (positions st') = None
       /\ balance st' = 1000.9300000000001.
Proof.
  split; [exact f64_account_with_btc_reachable|].
  destruct (escrow_and_release 1000.0 account_with_btc
              f64_account_with_btc_reachable)
    as (_ & _ & Hadmit & _ & Hclose).
  split.
  - destruct (Hadmit eth_signal "t1" eq_refl)
      as (position & Hpos & Hsize & Hbal & _).
    exists position. split; [exact Hpos|].
    rewrite Hbal, Hsize. reflexivity.
  - destruct (Hclose "BTC" btc_position 50310 "TAKE_PROFIT" 0.62 "t2"
                (or_introl eq_refl))
      as (st' & trade & Hrun & _ & Hnone & _ & _ & Hpnl & Hbal).
    exists st'. split; [exact Hrun|]. split; [exact Hnone|].
    rewrite Hbal, Hpnl. reflexivity.
Defined.

(** X10.  After [update_positions] has returned, the positions still open
    are those that were open before and are held, in their order: a held
    position has no quote, or its P&L passes neither [tp_percent <= pnl_pct]
    nor [pnl_pct <= - sl_percent], as computed in binary64.  Evaluating
    again against the same quotes changes nothing. *)
Theorem evaluation_settles (b0 : PrimFloat.float) (st st' : Bot)
    (prices : Dict.t PriceQuote) (clock : nat -> Timestamp) :
  reachable b0 st ->
  update_positions st prices clock = Ok st' ->
  (forall item,
     In item (Dict.items (positions st')) <->
     In item (Dict.items (positions st))
     /\ held (tp_percent st) (sl_percent st) prices item)
  /\ positions st'
     = filter (holds (tp_percent st) (sl_percent st) prices) (positions st)
  /\ (forall clock', update_positions st' prices clock' = Ok st').
Proof.
  intros Hreach Hrun. unfold Dict.items.
  destruct (f64_update_positions_inv prices clock b0 st st' Hreach Hrun)
    as (closed & Hpos & _ & _ & _ & Htp & Hsl).
  assert (Hall : forall item,
            In item (positions st') <->
            In item (positions st)
            /\ held (tp_percent st) (sl_percent st) prices item).
  { intros item. rewrite Hpos, filter_In, <- f64_held_verdict.
    unfold holds.
    destruct (verdict_of (tp_percent st) (sl_percent st) prices item)
      as [[]|]; split; intros [H1 H2]; split;
      try assumption; try discriminate; reflexivity. }
  split; [exact Hall|]. split; [exact Hpos|].
  intros clock'. unfold update_positions, Dict.items.
  apply f64_held_loop. intros item Hin. rewrite Htp, Hsl.
  apply f64_held_verdict. exact (proj2 (proj1 (Hall item) Hin)).
Qed.

Lemma evaluation_settles_witness :
  exists st',
    update_positions account_with_both prices_up
      clock_of_examples = Ok st'
    /\ positions st' = [("ETH", eth_position)]
    /\ update_positions st' prices_up
         clock_of_examples = Ok st'.
Proof.
  assert (Hrun : exists st',
             update_positions account_with_both
               prices_up clock_of_examples = Ok st')
    by (eexists; reflexivity).
  destruct Hrun as [st' Hrun].
  destruct (evaluation_settles 1000.0 account_with_both st'
              prices_up clock_of_examples
              f64_account_with_both_reachable Hrun)
    as (_ & Hpos & Hagain).
  exists st'. split; [exact Hrun|]. split; [|apply Hagain].
  rewrite Hpos. reflexivity.
Defined.

(** X11.  Every trade that [update_positions] appends records the close of a
    position that was open under the trade's symbol: identifier, side, entry
    price, size and opening time are the position's, the exit price is the
    mid price of the symbol's quote, the P&L in percent is the one computed
    for the position at that price and the P&L in USD is
    [size * (pnl_pct / 100)].  The reason is TAKE_PROFIT when
    [0.6 <= pnl_pct], and STOP_LOSS when that fails and [pnl_pct <= -3.0].
    The trades are appended in the order of the positions, one for each
    position that is closed. *)
Theorem closed_trades_are_recorded (b0 : PrimFloat.float) (st st' : Bot)
    (prices : Dict.t PriceQuote) (clock : nat -> Timestamp) :
  reachable b0 st ->
  update_positions st prices clock = Ok st' ->
  exists closed,
    trades st' = trades st ++ closed
    /\ map tr_symbol closed
       = map fst (filter (closes 0.6 3.0 prices) (Dict.items (positions st)))
    /\ forall t, In t closed ->
         exists position quote,
           In (tr_symbol t, position) (Dict.items (positions st))
           /\ Dict.get (tr_symbol t) prices = Some quote
           /\ tr_id t = pos_id position
           /\ tr_side t = pos_side position
           /\ tr_entry_price t = pos_entry_price position
           /\ tr_size t = pos_size position
           /\ tr_opened_at t = pos_opened_at position
           /\ tr_exit_price t = mid quote
           /\ pnl_pct_of position (mid quote) = Ok (tr_pnl_pct t)
           /\ tr_pnl_amount t = tr_size t * (tr_pnl_pct t / 100)
           /\ ((tr_reason t = "TAKE_PROFIT"
                /\ (0.6 <=? tr_pnl_pct t) = true)
               \/ (tr_reason t = "STOP_LOSS"
                   /\ (0.6 <=? tr_pnl_pct t) = false
                   /\ (tr_pnl_pct t <=? - 3.0) = true)).
Proof.
  intros Hreach Hrun. unfold Dict.items.
  pose proof (f64_reachable_wf _ _ Hreach) as Hwf.
  destruct (f64_update_positions_inv prices clock b0 st st' Hreach Hrun)
    as (closed & Hpos & Ht & Hrec & _).
  destruct (f64_reachable_parameters _ _ Hreach) as (_ & Etp & Esl).
  rewrite Etp, Esl in *.
  destruct (f64_outcome_per_entry prices _ _ _ _ _ Hwf Hpos Hrec)
    as (_ & Hclosed & _).
  exists closed. split; [exact Ht|]. split.
  - apply f64_closed_symbols with (tp := 0.6) (sl := 3.0) (prices := prices);
      [|exact Hrec].
    destruct Hwf as [_ Hall]. rewrite Forall_forall in *.
    intros item Hin. apply filter_In in Hin as [Hin _]. exact (Hall _ Hin).
  - intros t Hin.
    destruct (Hclosed t Hin) as (p & Hitem & _ & Hr).
    destruct Hr as (quote & pnl_pct & now & Hq & Hpnl & Hd & Et).
    exists p, quote. split; [exact Hitem|]. split; [exact Hq|].
    subst t.
    cbn [new_trade tr_id tr_side tr_entry_price tr_size tr_opened_at
         tr_exit_price tr_pnl_pct tr_pnl_amount tr_reason].
    do 6 (split; [reflexivity|]). split; [exact Hpnl|].
    split; [reflexivity|].
    unfold decision in Hd |- *.
    change (- 3.0) with (PrimFloat.opp 3.0).
    destruct (0.6 <=? pnl_pct) eqn:E1; [left; split; reflexivity|].
    destruct (pnl_pct <=? PrimFloat.opp 3.0) eqn:E2;
      [right; repeat split|].
    exfalso. apply Hd. reflexivity.
Qed.

Lemma closed_trades_are_recorded_witness :
  exists st' closed,
    update_positions account_with_both prices_up
      clock_of_examples = Ok st'
    /\ trades st' = trades account_with_both ++ closed
    /\ map tr_symbol closed = ["BTC"].
Proof.
  assert (Hrun : exists st',
             update_positions account_with_both
               prices_up clock_of_examples = Ok st')
    by (eexists; reflexivity).
  destruct Hrun as [st' Hrun].
  destruct (closed_trades_are_recorded 1000.0 account_with_both
              st' prices_up clock_of_examples
              f64_account_with_both_reachable Hrun)
    as (closed & Ht & Hsyms & _).
  exists st', closed. split; [exact Hrun|]. split; [exact Ht|].
  rewrite Hsyms. reflexivity.
Defined.

End Binary64Claims.
